(** * Conversation engine of the ChatGPT Discord bot: model and properties

    A shallow embedding of [src/conversation/conversation.ts] (class
    [Conversation]: the [generate] retry loop, [cooldownTime],
    [pushToHistory], the database conversions) and of
    [SummarizeCommand.buildSummarizerPrompt].

    JavaScript objects that the code copies with the spread operator are
    finite maps from property names to values; the conversation itself is
    a record; asynchronous calls into collaborators (generation transport,
    moderation check, database, cluster broadcast, timers) are logged as
    events, each with the conversation as it was when the call was made.

    One call runs at a time: an awaited call resolves or rejects before
    the next statement runs, and nothing else touches the conversation
    meanwhile. The clock is read once per call. The numbers of the
    cool-down arithmetic are IEEE 754 binary64 values, as JavaScript has
    them, with the operations of the Standard Library's [SpecFloat]. *)

From stdpp Require Import gmap strings list.
From Equations Require Import Equations.
From Stdlib Require Import ZArith.
From Stdlib Require Import Floats.SpecFloat.

Set Warnings "-register-all".
#[local] Open Scope Z_scope.

(** ** JavaScript values *)

(** An [ImageBuffer] wraps a binary Node.js buffer. *)
Definition ImageBuffer : Type := list Byte.byte.

Inductive JsValue : Type :=
| VUndefined
| VNull
| VBool (b : bool)
| VNum (n : Z)
| VStr (s : string)
| VBuffer (b : ImageBuffer)        (* an [ImageBuffer] instance *)
| VHandle (h : string)             (* a discord.js [Message], opaque *)
| VArr (l : list JsValue)
| VObj (o : gmap string JsValue).

Abbreviation JsObject := (gmap string JsValue).

(** [o.k] on an object: a missing property reads as [undefined]. *)
Definition field (k : string) (o : JsObject) : JsValue :=
  default VUndefined (o !! k).

(** [v.k] on a value. *)
Definition get (k : string) (v : JsValue) : JsValue :=
  match v with
  | VObj o => field k o
  | _ => VUndefined
  end.

(** [{ ...v }]: the own properties of an object. *)
Definition spread (v : JsValue) : JsObject :=
  match v with
  | VObj o => o
  | _ => ∅
  end.

(** The elements [a.map] visits. *)
Definition elements_of (v : JsValue) : list JsValue :=
  match v with
  | VArr l => l
  | _ => []
  end.

(** JavaScript truthiness, as used by [c ? a : b] and [&&]. *)
Definition truthy (v : JsValue) : bool :=
  match v with
  | VUndefined | VNull => false
  | VBool b => b
  | VNum n => negb (n =? 0)
  | VStr s => negb (String.eqb s EmptyString)
  | _ => true
  end.

(** ** The ImageBuffer codec

    [ImageBuffer.toString] and [ImageBuffer.load] live in
    [chat/types/image.ts], which is not part of the sources at hand; they
    are an interface here. *)
Class ImageCodec := {
  bufferToString : ImageBuffer → string;
  bufferLoad : string → ImageBuffer
}.

(** Modelled from the spec: image payloads "are stored as a reversible
    textual encoding and must be converted back to binary form on load". *)
Definition reversible (codec : ImageCodec) : Prop :=
  ∀ b : ImageBuffer, bufferLoad (bufferToString b) = b.

(** [i.data.toString()] for the [data] of an output image. By its declared
    type [data] is an [ImageBuffer]; a string is its own [toString]. *)
Definition dataToString {codec : ImageCodec} (data : JsValue) : JsValue :=
  match data with
  | VBuffer b => VStr (bufferToString b)
  | VStr s => VStr s
  | _ => VUndefined
  end.

(** [ImageBuffer.load(i.data)] for the [data] of a stored image. *)
Definition dataLoad {codec : ImageCodec} (data : JsValue) : JsValue :=
  match data with
  | VStr s => VBuffer (bufferLoad s)
  | _ => VUndefined
  end.

(** [responseMessageToDatabase]:
    [{ ...message, images: message.images ? message.images.map(i =>
       ({ ...i, data: i.data.toString() })) : undefined }] *)
Definition responseMessageToDatabase {codec : ImageCodec} (message : JsValue) : JsValue :=
  VObj (<["images" :=
            if truthy (get "images" message)
            then VArr ((λ i, VObj (<["data" := dataToString (get "data" i)]> (spread i)))
                         <$> elements_of (get "images" message))
            else VUndefined]> (spread message)).

(** [databaseToResponseMessage]: the same shape with [ImageBuffer.load]. *)
Definition databaseToResponseMessage {codec : ImageCodec} (message : JsValue) : JsValue :=
  VObj (<["images" :=
            if truthy (get "images" message)
            then VArr ((λ i, VObj (<["data" := dataLoad (get "data" i)]> (spread i)))
                         <$> elements_of (get "images" message))
            else VUndefined]> (spread message)).

(** The reduced entry written by [generate]:
    [{ id: entry.output.id, input: entry.input,
       output: this.responseMessageToDatabase(entry.output) }] *)
Definition entryToDatabase {codec : ImageCodec} (entry : JsObject) : JsObject :=
  {[ "id" := get "id" (field "output" entry);
     "input" := field "input" entry;
     "output" := responseMessageToDatabase (field "output" entry) ]}.

(** The interaction [loadFromDatabase] pushes for a stored entry. *)
Definition entryFromDatabase {codec : ImageCodec} (now : Z) (entry : JsObject) : JsObject :=
  {[ "input" := field "input" entry;
     "output" := databaseToResponseMessage (field "output" entry);
     "reply" := VNull;
     "time" := VNum now;
     "trigger" := VNull;
     "moderation" := VNull ]}.

(** The declared type of an output image: an object whose [data] is an
    [ImageBuffer]. *)
Definition isOutputImage (v : JsValue) : bool :=
  match v with
  | VObj o => match o !! "data" with Some (VBuffer _) => true | _ => false end
  | _ => false
  end.

(** The declared type [ResponseMessage], as far as the conversions look at
    it: an object whose optional [images] is an array of output images. *)
Definition isResponseMessage (v : JsValue) : bool :=
  match v with
  | VObj o =>
      match o !! "images" with
      | None | Some VUndefined => true
      | Some (VArr l) => forallb isOutputImage l
      | Some _ => false
      end
  | _ => false
  end.

(** The entry handed to the other clusters:
    [{ ...e, trigger: null, reply: null }] *)
Definition stripForBroadcast (e : JsObject) : JsObject :=
  <["reply" := VNull]> (<["trigger" := VNull]> e).

(** ** Errors *)

(** The members of [GPTGenerationErrorType] that the sources name. *)
Inductive GPTGenerationErrorType : Type :=
| Busy | SessionUnusable | Empty | Length | Other.

Inductive JsError : Type :=
| GPTGenerationError (type : GPTGenerationErrorType) (cause : option JsError)
| GPTAPIError (id : string) (serverSide : bool)
    (* [options.data.id] and what [isServerSide()] answers *)
| TypeError (message : string)
| Error (message : string).

#[global] Instance GPTGenerationErrorType_eq_dec : EqDecision GPTGenerationErrorType.
Proof. solve_decision. Defined.

Definition isGPTGenerationError (error : JsError) : bool :=
  match error with GPTGenerationError _ _ => true | _ => false end.

Definition isGPTAPIError (error : JsError) : bool :=
  match error with GPTAPIError _ _ => true | _ => false end.

Definition isTypeError (error : JsError) : bool :=
  match error with TypeError _ => true | _ => false end.

(** [error.options.data.id === s] on an API error. *)
Definition apiIdIs (error : JsError) (s : string) : bool :=
  match error with GPTAPIError id _ => String.eqb id s | _ => false end.

(** [error.options.data.type === t] on a generation error. *)
Definition generationTypeIs (error : JsError) (t : GPTGenerationErrorType) : bool :=
  match error with GPTGenerationError type _ => bool_decide (type = t) | _ => false end.

(** ** Settings and cool-down *)

Inductive SubscriptionType : Type := Free | Voter | GuildPremium | UserPremium.

(** [RestrictionType] is declared in [db/types/restriction.ts]; only its
    member [PremiumOnly] is named by the conversation. *)
Inductive RestrictionType : Type := PremiumOnly | OtherRestriction.

#[global] Instance RestrictionType_eq_dec : EqDecision RestrictionType.
Proof. solve_decision. Defined.

(** ** JavaScript numbers

    A Number is a binary64 value; products and quotients are rounded to
    the nearest value, ties to even. *)
Definition JsNumber : Type := spec_float.

(** An integer literal, or an integer that a binary64 value holds. *)
Definition Number_of_Z (n : Z) : JsNumber := binary_normalize 53 1024 n 0 false.

(** [a * b] and [a / b] *)
Definition Number_mul (a b : JsNumber) : JsNumber := SFmul 53 1024 a b.

Definition Number_div (a b : JsNumber) : JsNumber := SFdiv 53 1024 a b.

(** [a + b] *)
Definition Number_add (a b : JsNumber) : JsNumber := SFadd 53 1024 a b.

(** A decimal literal [n / 10^k] written out, such as [0.15]: the
    binary64 value nearest to it. *)
Definition Number_decimal (n : Z) (k : nat) : JsNumber :=
  Number_div (Number_of_Z n) (Number_of_Z (10 ^ Z.of_nat k)).

(** [CooldownModifier]: both fields are optional. Durations are in
    milliseconds. *)
Record CooldownModifier : Type := {
  time : option JsNumber;
  multiplier : option JsNumber
}.

(** The part of [ChatSettingsModel] the conversation reads:
    [id], [options.cooldown], [options.restricted]. *)
Record ChatSettingsModel : Type := {
  model_id : string;
  model_cooldown : option CooldownModifier;
  model_restricted : option RestrictionType
}.

(** [CONVERSATION_COOLDOWN_MODIFIER]: 1, 0.5, 0.15 and 0.09 *)
Definition CONVERSATION_COOLDOWN_MODIFIER (t : SubscriptionType) : JsNumber :=
  match t with
  | Free => Number_of_Z 1
  | Voter => Number_decimal 5 1
  | GuildPremium => Number_decimal 15 2
  | UserPremium => Number_decimal 9 2
  end.

(** [CONVERSATION_DEFAULT_COOLDOWN.time]: [110 * 1000] *)
Definition CONVERSATION_DEFAULT_COOLDOWN_time : JsNumber :=
  Number_mul (Number_of_Z 110) (Number_of_Z 1000).

(** Truthiness of an optional number: defined, not zero and not NaN. *)
Definition truthyNumber (n : option JsNumber) : bool :=
  match n with
  | Some (S754_zero _) | Some S754_nan | None => false
  | Some _ => true
  end.

(** [Math.round]: the integral value nearest to [x], the one closer to
    plus infinity of two that are equally near; an integral value, a NaN
    and an infinity are answered as they are, and a value between -0.5
    and 0 gives -0. A finite [x] is [m * 2^e], so that [x + 1/2] is
    [(2 m + 2^(-e)) / 2^(1 - e)] when [e] is negative. *)
Definition Math_round (x : JsNumber) : JsNumber :=
  match x with
  | S754_finite s m e =>
      if 0 <=? e then x
      else
        let n := (2 * cond_Zopp s (Z.pos m) + 2 ^ (- e)) / 2 ^ (1 - e) in
        if n =? 0 then S754_zero s else Number_of_Z n
  | _ => x
  end.

(** [model.options.cooldown && model.options.cooldown.time &&
     model.options.restricted === RestrictionType.PremiumOnly] *)
Definition hasPremiumCooldown (model : ChatSettingsModel) : bool :=
  match model_cooldown model with
  | Some cd => truthyNumber (time cd)
               && bool_decide (model_restricted model = Some PremiumOnly)
  | None => false
  end.

(** [cooldownTime(db, model)]; [subscription] is what
    [subscriptionType(db)] answers and [optionsTime] is
    [this.cooldown.options.time]. *)
Definition cooldownTime (subscription : SubscriptionType) (optionsTime : JsNumber)
    (model : ChatSettingsModel) : JsNumber :=
  let baseModifier : JsNumber :=
    if hasPremiumCooldown model then Number_of_Z 1
    else CONVERSATION_COOLDOWN_MODIFIER subscription in
  let toneModifier : JsNumber :=
    match model_cooldown model with
    | Some cd => if truthyNumber (multiplier cd)
                 then default (Number_of_Z 1) (multiplier cd) else Number_of_Z 1
    | None => Number_of_Z 1
    end in
  let baseDuration : JsNumber :=
    if hasPremiumCooldown model
    then default (Number_of_Z 0) (model_cooldown model ≫= time)
    else optionsTime in
  let finalDuration : JsNumber :=
    Number_mul (Number_mul baseDuration baseModifier) toneModifier in
  Math_round finalDuration.

(** The [Cooldown] helper ([conversation/utils/cooldown.ts], not among the
    sources): its configured [options.time] and the armed window. *)
Record Cooldown : Type := {
  options_time : JsNumber;
  state : option (Z * JsNumber)     (* [startedAt], [expiresIn] *)
}.

(** ** The conversation *)

Record Conversation : Type := {
  user_id : string;
  active : bool;
  generating : bool;
  history : list JsObject;
  updatedAt : option Z;
  cooldown : Cooldown;
  ttl : Z;
  timer : option Z           (* the pending idle timeout, by its delay *)
}.

Definition set_generating (b : bool) (c : Conversation) : Conversation :=
  {| user_id := user_id c; active := active c; generating := b;
     history := history c; updatedAt := updatedAt c; cooldown := cooldown c;
     ttl := ttl c; timer := timer c |}.

Definition set_active (b : bool) (c : Conversation) : Conversation :=
  {| user_id := user_id c; active := b; generating := generating c;
     history := history c; updatedAt := updatedAt c; cooldown := cooldown c;
     ttl := ttl c; timer := timer c |}.

Definition set_history (h : list JsObject) (c : Conversation) : Conversation :=
  {| user_id := user_id c; active := active c; generating := generating c;
     history := h; updatedAt := updatedAt c; cooldown := cooldown c;
     ttl := ttl c; timer := timer c |}.

Definition set_timer (u : option Z) (t : option Z) (c : Conversation) : Conversation :=
  {| user_id := user_id c; active := active c; generating := generating c;
     history := history c; updatedAt := u; cooldown := cooldown c;
     ttl := ttl c; timer := t |}.

Definition set_cooldown_state (s : option (Z * JsNumber)) (c : Conversation)
    : Conversation :=
  {| user_id := user_id c; active := active c; generating := generating c;
     history := history c; updatedAt := updatedAt c;
     cooldown := {| options_time := options_time (cooldown c); state := s |};
     ttl := ttl c; timer := timer c |}.

(** The constructor. *)
Definition new_Conversation (user : string) : Conversation :=
  {| user_id := user; active := false; generating := false; history := [];
     updatedAt := None;
     cooldown := {| options_time := CONVERSATION_DEFAULT_COOLDOWN_time; state := None |};
     ttl := 30 * 60 * 1000; timer := None |}.

(** ** Calls into collaborators *)

Inductive Event : Type :=
| ETransport (call : nat)                  (* [await session.generate(options)] *)
| EWarn (tries : nat) (error : JsError)    (* [logger.warn] *)
| ENotice (tries : nat)                    (* [options.onProgress], a retry notice *)
| ESleep (ms : Z)                          (* [await] a [setTimeout] promise *)
| EClearTimeout
| ESetTimeout (ms : Z)
| EModeration (text : JsValue)             (* [await check(...)] *)
| EBroadcast (id : string) (payload : list JsObject) (cluster : Z)
| EUpdateConversation (updates : JsObject)   (* [db.users.updateConversation] *)
| EDeleteConversation (id : string)
| EUpdateInteraction (row : JsObject)
| ECooldownUse (ms : JsNumber)
| EFetchUser (id : string).                (* [db.users.fetchUser] *)

(** A call, with the conversation as it was when the call was issued. *)
Record Observation : Type := {
  event : Event;
  seen : Conversation
}.

(** What one [generate] call is given: its options and the collaborators. *)
Record ChatClientResult : Type := {
  result_input : JsValue;
  result_output : JsValue
}.

Record Env : Type := {
  transport : nat → JsError + ChatClientResult;
      (* what the n-th [session.generate(options)] of this call settles to *)
  check : JsValue → JsValue;       (* the moderation verdict for a text, or null *)
  rejects : Event → option JsError;
      (* whether an awaited call into a collaborator rejects, and with what *)
  options_trigger : JsValue;       (* [options.trigger] *)
  now : Z;                         (* the clock, read once per call *)
  toISOString : Z → string;
  dev : bool;                      (* [bot.dev] *)
  owner : list string;             (* [config.discord.owner] *)
  subscription : SubscriptionType; (* [subscriptionType(options.db)] *)
  model : ChatSettingsModel;       (* [this.model(options.db)] *)
  tone_id : string;                (* [this.tone(options.db).id] *)
  cluster_id : Z                   (* [bot.data.id] *)
}.

(** ** A state, log and exception monad *)

Record World : Type := {
  conv : Conversation;
  log : list Observation;
  calls : nat              (* transport calls made so far *)
}.

Inductive Outcome (A : Type) : Type :=
| Return (a : A)
| Throw (error : JsError)
| OutOfFuel.
Arguments Return {A} a.
Arguments Throw {A} error.
Arguments OutOfFuel {A}.

Definition M (A : Type) : Type := World → Outcome A * World.

Definition ret {A} (a : A) : M A := λ w, (Return a, w).

Definition throw {A} (error : JsError) : M A := λ w, (Throw error, w).

Definition bind {A B} (m : M A) (k : A → M B) : M B :=
  λ w, match m w with
       | (Return a, w') => k a w'
       | (Throw error, w') => (Throw error, w')
       | (OutOfFuel, w') => (OutOfFuel, w')
       end.

Notation "'let!' x ':=' m 'in' k" := (bind m (λ x, k))
  (at level 10, x pattern, m at level 100, k at level 200).
Notation "m ';;' k" := (bind m (λ _, k))
  (at level 100, k at level 200, right associativity).

Definition this : M Conversation := λ w, (Return (conv w), w).

Definition modify (f : Conversation → Conversation) : M unit :=
  λ w, (Return tt, {| conv := f (conv w); log := log w; calls := calls w |}).

Definition emit (e : Event) : M unit :=
  λ w, (Return tt,
        {| conv := conv w;
           log := log w ++ [{| event := e; seen := conv w |}];
           calls := calls w |}).

Definition skip : M unit := ret tt.

(** [await] a call into a collaborator: the call is issued, and then it
    either resolves or rejects. *)
Definition await (env : Env) (e : Event) : M unit :=
  emit e;;
  match rejects env e with
  | Some error => throw error
  | None => ret tt
  end.

(** ** Timers, cool-down, history *)

(** [getResetTime(relative)] *)
Definition getResetTime (c : Conversation) (now : Z) (relative : bool) : Z :=
  let timeToReset := default now (updatedAt c) + ttl c in
  Z.max (if relative then timeToReset - now else timeToReset) 0.

(** [applyResetTimer()] *)
Definition applyResetTimer (env : Env) : M unit :=
  let! c := this in
  (if timer c is Some _
   then emit EClearTimeout;; modify (λ c, set_timer (updatedAt c) None c)
   else skip);;
  modify (λ c, set_timer (Some (now env)) (timer c) c);;
  let! c := this in
  emit (ESetTimeout (getResetTime c (now env) true));;
  modify (λ c, set_timer (updatedAt c) (Some (getResetTime c (now env) true)) c).

(** Modelled from the spec: [Cooldown.use(durationMs)], whose class is not
    among the sources, "arms the window — records start = now, expiry =
    now + duration"; [cooldownMessage] reads the window back as
    [state.startedAt] and [state.expiresIn]. *)
Definition cooldown_use (env : Env) (ms : JsNumber) : M unit :=
  emit (ECooldownUse ms);;
  modify (set_cooldown_state (Some (now env, ms))).

(** [pushToHistory(entry?)] *)
Definition pushToHistory (env : Env) (entry : option JsObject) : M unit :=
  (if entry is Some e
   then modify (λ c, set_history (history c ++ [e]) c)
   else skip);;
  let! c := this in
  await env (EBroadcast (user_id c) (stripForBroadcast <$> history c) (cluster_id env)).

(** [loadFromDatabase(data)], for the stored history of [data] (null when
    the row has none). *)
Definition loadFromDatabase {codec : ImageCodec} (env : Env)
    (stored : option (list JsObject)) : M unit :=
  match stored with
  | Some entries =>
      modify (λ c, set_history (history c ++ (entryFromDatabase (now env) <$> entries)) c);;
      pushToHistory env None
  | None => skip
  end.

(** [reset(remove)] *)
Definition reset (env : Env) (remove : bool) : M unit :=
  applyResetTimer env;;
  modify (set_history []);;
  let! c := this in
  (if remove
   then await env (EDeleteConversation (user_id c))
   else await env (EUpdateConversation {[ "history" := VArr [] ]}));;
  modify (set_active (negb remove));;
  modify (set_generating false).

(** [init()] *)
Definition init (env : Env) : M unit :=
  let! c := this in
  await env (EFetchUser (user_id c));;
  let! c := this in
  (if bool_decide (length (history c) = 0%nat)
   then await env (EUpdateConversation
                 {[ "created" := VNum (now env); "id" := VStr (user_id c);
                    "active" := VBool true; "history" := VNull ]})
   else skip);;
  applyResetTimer env;;
  modify (set_active true).

(** ** The retry loop of [generate] *)

Definition CONVERSATION_ERROR_RETRY_MAX_TRIES : nat := 10.

(** The four conditions of the [catch] block, in the order it tests them. *)

(** Out of credit, access terminated, or tagged [SessionUnusable]. *)
Definition sessionUnusable (error : JsError) : bool :=
  (isGPTAPIError error
   && (apiIdIs error "insufficient_quota" || apiIdIs error "access_terminated"))
  || (isGPTGenerationError error && generationTypeIs error SessionUnusable).

(** Rate-limited, or failed "for some reason". *)
Definition rateLimited (error : JsError) : bool :=
  (isGPTAPIError error
   && (apiIdIs error "requests" || apiIdIs error "invalid_request_error"))
  || isTypeError error.

(** [error.options.data.cause && !(error.options.data.cause instanceof GPTAPIError)] *)
Definition hasOtherCause (error : JsError) : bool :=
  match error with
  | GPTGenerationError _ (Some cause) => negb (isGPTAPIError cause)
  | _ => false
  end.

(** [error.isServerSide()] *)
Definition isServerSide (error : JsError) : bool :=
  match error with GPTAPIError _ serverSide => serverSide | _ => false end.

(** A generation error with a cause of its own, or a client-side API error. *)
Definition thrownThrough (error : JsError) : bool :=
  (isGPTGenerationError error && hasOtherCause error)
  || (isGPTAPIError error && negb (isServerSide error)).

Definition emptyOrLength (error : JsError) : bool :=
  isGPTGenerationError error
  && (generationTypeIs error Empty || generationTypeIs error Length).

(** [await this.manager.session.generate(options)] *)
Definition call_transport (env : Env) : M (JsError + ChatClientResult) :=
  λ w, (Return (transport env (calls w)),
        {| conv := conv w;
           log := log w ++ [{| event := ETransport (calls w); seen := conv w |}];
           calls := S (calls w) |}).

(** The [catch (error)] block; it answers the incremented [tries]. *)
Definition catch_block (tries : nat) (error : JsError) : M nat :=
  let tries := S tries in
  (if (tries =? CONVERSATION_ERROR_RETRY_MAX_TRIES)%nat
   then
     modify (set_generating false);;
     if isGPTGenerationError error || isGPTAPIError error
     then throw error
     else throw (GPTGenerationError Other (Some error))
   else
     emit (EWarn tries error);;
     emit (ENotice tries));;
  (if sessionUnusable error
   then throw (GPTGenerationError SessionUnusable None)
   else if rateLimited error
   then emit (ESleep ((Z.of_nat tries * 5 + 5) * 1000))
   else if thrownThrough error
   then modify (set_generating false);; throw error
   else if emptyOrLength error
   then modify (set_generating false);; throw error
   else skip);;
  ret tries.

Definition isNull {A} (data : option A) : bool :=
  match data with None => true | Some _ => false end.

(** [do { try { data = await ... } catch (error) { ... } }
     while (tries < MAX && data === null && this.generating)].
    One unit of [fuel] is one run of the body. *)
Fixpoint attempts (env : Env) (fuel : nat) (tries : nat)
    : M (nat * option ChatClientResult) :=
  match fuel with
  | O => λ w, (OutOfFuel, w)
  | S fuel =>
      let! settled := call_transport env in
      let! (tries, data) :=
        match settled with
        | inr data => ret (tries, Some data)
        | inl error => let! tries := catch_block tries error in ret (tries, None)
        end in
      let! c := this in
      if (tries <? CONVERSATION_ERROR_RETRY_MAX_TRIES)%nat && isNull data && generating c
      then attempts env fuel tries
      else ret (tries, data)
  end.
Arguments attempts : simpl never.

(** The row for [updateInteraction]. *)
Definition interactionRow {codec : ImageCodec} (env : Env) (result : JsObject) : JsObject :=
  {[ "completedAt" := VStr (toISOString env (now env));
     "requestedAt" := VStr (toISOString env (now env));
     "id" := get "id" (field "output" result);
     "input" := field "input" result;
     "output" := responseMessageToDatabase (field "output" result);
     "model" := VStr (model_id (model env));
     "tone" := VStr (tone_id env) ]}.

(** The [result] record: the interaction that goes into the history. *)
Definition interaction (env : Env) (data : ChatClientResult) : JsObject :=
  {[ "input" := result_input data;
     "output" := result_output data;
     "trigger" := options_trigger env;
     "reply" := VNull;
     "moderation" := check env (get "text" (result_output data));
     "time" := VNum (now env) ]}.

(** What [updateConversation] is given after a generation. *)
Definition historyUpdate {codec : ImageCodec} (h : list JsObject) : JsObject :=
  {[ "history" := VArr (VObj <$> (entryToDatabase <$> h)) ]}.

(** What follows the check of [data]: moderation, history, database,
    cool-down, and the result. *)
Definition complete {codec : ImageCodec} (env : Env) (tries : nat) (data : ChatClientResult)
    : M JsObject :=
  await env (EModeration (get "text" (result_output data)));;
  let result := interaction env data in
  pushToHistory env (Some result);;
  let! c := this in
  await env (EUpdateConversation (historyUpdate (history c)));;
  (if negb (dev env) then await env (EUpdateInteraction (interactionRow env result)) else skip);;
  let! c := this in
  let cooldown := cooldownTime (subscription env) (options_time (cooldown c)) (model env) in
  (if negb (existsb (String.eqb (user_id c)) (owner env))
   then cooldown_use env cooldown
   else skip);;
  ret (<["tries" := VNum (Z.of_nat tries)]> result).

(** What [generate] does once the loop is left without a throw: the lock
    is released, the timer set again, and [data] checked and completed. *)
Definition after_loop {codec : ImageCodec} (env : Env) (tries : nat)
    (data : option ChatClientResult) : M JsObject :=
  modify (set_generating false);;
  applyResetTimer env;;
  match data with
  | None => throw (Error "What.")
  | Some data => complete env tries data
  end.

(** [generate(options)] *)
Definition generate {codec : ImageCodec} (env : Env) : M JsObject :=
  let! c := this in
  if negb (active c) then throw (Error "Conversation is inactive") else
  if generating c then throw (GPTGenerationError Busy None) else
  modify (set_generating true);;
  let! c := this in
  (if timer c is Some _ then emit EClearTimeout else skip);;
  let! (tries, data) := attempts env CONVERSATION_ERROR_RETRY_MAX_TRIES 0 in
  after_loop env tries data.

(** A call starts from a conversation with an empty log. *)
Definition world (c : Conversation) : World :=
  {| conv := c; log := []; calls := 0 |}.

(** ** What the fields of a conversation can undergo

    Every assignment the class makes to [active], [generating], [history],
    the timer and the cool-down, as one atomic step each; assignments with
    no [await] between them form a single step. Any interleaving of
    [init], [reset], [generate], [pushToHistory], [loadFromDatabase] and
    an incoming broadcast is a sequence of these steps. *)
Inductive step : Conversation → Conversation → Prop :=
| step_lock c :                     (* [generate]: the two guards, then the lock *)
    active c = true → generating c = false →
    step c (set_generating true c)
| step_unlock c :                   (* [generate]: every [this.generating = false] *)
    step c (set_generating false c)
| step_history c h :                (* a push, a reset, a reload, a broadcast *)
    step c (set_history h c)
| step_timer c u t :                (* [applyResetTimer] *)
    step c (set_timer u t c)
| step_cooldown c s :               (* [cooldown.use] *)
    step c (set_cooldown_state s c)
| step_init c :                     (* [init]: [this.active = true] *)
    step c (set_active true c)
| step_reset c remove :             (* [reset]: its last two assignments *)
    step c (set_generating false (set_active (negb remove) c)).

Inductive reachable : Conversation → Prop :=
| reachable_new user : reachable (new_Conversation user)
| reachable_step c c' : reachable c → step c c' → reachable c'.

(** ** The summarizer prompt *)

(** [YouTubeSubtitle] ([util/youtube.ts]): the builder reads [content]. *)
Record YouTubeSubtitle : Type := { sub_content : string }.

Record OpenAIChatMessage : Type := {
  msg_content : string;
  role : string
}.

Record SummaryPrompt : Type := {
  messages : list OpenAIChatMessage;
  tokens : Z
}.

Section Summarizer.

(** [countChatMessageTokens] comes from [conversation/utils/length.ts];
    [systemContent] is the text of the system message, which depends on
    [db], [video] and [type] only. *)
Context (countChatMessageTokens : list OpenAIChatMessage → Z)
        (systemContent : string).

(** The two messages built from the subtitles at hand. *)
Definition summarizerMessages (subtitles : list YouTubeSubtitle)
    : list OpenAIChatMessage :=
  [ {| msg_content := systemContent; role := "system" |};
    {| msg_content := String.concat " " (sub_content <$> subtitles);
       role := "assistant" |} ].

(** [buildSummarizerPrompt]: over budget with nothing left throws
    [Length]; over budget otherwise pops the array and starts again. *)
Equations? buildSummarizerPrompt (subtitles : list YouTubeSubtitle)
    : JsError + SummaryPrompt by wf (length subtitles) lt :=
  buildSummarizerPrompt subtitles
    with (4000 <? countChatMessageTokens (summarizerMessages subtitles)), subtitles := {
    | true, [] => inl (GPTGenerationError Length None);
    | true, s :: rest => buildSummarizerPrompt (removelast (s :: rest));
    | false, kept =>
        inr {| messages := summarizerMessages kept;
               tokens := countChatMessageTokens (summarizerMessages kept) |} }.
Proof.
  clear buildSummarizerPrompt.
  revert s; induction rest as [|r rest IH]; intros s; simpl in *; [lia|].
  specialize (IH r). lia.
Qed.

(** The builder as the specification words it: over budget, the oldest
    chunk is the one dropped. *)
Equations spec_buildSummarizerPrompt (subtitles : list YouTubeSubtitle)
    : JsError + SummaryPrompt by wf (length subtitles) lt :=
  spec_buildSummarizerPrompt subtitles
    with (4000 <? countChatMessageTokens (summarizerMessages subtitles)), subtitles := {
    | true, [] => inl (GPTGenerationError Length None);
    | true, _ :: rest => spec_buildSummarizerPrompt rest;
    | false, kept =>
        inr {| messages := summarizerMessages kept;
               tokens := countChatMessageTokens (summarizerMessages kept) |} }.

End Summarizer.

(** ** Vocabulary for the statements *)

Definition obs (c : Conversation) (e : Event) : Observation :=
  {| event := e; seen := c |}.

(** The world after issuing the calls [es] without touching the
    conversation. *)
Definition logged (w : World) (es : list Event) : World :=
  {| conv := conv w; log := log w ++ (obs (conv w) <$> es); calls := calls w |}.

Definition unlocked (w : World) : World :=
  {| conv := set_generating false (conv w); log := log w; calls := calls w |}.

(** The calls made from inside the retry loop. *)
Definition loop_event (e : Event) : bool :=
  match e with
  | ETransport _ | EWarn _ _ | ENotice _ | ESleep _ => true
  | _ => false
  end.

(** One of the two recognised error kinds. *)
Definition recognised (error : JsError) : bool :=
  isGPTGenerationError error || isGPTAPIError error.

(** An error after which the loop goes on (unless it was the last try):
    it is not session-unusable, and it is either rate-limited or matches
    none of the two throwing tests. *)
Definition continues (error : JsError) : bool :=
  negb (sessionUnusable error)
  && (rateLimited error || negb (thrownThrough error || emptyOrLength error)).

(** The first [n] attempts of a call all fail with an error that lets the
    loop go on. *)
Definition fails_first (env : Env) (n : nat) : bool :=
  forallb (λ k, match transport env k with
                | inl error => continues error
                | inr _ => false
                end) (seq 0 n).

(** The world after the next transport call has been issued. *)
Definition called (w : World) : World :=
  {| conv := conv w;
     log := log w ++ [obs (conv w) (ETransport (calls w))];
     calls := S (calls w) |}.

(** The world in which the retry loop starts: the lock is taken and a
    pending idle timeout has been cleared. *)
Definition start (c : Conversation) : World :=
  {| conv := set_generating true c;
     log := if timer c is Some _ then [obs (set_generating true c) EClearTimeout] else [];
     calls := 0 |}.

(** [owner.includes(this.user.id)] *)
Definition isOwner (env : Env) (c : Conversation) : bool :=
  existsb (String.eqb (user_id c)) (owner env).

(** Fields that [applyResetTimer] leaves alone. *)
Definition same_but_timer (c c' : Conversation) : Prop :=
  user_id c' = user_id c ∧ active c' = active c ∧ generating c' = generating c
  ∧ history c' = history c ∧ cooldown c' = cooldown c ∧ ttl c' = ttl c.

Definition timer_event (e : Event) : bool :=
  match e with
  | EClearTimeout | ESetTimeout _ => true
  | _ => false
  end.

(** The conversation once the interaction of [data] is in the history. *)
Definition pushed (env : Env) (data : ChatClientResult) (c : Conversation) : Conversation :=
  set_history (history c ++ [interaction env data]) c.

(** The duration [generate] computes for the cool-down. *)
Definition armed_duration (env : Env) (c : Conversation) : JsNumber :=
  cooldownTime (subscription env) (options_time (cooldown c)) (model env).

(** The calls [complete] awaits, starting from conversation [c]. *)
Definition completion_awaited {codec : ImageCodec} (env : Env) (data : ChatClientResult)
    (c : Conversation) : list Observation :=
  let ch := pushed env data c in
  [ obs c (EModeration (get "text" (result_output data)));
    obs ch (EBroadcast (user_id ch) (stripForBroadcast <$> history ch) (cluster_id env));
    obs ch (EUpdateConversation (historyUpdate (history ch))) ]
  ++ (if negb (dev env)
      then [obs ch (EUpdateInteraction (interactionRow env (interaction env data)))]
      else []).

(** All the calls [complete] makes when none of the awaited ones rejects. *)
Definition completion_log {codec : ImageCodec} (env : Env) (data : ChatClientResult)
    (c : Conversation) : list Observation :=
  let ch := pushed env data c in
  completion_awaited env data c
  ++ (if negb (isOwner env ch)
      then [obs ch (ECooldownUse (armed_duration env ch))]
      else []).

(** The conversation [complete] ends with. *)
Definition completed (env : Env) (data : ChatClientResult) (c : Conversation)
    : Conversation :=
  let ch := pushed env data c in
  if negb (isOwner env ch)
  then set_cooldown_state (Some (now env, armed_duration env ch)) ch
  else ch.

(** ** Concrete collaborators and conversations *)

(** A codec that writes each byte of the buffer as one character. *)
Definition plainCodec : ImageCodec :=
  {| bufferToString := String.string_of_list_byte;
     bufferLoad := String.list_byte_of_string |}.

Definition sample_image : JsValue :=
  VObj {[ "data" := VBuffer [Byte.x89; Byte.x50; Byte.x4e; Byte.x47];
          "prompt" := VStr "a cat" ]}.

Definition sample_output : JsValue :=
  VObj {[ "id" := VStr "msg-1"; "text" := VStr "Hello!";
          "images" := VArr [sample_image] ]}.

Definition sample_data : ChatClientResult :=
  {| result_input := VObj {[ "content" := VStr "Hi" ]};
     result_output := sample_output |}.

(** A model without a cool-down of its own, and a premium-only model
    with a 30 s cool-down and a multiplier of 2. *)
Definition plain_model : ChatSettingsModel :=
  {| model_id := "chatgpt"; model_cooldown := None; model_restricted := None |}.

Definition premium_model : ChatSettingsModel :=
  {| model_id := "gpt-4";
     model_cooldown := Some {| time := Some (Number_of_Z 30000);
                               multiplier := Some (Number_of_Z 2) |};
     model_restricted := Some PremiumOnly |}.

Definition sample_env (script : nat → JsError + ChatClientResult)
    (m : ChatSettingsModel) : Env :=
  {| transport := script;
     check := λ _, VNull;
     rejects := λ _, None;
     options_trigger := VHandle "trigger";
     now := 1700000000000;
     toISOString := λ _, "2023-11-14T22:13:20.000Z";
     dev := false;
     owner := ["owner-1"];
     subscription := Voter;
     model := m;
     tone_id := "neutral";
     cluster_id := 0 |}.

(** The transport fails [n] times with [error], then succeeds. *)
Definition succeeds_after (n : nat) (error : JsError)
    : nat → JsError + ChatClientResult :=
  λ k, if (k <? n)%nat then inl error else inr sample_data.

(** The transport fails [n] times with [first], then with [last]. *)
Definition fails_with (n : nat) (first last : JsError)
    : nat → JsError + ChatClientResult :=
  λ k, if (k <? n)%nat then inl first else inl last.

(** A conversation after [init], and the same one with a call in flight. *)
Definition ready : Conversation := set_active true (new_Conversation "user-1").

Definition in_flight : Conversation := set_generating true ready.

(** [ready] once [applyResetTimer] has run at the clock of [sample_env]. *)
Definition ready_timed : Conversation :=
  set_timer (Some 1700000000000) (Some (30 * 60 * 1000)) ready.

(** A model with the multiplier 0.205 and no duration of its own. *)
Definition scaled_model : ChatSettingsModel :=
  {| model_id := "scaled";
     model_cooldown := Some {| time := None; multiplier := Some (Number_decimal 205 3) |};
     model_restricted := None |}.

Definition insufficient_quota : JsError := GPTAPIError "insufficient_quota" false.

Definition rate_limit : JsError := GPTAPIError "requests" true.

(** ** The specification's wording, where it differs from the code *)


(** The cool-down as the specification words it: the model's own duration
    when it has one, and otherwise tier modifier × multiplier × base. *)
Definition spec_cooldownTime (subscription : SubscriptionType) (optionsTime : JsNumber)
    (model : ChatSettingsModel) : JsNumber :=
  match model_cooldown model ≫= time with
  | Some t => Math_round t
  | None =>
      Math_round
        (Number_mul
           (Number_mul (CONVERSATION_COOLDOWN_MODIFIER subscription)
              (default (Number_of_Z 1) (model_cooldown model ≫= multiplier)))
           optionsTime)
  end.

(** The premium cool-down of a model, when the code takes it as the base. *)
Definition premium_time (model : ChatSettingsModel) : option JsNumber :=
  if hasPremiumCooldown model then model_cooldown model ≫= time else None.

(** The multiplier of a model: its configured one unless that is missing,
    zero or NaN. *)
Definition cooldown_multiplier (model : ChatSettingsModel) : JsNumber :=
  if truthyNumber (model_cooldown model ≫= multiplier)
  then default (Number_of_Z 1) (model_cooldown model ≫= multiplier)
  else Number_of_Z 1.

Definition isCooldownUse (e : Event) : bool :=
  match e with ECooldownUse _ => true | _ => false end.

(** A token counter for the examples: a thousand tokens per character;
    and a system message of one character. *)
Definition sample_counter (ms : list OpenAIChatMessage) : Z :=
  1000 * Z.of_nat (sum_list (String.length ∘ msg_content <$> ms)).

Definition sample_system : string := "S".

Definition early_subtitle : YouTubeSubtitle := {| sub_content := "aaa" |}.

Definition late_subtitle : YouTubeSubtitle := {| sub_content := "bb" |}.

(** ** Accounting for a call of [generate] *)

Definition isTransport (e : Event) : bool :=
  match e with ETransport _ => true | _ => false end.

(** The time a log spends waiting between attempts, in milliseconds. *)
Definition slept (l : list Observation) : Z :=
  foldr (λ o total, match event o with ESleep ms => ms + total | _ => total end) 0 l.

(** The waits the loop can still make after [tries] failures, when
    [more] further failures can be followed by another attempt. *)
Fixpoint backoff_left (more tries : nat) : Z :=
  match more with
  | O => 0
  | S more => (Z.of_nat (S tries) * 5 + 5) * 1000 + backoff_left more (S tries)
  end.

(** [get previous()]: the last interaction, or null. *)
Definition previous (c : Conversation) : option JsObject :=
  if bool_decide (length (history c) = 0%nat) then None
  else history c !! (length (history c) - 1)%nat.

(** ** Loading a conversation *)

(** [loadIfNotActive()]. [cached] is what [await this.cached()] answers:
    null, or the row with its stored history (null when the row has
    none). The read is made only past the first guard; it is taken to
    resolve and is not among the logged calls, and the [db] field it sets
    is not among the fields of the record. *)
Definition loadIfNotActive {codec : ImageCodec} (env : Env)
    (cached : option (option (list JsObject))) : M unit :=
  let! c := this in
  if active c then skip else
  match cached with
  | None => skip
  | Some stored => loadFromDatabase env stored;; init env
  end.

Definition isSetTimeout (e : Event) : bool :=
  match e with ESetTimeout _ => true | _ => false end.

(** No awaited call into a collaborator rejects. *)
Definition all_resolve (env : Env) : Prop := ∀ e, rejects env e = None.

(** The database call [reset(remove)] awaits. *)
Definition reset_call (remove : bool) (c : Conversation) : Event :=
  if remove then EDeleteConversation (user_id c)
  else EUpdateConversation {[ "history" := VArr [] ]}.

(** The call [init] awaits first: [db.users.fetchUser(this.user)]. *)
Definition fetch_call (c : Conversation) : Event := EFetchUser (user_id c).

(** The row [init] writes for a conversation without history. *)
Definition init_call (env : Env) (c : Conversation) : Event :=
  EUpdateConversation
    {[ "created" := VNum (now env); "id" := VStr (user_id c);
       "active" := VBool true; "history" := VNull ]}.

(** The conversation once [applyResetTimer] has run. *)
Definition rearmed (env : Env) (c : Conversation) : Conversation :=
  set_timer (Some (now env)) (Some (Z.max (ttl c) 0)) c.

(** The calls [applyResetTimer] makes on a conversation. *)
Definition rearm_log (env : Env) (c : Conversation) : list Observation :=
  (if timer c is Some _ then [obs c EClearTimeout] else [])
  ++ [obs (set_timer (Some (now env)) None c) (ESetTimeout (Z.max (ttl c) 0))].

(** A stored row with one entry, and a conversation that was never
    initialised. *)
Definition sample_row : option (list JsObject) :=
  Some [entryToDatabase (codec := plainCodec)
          (interaction (sample_env (succeeds_after 0 rate_limit) plain_model) sample_data)].

Definition fresh : Conversation := new_Conversation "user-1".

(** ** The cool-down notice, settings *)

From stdpp Require pretty.

#[global] Instance SubscriptionType_eq_dec : EqDecision SubscriptionType.
Proof. solve_decision. Defined.

(** What [cooldownMessage] sets of an [EmbedBuilder]. *)
Record EmbedBuilder : Type := {
  embed_title : option string;
  embed_description : string;
  embed_color : string
}.

(** The line feed of a template string. *)
Definition newline : string := String (Ascii.ascii_of_nat 10) EmptyString.

(** [Math.floor]: the greatest integral value that is not above [x]. *)
Definition Math_floor (x : JsNumber) : JsNumber :=
  match x with
  | S754_finite s m e =>
      if 0 <=? e then x
      else
        let n := cond_Zopp s (Z.pos m) / 2 ^ (- e) in
        if n =? 0 then S754_zero s else Number_of_Z n
  | _ => x
  end.

(** The integer a Number holds, when it holds one. *)
Definition integral (x : JsNumber) : option Z :=
  match x with
  | S754_zero _ => Some 0
  | S754_finite s m e =>
      if 0 <=? e then Some (cond_Zopp s (Z.pos m * 2 ^ e))
      else if Z.pos m mod 2 ^ (- e) =? 0
      then Some (cond_Zopp s (Z.pos m / 2 ^ (- e)))
      else None
  | _ => None
  end.

(** [`${x}`]: the digits of an integer below 10^21, [NaN], [Infinity];
    [other] is the text of every other Number (a fraction, or an
    exponent notation). *)
Definition Number_toString (other : JsNumber → string) (x : JsNumber) : string :=
  match x with
  | S754_nan => "NaN"
  | S754_infinity negative => if negative then "-Infinity" else "Infinity"
  | _ =>
      match integral x with
      | Some n => if Z.abs n <? 10 ^ 21 then pretty.pretty n else other x
      | None => other x
      end
  end.

(** [Math.floor((startedAt + expiresIn + 1000) / 1000)]: the second a
    notice names, for the sum [startedAt + expiresIn]. *)
Definition cooldownSecond (sum : JsNumber) : JsNumber :=
  Math_floor (Number_div (Number_add sum (Number_of_Z 1000)) (Number_of_Z 1000)).

(** [state.startedAt! + state.expiresIn!]. The [Cooldown] class is not
    among the sources: [unarmed] is what the sum comes to for a window
    that is not armed. *)
Definition windowEnd (unarmed : JsNumber) (c : Conversation) : JsNumber :=
  match state (cooldown c) with
  | Some (startedAt, expiresIn) => Number_add (Number_of_Z startedAt) expiresIn
  | None => unarmed
  end.

Definition premiumNotice (shopURL : string) : string :=
  "✨ By buying **[Premium](" +:+ shopURL
  +:+ ")**, your cool-down will be lowered to **a few seconds** only, with **unlimited** messages per day."
  +:+ newline
  +:+ "**Premium** *also includes further benefits, view `/premium info` for more*. ✨".

Definition ownPremiumNotice (shopURL : string) : string :=
  "✨ By buying **[Premium](" +:+ shopURL
  +:+ ")** for yourself, the cool-down will be lowered to only **a few seconds**, with **unlimited** messages per day."
  +:+ newline
  +:+ "**Premium** *also includes further benefits, view `/premium info` for more*. ✨".

Definition voteNotice (botId : string) : string :=
  newline +:+ newline
  +:+ "You can also reduce your cool-down for **completely free**, by simply voting for us on **[top.gg](https://top.gg/en/bot/"
  +:+ botId +:+ "/vote)**. 📩" +:+ newline
  +:+ "After voting, run `/vote` and press the **Check your vote** button.".

Definition slowDownNotice (second : string) : string :=
  "I'm sorry, but I can't keep up with your requests. You can talk to me again <t:"
  +:+ second +:+ ":R>. 😔".

(** The embeds [cooldownMessage] puts after the first. *)
Definition additionalEmbeds (subscriptionType : SubscriptionType) (shopURL botId : string)
    : list EmbedBuilder :=
  let additional : list EmbedBuilder :=
    if bool_decide (subscriptionType ≠ UserPremium)
    then if bool_decide (subscriptionType = Free) || bool_decide (subscriptionType = Voter)
         then [ {| embed_title := None; embed_description := premiumNotice shopURL;
                   embed_color := "Orange" |} ]
         else if bool_decide (subscriptionType = GuildPremium)
         then [ {| embed_title := None; embed_description := ownPremiumNotice shopURL;
                   embed_color := "Orange" |} ]
         else []
    else [] in
  match additional with
  | first :: rest =>
      {| embed_title := embed_title first;
         embed_description := embed_description first +:+ voteNotice botId;
         embed_color := embed_color first |} :: rest
  | [] => []
  end.

(** [cooldownMessage(db)]. [subscriptionType] is what
    [subscriptionType(db)] answers, [shopURL] what [Utils.shopURL()]
    answers and [botId] is [bot.client.user.id]. The state of the
    cool-down is read without a test. *)
Definition cooldownMessage (subscriptionType : SubscriptionType) (shopURL botId : string)
    (unarmed : JsNumber) (other : JsNumber → string) (c : Conversation)
    : list EmbedBuilder :=
  {| embed_title := Some "Whoa-whoa... slow down ⌛";
     embed_description :=
       slowDownNotice (Number_toString other (cooldownSecond (windowEnd unarmed c)));
     embed_color := "Yellow" |}
  :: additionalEmbeds subscriptionType shopURL botId.

(** [setting(type, arr, db)]: [id] is what
    [settings.get(user, `chat:${type}`)] answers; [arr[0]] of an empty
    array is undefined. *)
Definition setting {T : Type} (id_of : T → string) (arr : list T) (id : string)
    : option T :=
  match List.find (λ m, String.eqb (id_of m) id) arr with
  | Some model => Some model
  | None => head arr
  end.

(** [changeSetting(type, db, updated)]: [reset()], with its default
    [remove = true], and then [settings.apply], which is not among the
    logged calls; [apply] is the error it rejects with, if it does. *)
Definition changeSetting (env : Env) (apply : option JsError) : M unit :=
  reset env true;;
  match apply with
  | Some error => throw error
  | None => ret tt
  end.

(** * Commands *)

(** ** Calls and exceptions of a command *)

(** What a command throws, or a collaborator rejects with. *)
Inductive Thrown : Type :=
| JsThrown (error : JsError)
| YoutubeTranscriptError (message : string).

(** A run that has made the calls [C] and then answers or throws. *)
Definition Run (C A : Type) : Type := list C * (Thrown + A).

Definition answer {C A} (a : A) : Run C A := ([], inr a).

Definition raise {C A} (error : Thrown) : Run C A := ([], inl error).

(** A call into a collaborator and what it settles to. *)
Definition call {C A} (c : C) (settles : Thrown + A) : Run C A := ([c], settles).

Definition andThen {C A B} (m : Run C A) (k : A → Run C B) : Run C B :=
  match m with
  | (l, inr a) => (l ++ (k a).1, (k a).2)
  | (l, inl error) => (l, inl error)
  end.

(** [try { m } catch (error) { handler }] *)
Definition tryCatch {C A} (m : Run C A) (handler : Thrown → Run C A) : Run C A :=
  match m with
  | (l, inl error) => (l ++ (handler error).1, (handler error).2)
  | (l, inr a) => (l, inr a)
  end.

Notation "'do!' x ':=' m 'in' k" := (andThen m (λ x, k))
  (at level 10, x pattern, m at level 100, k at level 200).

(** [s.includes(sub)] *)
Definition includes (sub s : string) : bool :=
  if String.index 0 sub s is Some _ then true else false.

(** ** The summarize command *)

Module SummarizeCommand.

Definition SUMMARIZE_MAX_VIDEO_DURATION : Z := 15 * 60.

Record SummaryType : Type := {
  name : string;
  description : string;
  prompt : string
}.

Definition SummaryTypes : list SummaryType :=
  [ {| name := "Long";
       description := "Longer summary, going in-depth and into detail";
       prompt := "a pretty long text summary that's very detailed and going in-depth, keep it around 4-6 sentences long" |};
    {| name := "Medium";
       description := "An average summary, only keeping important things and some details";
       prompt := "a bit smaller text summary, only keeping important things & some details, 2-4 sentences long" |};
    {| name := "Short";
       description := "Very short 1-2 sentence summary, only keeping important information";
       prompt := "a short text summary, maximum 1-2 sentences and only keeping important information" |};
    {| name := "Bullet points";
       description := "Text summarized in bullet points";
       prompt := "bullet points, and no full sentences" |} ].

(** What the command reads of a [YouTubeVideo] ([util/youtube.ts]). *)
Record YouTubeVideo : Type := {
  videoId : string;
  title : string;
  duration_seconds : Z        (* [duration.seconds] *)
}.

(** The collaborators of one run, each awaited call by what it settles
    to. [countChatMessageTokens] and [getPromptLength] come from
    [conversation/utils/length.ts]; [systemContent] is the text of the
    system message for a video and a summary type. *)
Record Collaborators : Type := {
  check : Thrown + bool;            (* [moderation.check(...)], its [blocked] *)
  message : Thrown + unit;          (* [moderation.message(...)] *)
  search : Thrown + list YouTubeVideo;
  send : Thrown + bool;             (* whether [send] answers a reply and not null *)
  awaitMessageComponent : list string → Thrown + string;
      (* [selection.values[0]], for the values of the menu *)
  subtitles : string → Thrown + list YouTubeSubtitle;
  openAI : list OpenAIChatMessage → Thrown + string;
      (* [raw.response.message.content] *)
  expenseForSummary : Thrown + unit;
  handle : Thrown → Thrown + unit;  (* [error.handle(...)] *)
  countChatMessageTokens : list OpenAIChatMessage → Z;
  systemContent : YouTubeVideo → SummaryType → string;
  getPromptLength : string → Z;
  message_of : JsError → string     (* [error.message] *)
}.

Inductive Call : Type :=
| Check (content : string)
| Message
| DeferReply
| Search (query : string)
| Send (values : list string)       (* the menu, by the values of its options *)
| AwaitMessageComponent
| Subtitles (url : string)
| StatusUpdate                      (* [statusUpdateResponse(...).send], not awaited *)
| OpenAI (messages : list OpenAIChatMessage)
| ExpenseForSummary (video : option YouTubeVideo) (prompt : SummaryPrompt) (tokens : Z)
| Handle (error : Thrown).

Inductive Response : Type :=
| ErrorResponse (message : string)
| ModerationMessage                 (* what [moderation.message] answers *)
| Handled (error : Thrown)          (* what [error.handle] answers *)
| FinalResponse (video : YouTubeVideo) (description : string)
    (fields : list (string * string)).

(** The search results the menu offers:
    [.filter(video => video.duration.seconds <= SUMMARIZE_MAX_VIDEO_DURATION)
     .slice(undefined, 25)] *)
Definition searchResults (found : list YouTubeVideo) : list YouTubeVideo :=
  take 25 (filter (λ video, duration_seconds video ≤ SUMMARIZE_MAX_VIDEO_DURATION) found).

(** [summaryName !== null ? SummaryTypes.find(s => s.name === summaryName)!
     : SummaryTypes[0]] *)
Definition summaryType (summaryName : option string) : option SummaryType :=
  match summaryName with
  | Some summaryName => List.find (λ s, String.eqb (name s) summaryName) SummaryTypes
  | None => head SummaryTypes
  end.

(** A read of [object.property] where [object] may be undefined. *)
Definition read {A B C : Type} (object : option A) (property : string) (get : A → B)
    : Run C B :=
  match object with
  | Some a => answer (get a)
  | None =>
      raise (JsThrown (TypeError
        ("Cannot read properties of undefined (reading '" +:+ property +:+ "')")))
  end.

(** [finalResponse(video, type, summary)] *)
Definition finalResponse (video : option YouTubeVideo) (type : option SummaryType)
    (summary : string) : Run Call Response :=
  do! type_name := read type "name" name in
  do! first_name := read (head SummaryTypes) "name" name in
  let fields :=
    if bool_decide (type_name ≠ first_name)
    then [("Summarized in", type_name)] else [] in
  do! video := read video "title" (λ video, video) in
  answer (FinalResponse video summary fields).

(** The call of [buildSummarizerPrompt] by [run]: the template of the
    system message reads [video.title] and then [type.prompt]. *)
Definition buildPrompt (bot : Collaborators) (video : option YouTubeVideo)
    (subs : list YouTubeSubtitle) (type : option SummaryType) : Run Call SummaryPrompt :=
  do! video := read video "title" (λ video, video) in
  do! type := read type "prompt" (λ type, type) in
  match buildSummarizerPrompt (countChatMessageTokens bot) (systemContent bot video type)
          subs with
  | inl error => raise (JsThrown error)
  | inr prompt => answer prompt
  end.

Definition noSubtitles (video_title : string) : Response :=
  ErrorResponse ("The video **" +:+ video_title +:+ "** doesn't have subtitles").

(** [error instanceof GPTGenerationError
     && error.options.data.type === GPTGenerationErrorType.Length] *)
Definition isLength (error : Thrown) : bool :=
  match error with
  | JsThrown error => generationTypeIs error Length
  | YoutubeTranscriptError _ => false
  end.

(** [error instanceof YoutubeTranscriptError
     || (error as Error).message.includes("YoutubeTranscript")] *)
Definition isTranscriptError (bot : Collaborators) (error : Thrown) : bool :=
  match error with
  | YoutubeTranscriptError _ => true
  | JsThrown error => includes "YoutubeTranscript" (message_of bot error)
  end.

(** The inner [try] of [run] and its [catch]: what happens to the video
    selected by [id]. *)
Definition summarize (bot : Collaborators) (results : list YouTubeVideo)
    (type : option SummaryType) (id : string) : Run Call (option Response) :=
  let video := List.find (λ v, String.eqb (videoId v) id) results in
  tryCatch
    (do! subs := call (Subtitles id) (subtitles bot id) in
     if bool_decide (length subs = 0%nat)
     then do! video_title := read video "title" title in
          answer (Some (noSubtitles video_title))
     else
       do! prompt := buildPrompt bot video subs type in
       do! _ := call StatusUpdate (inr tt) in
       do! summary := call (OpenAI (messages prompt)) (openAI bot (messages prompt)) in
       let tokens := getPromptLength bot summary in
       do! _ := call (ExpenseForSummary video prompt tokens) (expenseForSummary bot) in
       do! response := finalResponse video type summary in
       answer (Some response))
    (λ error,
       if isLength error
       then answer (Some (ErrorResponse "The video's subtitles are too large to summarize"))
       else if isTranscriptError bot error
       then do! video_title := read video "title" title in
            answer (Some (noSubtitles video_title))
       else do! _ := call (Handle error) (handle bot error) in
            answer (Some (Handled error))).

(** [run(interaction, db)], for the trimmed [query] and the [type] option. *)
Definition run (bot : Collaborators) (query : string) (summaryName : option string)
    : Run Call (option Response) :=
  if bool_decide (String.length query = 0%nat)
  then answer (Some (ErrorResponse "You specified an invalid YouTube query")) else
  do! blocked := call (Check query) (check bot) in
  if (blocked : bool)
  then do! _ := call Message (message bot) in answer (Some ModerationMessage) else
  do! _ := call DeferReply (inr tt) in
  let type := summaryType summaryName in
  do! found := call (Search query) (search bot) in
  let results := searchResults found in
  if bool_decide (length results = 0%nat)
  then answer (Some (ErrorResponse "There are no search results for the specified query"))
  else
  do! reply := call (Send (videoId <$> results)) (send bot) in
  if negb reply then answer None else
  tryCatch
    (do! id := call AwaitMessageComponent
                 (awaitMessageComponent bot (videoId <$> results)) in
     summarize bot results type id)
    (λ _, answer None).

(** The calls that come before the search. *)
Definition beforeSearch (c : Call) : bool :=
  match c with
  | Check _ | Message | DeferReply => true
  | _ => false
  end.

End SummarizeCommand.

(** Collaborators that all resolve: the search finds a short and a long
    video, the short one is chosen, and it has one subtitle. *)
Definition short_video : SummarizeCommand.YouTubeVideo :=
  {| SummarizeCommand.videoId := "short"; SummarizeCommand.title := "A talk";
     SummarizeCommand.duration_seconds := 600 |}.

Definition long_video : SummarizeCommand.YouTubeVideo :=
  {| SummarizeCommand.videoId := "long"; SummarizeCommand.title := "A film";
     SummarizeCommand.duration_seconds := 5400 |}.

Definition sample_bot : SummarizeCommand.Collaborators :=
  {| SummarizeCommand.check := inr false;
     SummarizeCommand.message := inr tt;
     SummarizeCommand.search := inr [long_video; short_video];
     SummarizeCommand.send := inr true;
     SummarizeCommand.awaitMessageComponent := λ values, inr (default "none" (head values));
     SummarizeCommand.subtitles := λ _, inr [early_subtitle];
     SummarizeCommand.openAI := λ _, inr "A summary.";
     SummarizeCommand.expenseForSummary := inr tt;
     SummarizeCommand.handle := λ _, inr tt;
     SummarizeCommand.countChatMessageTokens := sample_counter;
     SummarizeCommand.systemContent := λ _ _, sample_system;
     SummarizeCommand.getPromptLength := λ s, Z.of_nat (String.length s);
     SummarizeCommand.message_of := λ _, "failed" |}.

(** The same with a search that rejects. *)
Definition search_down (error : Thrown) : SummarizeCommand.Collaborators :=
  {| SummarizeCommand.check := inr false;
     SummarizeCommand.message := inr tt;
     SummarizeCommand.search := inl error;
     SummarizeCommand.send := inr true;
     SummarizeCommand.awaitMessageComponent := λ values, inr (default "none" (head values));
     SummarizeCommand.subtitles := λ _, inr [early_subtitle];
     SummarizeCommand.openAI := λ _, inr "A summary.";
     SummarizeCommand.expenseForSummary := inr tt;
     SummarizeCommand.handle := λ _, inr tt;
     SummarizeCommand.countChatMessageTokens := sample_counter;
     SummarizeCommand.systemContent := λ _ _, sample_system;
     SummarizeCommand.getPromptLength := λ s, Z.of_nat (String.length s);
     SummarizeCommand.message_of := λ _, "failed" |}.

(** ** The settings command *)

Module SettingsCommand.

(** A choice of a [ChoiceSettingsOption]. *)
Record SettingsChoice : Type := {
  choice_name : string;
  choice_value : JsValue;
  choice_premium : bool
}.

(** The classes of option that [run] tells apart, with what it reads of
    each ([db/managers/settings.ts]). *)
Inductive OptionClass : Type :=
| ChoiceSettingsOption (choices : list SettingsChoice)
| AutocompleteChoiceSettingsOption (valid : JsValue → bool)
| OtherSettingsOption.

Record SettingsOption : Type := {
  key : string;                 (* [option.key] *)
  name : string;                (* [option.data.name] *)
  class : OptionClass;
  settingsString : string       (* [settings.settingsString(option)] *)
}.

(** [a === b] for the values of a command option: strings, numbers and
    booleans. Objects are the same only as the same object, which a
    value received from Discord never is. *)
Definition strictEq (a b : JsValue) : bool :=
  match a, b with
  | VUndefined, VUndefined | VNull, VNull => true
  | VBool x, VBool y => bool_decide (x = y)
  | VNum x, VNum y => bool_decide (x = y)
  | VStr x, VStr y => bool_decide (x = y)
  | _, _ => false
  end.

(** [v == undefined] *)
Definition isNullish (v : JsValue) : bool :=
  match v with
  | VUndefined | VNull => true
  | _ => false
  end.

(** What one run is given. [param] is [interaction.options.get(key,
    false)], by its [value], [stored] is [settings.get(user, key)],
    [looseNe] is what [!=] answers between a stored value and a given
    one, and [display] is [option.display(bot, value)]. *)
Record Given : Type := {
  premium : bool;               (* [canUsePremiumFeatures({ user, guild })] *)
  options : list SettingsOption;    (* [settings.options(category)] *)
  param : string → option JsValue;
  stored : string → JsValue;
  looseNe : JsValue → JsValue → bool;
  apply : option Thrown;        (* what [settings.apply] rejects with, if it does *)
  fieldName : SettingsOption → string;
  display : SettingsOption → JsValue → string;
  branding_color : string
}.

Inductive Call : Type :=
| Apply (changes : gmap string JsValue).

Record Embed : Type := {
  color : string;
  fields : list (string * string);
  footer : option string
}.

Inductive Response : Type :=
| InvalidOption (option_name : string)
| PremiumOnly (choice : string) (option_name : string)
| Settings (embed : Embed).

(** [format(db, category, changes)] *)
Definition format (given : Given) (changes : gmap string JsValue) : Embed :=
  {| color := if bool_decide (0 < size changes)%nat then "Orange"
              else branding_color given;
     fields :=
       (λ opt,
          let key := settingsString opt in
          let wasModified := negb (isNullish (default VUndefined (changes !! key))) in
          let original := stored given key in
          let modified := default VUndefined (changes !! key) in
          (fieldName given opt,
           if wasModified then "*" +:+ display given opt modified +:+ "*"
           else display given opt original))
       <$> options given;
     footer :=
       if bool_decide (size changes = 0%nat)
       then Some "Change your settings, by specifying changes you want to make when running /settings."
       else None |}.

(** One turn of the [for] loop of [run]: a response to return at once,
    or the changes so far. *)
Definition visit (given : Given) (changes : gmap string JsValue) (opt : SettingsOption)
    : Response + gmap string JsValue :=
  match param given (key opt) with
  | None => inr changes
  | Some value =>
      if isNullish value then inr changes else
      let checked : option Response :=
        match class opt with
        | ChoiceSettingsOption choices =>
            match List.find (λ c, strictEq (choice_value c) value) choices with
            | None => Some (InvalidOption (name opt))
            | Some chosen =>
                if choice_premium chosen && negb (premium given)
                then Some (PremiumOnly (choice_name chosen) (name opt))
                else None
            end
        | AutocompleteChoiceSettingsOption valid =>
            if negb (valid value) then Some (InvalidOption (name opt)) else None
        | OtherSettingsOption => None
        end in
      match checked with
      | Some response => inl response
      | None =>
          let key := settingsString opt in
          if looseNe given (stored given key) value
          then inr (<[key := value]> changes)
          else inr changes
      end
  end.

(** The loop over the options of the category. *)
Fixpoint visitAll (given : Given) (changes : gmap string JsValue)
    (options : list SettingsOption) : Response + gmap string JsValue :=
  match options with
  | [] => inr changes
  | opt :: rest =>
      match visit given changes opt with
      | inl response => inl response
      | inr changes => visitAll given changes rest
      end
  end.

(** [run(interaction, { user, guild })] *)
Definition run (given : Given) : Run Call Response :=
  match visitAll given ∅ (options given) with
  | inl response => answer response
  | inr changes =>
      do! _ := (if bool_decide (0 < size changes)%nat
                then call (Apply changes)
                       (match apply given with Some error => inl error | None => inr tt end)
                else answer tt) in
      answer (Settings (format given changes))
  end.

(** Whether [run] lets a value given for an option pass: a choice of the
    option that is not restricted to Premium, or that the user may use; a
    value the option finds valid. *)
Definition allowed (given : Given) (opt : SettingsOption) (value : JsValue) : bool :=
  match class opt with
  | ChoiceSettingsOption choices =>
      match List.find (λ c, strictEq (choice_value c) value) choices with
      | Some chosen => negb (choice_premium chosen) || premium given
      | None => false
      end
  | AutocompleteChoiceSettingsOption valid => valid value
  | OtherSettingsOption => true
  end.

(** The options a value was given for. *)
Definition specified (given : Given) (opt : SettingsOption) (value : JsValue) : Prop :=
  opt ∈ options given ∧ param given (key opt) = Some value ∧ isNullish value = false.

End SettingsCommand.

(** A category with a model choice, restricted to Premium, and a free
    text option; a user without Premium. *)
Definition model_option : SettingsCommand.SettingsOption :=
  {| SettingsCommand.key := "model"; SettingsCommand.name := "Model";
     SettingsCommand.class :=
       SettingsCommand.ChoiceSettingsOption
         [ {| SettingsCommand.choice_name := "ChatGPT";
              SettingsCommand.choice_value := VStr "chatgpt";
              SettingsCommand.choice_premium := false |};
           {| SettingsCommand.choice_name := "GPT-4";
              SettingsCommand.choice_value := VStr "gpt-4";
              SettingsCommand.choice_premium := true |} ];
     SettingsCommand.settingsString := "chat:model" |}.

Definition language_option : SettingsCommand.SettingsOption :=
  {| SettingsCommand.key := "language"; SettingsCommand.name := "Language";
     SettingsCommand.class := SettingsCommand.OtherSettingsOption;
     SettingsCommand.settingsString := "general:language" |}.

Definition sample_given (params : string → option JsValue) : SettingsCommand.Given :=
  {| SettingsCommand.premium := false;
     SettingsCommand.options := [language_option; model_option];
     SettingsCommand.param := params;
     SettingsCommand.stored := λ _, VStr "default";
     SettingsCommand.looseNe := λ a b, negb (SettingsCommand.strictEq a b);
     SettingsCommand.apply := None;
     SettingsCommand.fieldName := SettingsCommand.name;
     SettingsCommand.display := λ _ value, if value is VStr s then s else "?";
     SettingsCommand.branding_color := "Blue" |}.

(** The user gives a language and nothing else. *)
Definition language_only (key : string) : option JsValue :=
  if String.eqb key "language" then Some (VStr "fr") else None.

(** ** The dall-e command *)

Module DallECommand.

(** What the command reads of the result of [turing.generateImages]. *)
Record TuringImageResult : Type := {
  images : list ImageBuffer;      (* [image.buffer] of each image *)
  duration : Z
}.

(** The collaborators of one run, each awaited call by what it settles
    to; [data_code] is [error.options.data.code] of a [GPTAPIError]. *)
Record Collaborators : Type := {
  create : Thrown + unit;             (* [conversation.create(interaction.user)] *)
  checkImagePrompt : Thrown + bool;   (* its [blocked] *)
  message : Thrown + unit;            (* [moderation.message(...)] *)
  generateImages : Thrown + TuringImageResult;
  incrementInteractions : Thrown + unit;
  changeImageMetric : Thrown + unit;
  expenseForDallEImage : Thrown + unit;
  handle : Thrown → Thrown + unit;    (* [error.handle(...)] *)
  data_code : JsError → option Z
}.

Inductive Call : Type :=
| Create
| DeferReply
| CheckImagePrompt (content : string)
| Message
| GenerateImages (prompt : string) (count : Z)
| IncrementInteractions
| ChangeImageMetric (count : Z)
| ExpenseForDallEImage (count : Z)
| Handle (error : Thrown).

Inductive Response : Type :=
| ModerationMessage                 (* what [moderation.message] answers *)
| Images (prompt : string) (duration : Z) (attachments : list (string * ImageBuffer))
| BlockedByOpenAI                   (* the [ErrorResponse] about OpenAI's filters *)
| Handled (error : Thrown).         (* what [error.handle] answers *)

(** [error instanceof GPTAPIError && error.options.data.code === 400] *)
Definition isBadRequest (bot : Collaborators) (error : Thrown) : bool :=
  match error with
  | JsThrown error => isGPTAPIError error && bool_decide (data_code bot error = Some 400)
  | YoutubeTranscriptError _ => false
  end.

(** [new AttachmentBuilder(image.buffer).setName(`result-${index}.png`)]
    for each image. *)
Definition attachments (result : TuringImageResult) : list (string * ImageBuffer) :=
  imap (λ index image, ("result-" +:+ pretty.pretty index +:+ ".png", image))
    (images result).

(** The [try] block of [run]. *)
Definition deliver (bot : Collaborators) (prompt : string) (count : Z)
    : Run Call Response :=
  do! result := call (GenerateImages prompt count) (generateImages bot) in
  do! _ := call IncrementInteractions (incrementInteractions bot) in
  do! _ := call (ChangeImageMetric count) (changeImageMetric bot) in
  do! _ := call (ExpenseForDallEImage count) (expenseForDallEImage bot) in
  answer (Images prompt (duration result) (attachments result)).

(** Its [catch] block. *)
Definition report (bot : Collaborators) (error : Thrown) : Run Call Response :=
  if isBadRequest bot error then answer BlockedByOpenAI
  else do! _ := call (Handle error) (handle bot error) in
       answer (Handled error).

(** [run(interaction, db)], for the options [prompt] and [count]. *)
Definition run (bot : Collaborators) (prompt : string) (count : option Z)
    : Run Call Response :=
  do! _ := call Create (create bot) in
  let count := default 1 count in
  do! _ := call DeferReply (inr tt) in
  do! blocked := call (CheckImagePrompt prompt) (checkImagePrompt bot) in
  if (blocked : bool)
  then do! _ := call Message (message bot) in answer ModerationMessage else
  tryCatch (deliver bot prompt count) (report bot).

(** The calls of the [try] block, in order. *)
Definition deliverCalls (prompt : string) (count : Z) : list Call :=
  [GenerateImages prompt count; IncrementInteractions; ChangeImageMetric count;
   ExpenseForDallEImage count].

(** The calls that generate, count and charge. *)
Definition costs (c : Call) : bool :=
  match c with
  | GenerateImages _ _ | IncrementInteractions | ChangeImageMetric _
  | ExpenseForDallEImage _ => true
  | _ => false
  end.

(** One of the calls of the [try] block rejected with [error]. *)
Definition rejected (bot : Collaborators) (error : Thrown) : Prop :=
  generateImages bot = inl error
  ∨ incrementInteractions bot = inl error
  ∨ changeImageMetric bot = inl error
  ∨ expenseForDallEImage bot = inl error.

Definition isHandle (c : Call) : bool :=
  match c with Handle _ => true | _ => false end.

Definition isExpense (c : Call) : bool :=
  match c with ExpenseForDallEImage _ => true | _ => false end.

End DallECommand.

(** Collaborators that all resolve, with two images generated. *)
Definition sample_painter : DallECommand.Collaborators :=
  {| DallECommand.create := inr tt;
     DallECommand.checkImagePrompt := inr false;
     DallECommand.message := inr tt;
     DallECommand.generateImages :=
       inr {| DallECommand.images := [[Byte.x89; Byte.x50]; [Byte.x4e; Byte.x47]];
              DallECommand.duration := 2500 |};
     DallECommand.incrementInteractions := inr tt;
     DallECommand.changeImageMetric := inr tt;
     DallECommand.expenseForDallEImage := inr tt;
     DallECommand.handle := λ _, inr tt;
     DallECommand.data_code := λ _, None |}.

(** A generation that OpenAI refuses, and the code of the refusal. *)
Definition refused : Thrown := JsThrown (GPTAPIError "invalid_request_error" false).

Definition refusing_painter : DallECommand.Collaborators :=
  {| DallECommand.create := inr tt;
     DallECommand.checkImagePrompt := inr false;
     DallECommand.message := inr tt;
     DallECommand.generateImages := inl refused;
     DallECommand.incrementInteractions := inr tt;
     DallECommand.changeImageMetric := inr tt;
     DallECommand.expenseForDallEImage := inr tt;
     DallECommand.handle := λ _, inr tt;
     DallECommand.data_code := λ _, Some 400 |}.

(** * The bot *)

Module Bot.

(** [BotSetupStep]: [check] and [execute] by what they settle to when
    they are called. *)
Record BotSetupStep : Type := {
  name : string;
  check : option (Thrown + bool);
  execute : Thrown + unit
}.

Inductive Call : Type :=
| Check (name : string)                 (* [step.check()] *)
| Execute (name : string)               (* [step.execute()] *)
| Debug (name : string) (index total : nat)
    (* [logger.debug(`Executed configuration step ...`)] *)
| Failed (name : string) (error : Thrown)
    (* [logger.error(`Failed to execute configuration step ...`)] *)
| Stopped                               (* [logger.debug("Stopped.")] *)
| Stopping                              (* [logger.error("An unexpected error occurred, ...")] *)
| Exit (code : Z)                       (* [process.exit(code)] *)
| EvalOnManager (type : string) (since : Z).

(** [stop(code)]: a line of log, and the process exits. *)
Definition stop (code : Z) : list Call :=
  (if bool_decide (code = 0) then [Stopped] else [Stopping]) ++ [Exit code].

(** The body of the [try] in the loop of [setup], for the step at
    [index]. *)
Definition configure (dev : bool) (total index : nat) (step : BotSetupStep)
    : Run Call unit :=
  do! check := (match check step with
                | Some settles => call (Check (name step)) settles
                | None => answer true
                end) in
  do! _ := (if (check : bool) then call (Execute (name step)) (execute step)
            else answer tt) in
  if dev then call (Debug (name step) (index + 1) total) (inr tt) else answer tt.

(** The loop over the steps, from the step at [index]: the calls made,
    and the code the process has exited with, if it has. A failed step
    stops the process, and with it the loop. *)
Fixpoint configureAll (dev : bool) (total index : nat) (steps : list BotSetupStep)
    : list Call * option Z :=
  match steps with
  | [] => ([], None)
  | step :: rest =>
      match configure dev total index step with
      | (calls, inr _) =>
          (calls ++ (configureAll dev total (S index) rest).1,
           (configureAll dev total (S index) rest).2)
      | (calls, inl error) =>
          (calls ++ Failed (name step) error :: stop 1, Some 1)
      end
  end.

(** The steps of [setup]. [id] is [this.data.id] and [executes] is what
    the [execute] of each step settles to. *)
Definition steps (id : Z) (executes : string → Thrown + unit) : list BotSetupStep :=
  [ {| name := "Stable Horde"; check := None; execute := executes "Stable Horde" |};
    {| name := "Replicate"; check := None; execute := executes "Replicate" |};
    {| name := "Supabase database"; check := None;
       execute := executes "Supabase database" |};
    {| name := "Conversation sessions"; check := None;
       execute := executes "Conversation sessions" |};
    {| name := "Scheduled tasks"; check := None; execute := executes "Scheduled tasks" |};
    {| name := "Load Discord commands"; check := None;
       execute := executes "Load Discord commands" |};
    {| name := "Load Discord interactions"; check := None;
       execute := executes "Load Discord interactions" |};
    {| name := "Register Discord commands";
       check := Some (inr (bool_decide (id = 0)));
       execute := executes "Register Discord commands" |};
    {| name := "Load Discord events"; check := None;
       execute := executes "Load Discord events" |} ].

(** The handler of the [ready] event in [setup]. *)
Definition onReady (dev : bool) (id : Z) (executes : string → Thrown + unit)
    : list Call * option Z :=
  configureAll dev (length (steps id executes)) 0 (steps id executes).

(** [BotStatus] *)
Record BotStatus : Type := {
  type : string;
  since : Z;
  notice : option string
}.

(** [status()] *)
Definition status (bot_since : Z) : BotStatus :=
  {| type := "operational"; since := bot_since; notice := None |}.

(** [changeStatus(status)], on the status the manager holds;
    [evalOnManager] is taken to resolve, [now] is the clock. *)
Definition changeStatus (bot_since now : Z) (request : string * option string)
    (manager : BotStatus) : BotStatus * list Call :=
  if String.eqb (type (status bot_since)) request.1 then (manager, [])
  else ({| type := request.1; since := now; notice := request.2 |},
        [EvalOnManager request.1 now]).

(** A run of [changeStatus] calls, one after the other, each with the
    clock at its time. *)
Definition changeStatuses (bot_since : Z) (requests : list (Z * (string * option string)))
    (manager : BotStatus) : BotStatus * list Call :=
  foldl (λ state request,
           let next := changeStatus bot_since request.1 request.2 state.1 in
           (next.1, state.2 ++ next.2))
    (manager, []) requests.

(** Whether the [execute] of a step is called, and the error a step
    fails with. *)
Definition passes (step : BotSetupStep) : bool :=
  match check step with
  | Some (inr passed) => passed
  | Some (inl _) => false
  | None => true
  end.

Definition fails (step : BotSetupStep) : option Thrown :=
  match check step with
  | Some (inl error) => Some error
  | Some (inr false) => None
  | _ => match execute step with inl error => Some error | inr _ => None end
  end.

(** The steps whose [execute] was called, by name. *)
Definition executed (calls : list Call) : list string :=
  omap (λ c, match c with Execute name => Some name | _ => None end) calls.

End Bot.

(** A setup in which every step resolves, and one in which the database
    cannot be reached. *)
Definition all_up (name : string) : Thrown + unit := inr tt.

Definition database_down (name : string) : Thrown + unit :=
  if String.eqb name "Supabase database" then inl (JsThrown (Error "unreachable"))
  else inr tt.

(** * Properties *)

(** ** The monad, the [catch] block and the loop *)

(** The [catch] block on the last try: the lock is released and the error,
    or its wrapping, is thrown. *)
Lemma catch_block_exhausted tries error w :
  S tries = CONVERSATION_ERROR_RETRY_MAX_TRIES →
  catch_block tries error w =
    (Throw (if recognised error then error else GPTGenerationError Other (Some error)),
     unlocked w).
Proof.
  intros Hmax. unfold catch_block. rewrite Hmax, Nat.eqb_refl.
  unfold recognised, bind, modify, throw; simpl.
  by destruct (isGPTGenerationError error || isGPTAPIError error).
Qed.

(** Before the last try, a session-unusable error is thrown afresh, the
    lock left as it is. *)
Lemma catch_block_session tries error w :
  S tries ≠ CONVERSATION_ERROR_RETRY_MAX_TRIES →
  sessionUnusable error = true →
  catch_block tries error w =
    (Throw (GPTGenerationError SessionUnusable None),
     logged w [EWarn (S tries) error; ENotice (S tries)]).
Proof.
  intros Hmax Hs. unfold catch_block.
  apply Nat.eqb_neq in Hmax. rewrite Hmax, Hs.
  unfold bind, throw, emit, logged; simpl. by rewrite <- app_assoc.
Qed.

(** Before the last try, an error that lets the loop go on costs a
    warning, a notice and, when it is rate-limited, a wait. *)
Lemma catch_block_continues tries error w :
  S tries ≠ CONVERSATION_ERROR_RETRY_MAX_TRIES →
  continues error = true →
  catch_block tries error w =
    (Return (S tries),
     logged w ([EWarn (S tries) error; ENotice (S tries)]
               ++ (if rateLimited error
                   then [ESleep ((Z.of_nat (S tries) * 5 + 5) * 1000)] else []))).
Proof.
  intros Hmax Hc. unfold catch_block.
  apply Nat.eqb_neq in Hmax. rewrite Hmax.
  unfold continues in Hc. apply andb_true_iff in Hc as [Hs Hc].
  apply negb_true_iff in Hs. rewrite Hs.
  destruct (rateLimited error) eqn:Hr.
  - unfold bind, throw, emit, logged, ret; simpl. by rewrite <- !app_assoc.
  - simpl in Hc. apply negb_true_iff, orb_false_iff in Hc as [Ht He].
    rewrite Ht, He. unfold bind, throw, emit, logged, ret, skip; simpl.
    by rewrite <- !app_assoc.
Qed.

(** Before the last try, a thrown-through or empty/length error releases
    the lock and is thrown as it is. *)
Lemma catch_block_fatal tries error w :
  S tries ≠ CONVERSATION_ERROR_RETRY_MAX_TRIES →
  sessionUnusable error = false → rateLimited error = false →
  thrownThrough error || emptyOrLength error = true →
  catch_block tries error w =
    (Throw error, unlocked (logged w [EWarn (S tries) error; ENotice (S tries)])).
Proof.
  intros Hmax Hs Hr Hf. unfold catch_block.
  apply Nat.eqb_neq in Hmax. rewrite Hmax, Hs, Hr.
  destruct (thrownThrough error); simpl in Hf; [|rewrite Hf];
    unfold bind, throw, emit, logged, unlocked, modify; simpl; by rewrite <- !app_assoc.
Qed.

(** One run of the loop body. *)
Lemma attempts_unfold env fuel tries w :
  attempts env (S fuel) tries w =
    match transport env (calls w) with
    | inr data => (Return (tries, Some data), called w)
    | inl error =>
        match catch_block tries error (called w) with
        | (Return t, w') =>
            if (t <? CONVERSATION_ERROR_RETRY_MAX_TRIES)%nat && generating (conv w')
            then attempts env fuel t w'
            else (Return (t, None), w')
        | (Throw e, w') => (Throw e, w')
        | (OutOfFuel, w') => (OutOfFuel, w')
        end
    end.
Proof.
  unfold called, obs. unfold attempts at 1; fold attempts.
  unfold bind, call_transport, ret, this. simpl.
  destruct (transport env (calls w)) as [error|data]; simpl.
  - destruct (catch_block tries error _) as [[t| |] w']; try reflexivity.
    simpl. rewrite andb_true_r. by destruct (_ && _).
  - by rewrite andb_false_r.
Qed.

(** How an error fares in the [catch] block before the last try. *)
Lemma error_cases error :
  sessionUnusable error = true
  ∨ continues error = true
  ∨ (sessionUnusable error = false ∧ rateLimited error = false
     ∧ thrownThrough error || emptyOrLength error = true).
Proof.
  unfold continues.
  destruct (sessionUnusable error), (rateLimited error),
    (thrownThrough error || emptyOrLength error); simpl; auto.
Qed.

(** A failure that lets the loop go on leads to the next run of the body. *)
Lemma attempts_continue env fuel tries w error :
  transport env (calls w) = inl error →
  continues error = true →
  (S tries < CONVERSATION_ERROR_RETRY_MAX_TRIES)%nat →
  generating (conv w) = true →
  attempts env (S fuel) tries w =
    attempts env fuel (S tries)
      (logged (called w)
         ([EWarn (S tries) error; ENotice (S tries)]
          ++ (if rateLimited error
              then [ESleep ((Z.of_nat (S tries) * 5 + 5) * 1000)] else []))).
Proof.
  intros Ht Hc Hlt Hg. rewrite attempts_unfold, Ht.
  rewrite catch_block_continues by (done || lia).
  apply Nat.ltb_lt in Hlt. rewrite Hlt. simpl. by rewrite Hg.
Qed.

(** A continuing failure leaves the conversation alone, adds loop calls
    only, and uses up one transport call. *)
Lemma attempts_prefix env n : ∀ fuel tries w,
  (∀ k, (k < n)%nat → ∃ error, transport env (calls w + k) = inl error ∧ continues error = true) →
  (tries + n < CONVERSATION_ERROR_RETRY_MAX_TRIES)%nat →
  generating (conv w) = true →
  ∃ w', attempts env (n + fuel) tries w = attempts env fuel (tries + n) w'
        ∧ conv w' = conv w ∧ calls w' = (calls w + n)%nat
        ∧ ∃ l, log w' = log w ++ l
               ∧ Forall (λ o, seen o = conv w ∧ loop_event (event o) = true) l.
Proof.
  induction n as [|n IH]; intros fuel tries w Hfail Hlt Hg.
  - exists w. rewrite !Nat.add_0_r. repeat split; try done.
    exists []. by rewrite app_nil_r.
  - destruct (Hfail 0%nat) as (error & Ht & Hc); [lia|].
    rewrite Nat.add_0_r in Ht.
    change (S n + fuel)%nat with (S (n + fuel)).
    rewrite (attempts_continue _ _ _ _ error) by (done || lia).
    set (w1 := logged (called w) _).
    destruct (IH fuel (S tries) w1) as (w' & Heq & Hconv & Hcalls & l & Hlog & Hl).
    + intros k Hk. destruct (Hfail (S k)) as (e & He & Hce); [lia|].
      exists e. split; [|done]. subst w1; simpl.
      by replace (S (calls w + k)) with (calls w + S k)%nat by lia.
    + lia.
    + done.
    + exists w'. replace (tries + S n)%nat with (S tries + n)%nat by lia.
      split; [done|]. split; [done|]. split; [subst w1; simpl in *; lia|].
      eexists. split.
      * rewrite Hlog. subst w1. simpl. rewrite <- !app_assoc. reflexivity.
      * apply Forall_app; split; [by repeat constructor|].
        apply Forall_app; split; [|done].
        repeat (apply Forall_cons; split; [done|]).
        destruct (rateLimited error); simpl; by repeat constructor.
Qed.

(** The loop never runs out of fuel, keeps the lock while it runs, and
    leaves only through a result, an unlocking throw, or the
    session-unusable throw. *)
Lemma attempts_inv env fuel : ∀ tries w,
  generating (conv w) = true →
  calls w = tries →
  (tries < CONVERSATION_ERROR_RETRY_MAX_TRIES)%nat →
  (CONVERSATION_ERROR_RETRY_MAX_TRIES - tries ≤ fuel)%nat →
  ∃ l, log (attempts env fuel tries w).2 = log w ++ l
       ∧ Forall (λ o, seen o = conv w ∧ loop_event (event o) = true) l
       ∧ match (attempts env fuel tries w).1 with
         | Return (t, d) =>
             conv (attempts env fuel tries w).2 = conv w ∧ is_Some d
         | Throw e =>
             conv (attempts env fuel tries w).2 = set_generating false (conv w)
             ∨ (conv (attempts env fuel tries w).2 = conv w
                ∧ e = GPTGenerationError SessionUnusable None
                ∧ ∃ k error, transport env k = inl error
                             ∧ sessionUnusable error = true
                             ∧ (S k < CONVERSATION_ERROR_RETRY_MAX_TRIES)%nat)
         | OutOfFuel => False
         end.
Proof.
  induction fuel as [|fuel IH]; intros tries w Hg Hcalls Hlt Hfuel; [lia|].
  rewrite attempts_unfold.
  destruct (transport env (calls w)) as [error|data] eqn:Ht.
  2:{ exists [obs (conv w) (ETransport (calls w))]. simpl.
      split; [done|]. split; [by repeat constructor|]. by eauto. }
  destruct (decide (S tries = CONVERSATION_ERROR_RETRY_MAX_TRIES)) as [Hmax|Hmax].
  { rewrite catch_block_exhausted by done. simpl.
    exists [obs (conv w) (ETransport (calls w))].
    split; [done|]. split; [by repeat constructor|]. by left. }
  destruct (error_cases error) as [Hs|[Hc|(Hs & Hr & Hf)]].
  - rewrite catch_block_session by done. simpl.
    eexists. split; [by rewrite <- app_assoc|].
    split; [by repeat constructor|]. right. split; [done|]. split; [done|].
    exists (calls w), error. split; [done|]. split; [done|]. lia.
  - rewrite catch_block_continues by done.
    assert (S tries < CONVERSATION_ERROR_RETRY_MAX_TRIES)%nat as Hlt' by lia.
    apply Nat.ltb_lt in Hlt' as Hb. rewrite Hb. simpl. rewrite Hg.
    set (w1 := logged (called w) _).
    destruct (IH (S tries) w1) as (l & Hlog & Hl & Hout); [done|subst w1; simpl; lia|done|lia|].
    eexists. split; [rewrite Hlog; subst w1; simpl; rewrite <- !app_assoc; reflexivity|].
    split; [|done].
    apply Forall_app; split; [by repeat constructor|].
    apply Forall_app; split; [|done].
    repeat (apply Forall_cons; split; [done|]).
    destruct (rateLimited error); simpl; by repeat constructor.
  - rewrite catch_block_fatal by done. simpl.
    eexists. split; [by rewrite <- app_assoc|].
    split; [by repeat constructor|]. by left.
Qed.

Section Generate.
Context {codec : ImageCodec}.

(** A call that passes the two guards is the loop, started with the lock
    held, followed by what comes after the loop. *)
Lemma generate_start env c :
  active c = true → generating c = false →
  generate env (world c) =
    match attempts env CONVERSATION_ERROR_RETRY_MAX_TRIES 0 (start c) with
    | (Return (tries, data), w) => after_loop env tries data w
    | (Throw e, w) => (Throw e, w)
    | (OutOfFuel, w) => (OutOfFuel, w)
    end.
Proof.
  intros Ha Hg. unfold generate, world, start, after_loop.
  unfold bind at 1. unfold this at 1. simpl. rewrite Ha, Hg. simpl.
  unfold bind at 1. unfold modify at 1. simpl.
  unfold bind at 1. unfold this at 1. simpl.
  unfold bind at 1.
  destruct (timer c) as [t|]; simpl.
  - unfold bind at 1. destruct (attempts _ _ _ _) as [[[tries data]| |] w]; reflexivity.
  - unfold bind at 1. destruct (attempts _ _ _ _) as [[[tries data]| |] w]; reflexivity.
Qed.

(** A call that one of the two guards stops throws at once: nothing is
    called and nothing changes. *)
Lemma generate_guarded env w :
  active (conv w) = false ∨ generating (conv w) = true →
  ∃ e, generate env w = (Throw e, w).
Proof.
  intros Hguard. unfold generate. unfold bind at 1. unfold this at 1. simpl.
  destruct (active (conv w)); simpl; [|by eexists].
  destruct Hguard as [?|Hgen]; [done|]. rewrite Hgen. by eexists.
Qed.

(** [applyResetTimer] makes timer calls only and changes the timer fields
    only. *)
Lemma applyResetTimer_run env w :
  ∃ c' l, applyResetTimer env w = (Return tt, {| conv := c'; log := log w ++ l; calls := calls w |})
          ∧ same_but_timer (conv w) c'
          ∧ Forall (λ o, same_but_timer (conv w) (seen o) ∧ timer_event (event o) = true) l.
Proof.
  unfold applyResetTimer, bind, this, emit, modify, skip, ret. simpl.
  destruct (timer (conv w)); simpl; eexists _, _;
    (split; [rewrite <- ?app_assoc; reflexivity|]);
    (split; [done|]); by repeat constructor.
Qed.

(** [complete] either makes all its calls, none of the awaited ones
    rejecting, or stops at the first awaited call that rejects. *)
Lemma complete_cases env tries data w :
  ∃ l, log (complete env tries data w).2 = log w ++ l
       ∧ match (complete env tries data w).1 with
         | Return res =>
             res = <["tries" := VNum (Z.of_nat tries)]> (interaction env data)
             ∧ l = completion_log env data (conv w)
             ∧ conv (complete env tries data w).2 = completed env data (conv w)
             ∧ Forall (λ o, rejects env (event o) = None)
                 (completion_awaited env data (conv w))
         | Throw e =>
             (∃ rest, completion_awaited env data (conv w) = l ++ rest)
             ∧ (conv (complete env tries data w).2 = conv w
                ∨ conv (complete env tries data w).2 = pushed env data (conv w))
         | OutOfFuel => False
         end.
Proof.
  unfold complete, completion_log, completion_awaited, completed, pushToHistory,
    cooldown_use, await, bind, this, emit, modify, skip, ret, throw, isOwner,
    armed_duration, pushed. simpl.
  destruct (rejects env (EModeration _)) eqn:Hm; simpl.
  { eexists. split; [reflexivity|]. split; [eexists; reflexivity|by left]. }
  destruct (rejects env (EBroadcast _ _ _)) eqn:Hb; simpl.
  { eexists. split; [by rewrite <- app_assoc|]. split; [eexists; reflexivity|by right]. }
  destruct (rejects env (EUpdateConversation _)) eqn:Hu; simpl.
  { eexists. split; [by rewrite <- !app_assoc|]. split; [eexists; reflexivity|by right]. }
  destruct (dev env); simpl.
  - destruct (existsb (String.eqb (user_id (conv w))) (owner env)); simpl;
      (eexists; split; [by rewrite <- !app_assoc|]);
      repeat split; by repeat constructor.
  - destruct (rejects env (EUpdateInteraction _)) eqn:Hi; simpl.
    { eexists. split; [by rewrite <- !app_assoc|]. split; [by exists []|by right]. }
    destruct (existsb (String.eqb (user_id (conv w))) (owner env)); simpl;
      (eexists; split; [by rewrite <- !app_assoc|]);
      repeat split; by repeat constructor.
Qed.

(** The calls [complete] awaits are made with the lock as the conversation
    has it, and none of them is a loop, timer or cool-down call. *)
Lemma completion_awaited_seen env data c :
  Forall (λ o, (seen o = c ∨ seen o = pushed env data c)
               ∧ loop_event (event o) = false
               ∧ timer_event (event o) = false
               ∧ isCooldownUse (event o) = false)
    (completion_awaited env data c).
Proof.
  unfold completion_awaited.
  apply Forall_app. split; [|destruct (negb _)]; repeat constructor; by auto.
Qed.

End Generate.

Section Shape.
Context {codec : ImageCodec}.

Lemma after_loop_timer env tries d w :
  ∃ c_t l_t,
    after_loop env tries (Some d) w
    = complete env tries d {| conv := c_t; log := log w ++ l_t; calls := calls w |}
    ∧ same_but_timer (set_generating false (conv w)) c_t
    ∧ Forall (λ o, same_but_timer (set_generating false (conv w)) (seen o)
                   ∧ timer_event (event o) = true) l_t.
Proof.
  unfold after_loop, bind at 1, modify at 1. unfold bind at 1.
  destruct (applyResetTimer_run env
              {| conv := set_generating false (conv w); log := log w; calls := calls w |})
    as (c_t & l_t & -> & Hframe & Hlt).
  by exists c_t, l_t.
Qed.

(** What follows the loop: the lock is released, the timer is set again,
    and [complete] runs. *)
Lemma after_loop_cases env tries d w :
  ∃ c_t l_t l,
    log (after_loop env tries (Some d) w).2 = log w ++ l_t ++ l
    ∧ same_but_timer (set_generating false (conv w)) c_t
    ∧ Forall (λ o, same_but_timer (set_generating false (conv w)) (seen o)
                   ∧ timer_event (event o) = true) l_t
    ∧ match (after_loop env tries (Some d) w).1 with
      | Return res =>
          res = <["tries" := VNum (Z.of_nat tries)]> (interaction env d)
          ∧ l = completion_log env d c_t
          ∧ conv (after_loop env tries (Some d) w).2 = completed env d c_t
          ∧ Forall (λ o, rejects env (event o) = None) (completion_awaited env d c_t)
      | Throw e =>
          (∃ rest, completion_awaited env d c_t = l ++ rest)
          ∧ (conv (after_loop env tries (Some d) w).2 = c_t
             ∨ conv (after_loop env tries (Some d) w).2 = pushed env d c_t)
      | OutOfFuel => False
      end.
Proof.
  destruct (after_loop_timer env tries d w) as (c_t & l_t & -> & Hframe & Hlt).
  destruct (complete_cases env tries d
              {| conv := c_t; log := log w ++ l_t; calls := calls w |})
    as (l & Hlog & Hout).
  exists c_t, l_t, l. simpl in *.
  split; [by rewrite Hlog, <- app_assoc|]. by split.
Qed.

(** The shape of every call that passes the two guards. *)
Lemma generate_shape env c :
  active c = true → generating c = false →
  ∃ l_loop,
    Forall (λ o, seen o = set_generating true c ∧ loop_event (event o) = true) l_loop
    ∧ (((∃ e, (generate env (world c)).1 = Throw e)
        ∧ conv (generate env (world c)).2 = set_generating false c
        ∧ log (generate env (world c)).2 = log (start c) ++ l_loop)
       ∨ ((generate env (world c)).1 = Throw (GPTGenerationError SessionUnusable None)
          ∧ conv (generate env (world c)).2 = set_generating true c
          ∧ log (generate env (world c)).2 = log (start c) ++ l_loop
          ∧ ∃ k error, transport env k = inl error
                       ∧ sessionUnusable error = true
                       ∧ (S k < CONVERSATION_ERROR_RETRY_MAX_TRIES)%nat)
       ∨ (∃ c_t l_timer l,
            log (generate env (world c)).2 = log (start c) ++ l_loop ++ l_timer ++ l
            ∧ same_but_timer (set_generating false c) c_t
            ∧ Forall (λ o, same_but_timer (set_generating false c) (seen o)
                           ∧ timer_event (event o) = true) l_timer
            ∧ ∃ tries data,
                match (generate env (world c)).1 with
                | Return res =>
                    res = <["tries" := VNum (Z.of_nat tries)]> (interaction env data)
                    ∧ l = completion_log env data c_t
                    ∧ conv (generate env (world c)).2 = completed env data c_t
                    ∧ Forall (λ o, rejects env (event o) = None)
                        (completion_awaited env data c_t)
                | Throw e =>
                    (∃ rest, completion_awaited env data c_t = l ++ rest)
                    ∧ (conv (generate env (world c)).2 = c_t
                       ∨ conv (generate env (world c)).2 = pushed env data c_t)
                | OutOfFuel => False
                end)).
Proof.
  intros Ha Hg. rewrite generate_start by done.
  destruct (attempts_inv env CONVERSATION_ERROR_RETRY_MAX_TRIES 0 (start c))
    as (l & Hlog & Hl & Hout); [done|done|unfold CONVERSATION_ERROR_RETRY_MAX_TRIES; lia|lia|].
  exists l. split; [done|].
  destruct (attempts _ _ _ _) as [[[tries data]| |] w]; simpl in *; [| |done].
  - destruct Hout as [Hconv [d ->]]. right. right.
    destruct (after_loop_cases env tries d w) as (c_t & l_t & l' & Hlog' & Hframe & Hlt & Hout).
    rewrite Hconv in *. exists c_t, l_t, l'.
    split; [by rewrite Hlog', Hlog, <- !app_assoc|]. split; [exact Hframe|].
    split; [exact Hlt|]. by exists tries, d.
  - destruct Hout as [->|(-> & -> & Hk)]; [left|right; left]; by eauto.
Qed.

End Shape.

(** ** Failures that let the loop go on *)

Lemma fails_first_spec env n :
  fails_first env n = true →
  ∀ k, (k < n)%nat → ∃ error, transport env k = inl error ∧ continues error = true.
Proof.
  unfold fails_first. rewrite forallb_forall. intros Hall k Hk.
  specialize (Hall k). rewrite in_seq in Hall.
  destruct (transport env k) as [error|data]; [|by (discriminate Hall; lia)].
  exists error. split; [done|]. apply Hall. lia.
Qed.

(** After [n] such failures the loop is at its next attempt, with the
    lock held and only loop calls logged. *)
Lemma attempts_nth env c n :
  (n < CONVERSATION_ERROR_RETRY_MAX_TRIES)%nat →
  fails_first env n = true →
  ∃ w, attempts env CONVERSATION_ERROR_RETRY_MAX_TRIES 0 (start c)
       = attempts env (CONVERSATION_ERROR_RETRY_MAX_TRIES - n) n w
       ∧ conv w = set_generating true c ∧ calls w = n
       ∧ ∃ l, log w = log (start c) ++ l
              ∧ Forall (λ o, seen o = set_generating true c
                             ∧ loop_event (event o) = true) l.
Proof.
  intros Hn Hfail.
  destruct (attempts_prefix env n (CONVERSATION_ERROR_RETRY_MAX_TRIES - n) 0 (start c))
    as (w & Heq & Hconv & Hcalls & Hlog); [|lia|done|].
  { intros k Hk. by apply fails_first_spec with (n := n). }
  exists w. replace (n + (CONVERSATION_ERROR_RETRY_MAX_TRIES - n))%nat
    with CONVERSATION_ERROR_RETRY_MAX_TRIES in Heq by lia.
  by rewrite Heq.
Qed.

(** A rate-limit class error never marks the session unusable. *)
Lemma rateLimited_not_sessionUnusable error :
  rateLimited error = true → sessionUnusable error = false.
Proof.
  destruct error as [type cause|id serverSide|message|message]; try done.
  unfold rateLimited, sessionUnusable. simpl. rewrite !orb_false_r.
  intros [Hid|Hid]%orb_true_iff; apply String.eqb_eq in Hid; by subst id.
Qed.

(** Every part of a call only ever adds to the log. *)
Lemma catch_block_extends tries error w :
  ∃ l, log (catch_block tries error w).2 = log w ++ l.
Proof.
  destruct (decide (S tries = CONVERSATION_ERROR_RETRY_MAX_TRIES)) as [Hmax|Hmax].
  { rewrite catch_block_exhausted by done. exists []. simpl. by rewrite app_nil_r. }
  destruct (error_cases error) as [Hs|[Hc|(Hs & Hr & Hf)]].
  - rewrite catch_block_session by done. by eexists.
  - rewrite catch_block_continues by done. by eexists.
  - rewrite catch_block_fatal by done. by eexists.
Qed.

Lemma attempts_extends env fuel : ∀ tries w,
  ∃ l, log (attempts env fuel tries w).2 = log w ++ l.
Proof.
  induction fuel as [|fuel IH]; intros tries w.
  { exists []. simpl. by rewrite app_nil_r. }
  rewrite attempts_unfold.
  destruct (transport env (calls w)) as [error|data]; [|by eexists].
  destruct (catch_block_extends tries error (called w)) as (l & Hl).
  destruct (catch_block tries error (called w)) as [[t| |] w']; simpl in Hl.
  - destruct (_ && _).
    + destruct (IH t w') as (l' & Hl'). rewrite Hl', Hl. simpl.
      rewrite <- !app_assoc. by eexists.
    + simpl. rewrite Hl. simpl. rewrite <- app_assoc. by eexists.
  - simpl. rewrite Hl. simpl. rewrite <- app_assoc. by eexists.
  - simpl. rewrite Hl. simpl. rewrite <- app_assoc. by eexists.
Qed.

Section RetryLoop.
Context {codec : ImageCodec}.

Lemma after_loop_extends env tries data w :
  ∃ l, log (after_loop env tries data w).2 = log w ++ l.
Proof.
  destruct data as [d|].
  - destruct (after_loop_cases env tries d w) as (c_t & l_t & l & -> & _). by eexists.
  - unfold after_loop, bind at 1, modify at 1. unfold bind at 1.
    destruct (applyResetTimer_run env
                {| conv := set_generating false (conv w); log := log w; calls := calls w |})
      as (c_t & l_t & -> & _). by eexists.
Qed.

(** A throw inside the loop is the outcome of the call. *)
Lemma generate_throw env c error w :
  active c = true → generating c = false →
  attempts env CONVERSATION_ERROR_RETRY_MAX_TRIES 0 (start c) = (Throw error, w) →
  generate env (world c) = (Throw error, w).
Proof. intros Ha Hg Hloop. rewrite generate_start by done. by rewrite Hloop. Qed.

(** C3. When the tenth attempt of a call fails, after nine failures that
    let the loop go on, [generate] makes no further attempt and throws:
    the error itself when it is a generation error or an API error, and
    otherwise an [Other] generation error with the error as its cause.
    The lock is released before the throw. *)
Theorem retries_exhausted env c error :
  active c = true → generating c = false →
  fails_first env 9 = true →
  transport env 9%nat = inl error →
  (generate env (world c)).1
    = Throw (if recognised error then error
             else GPTGenerationError Other (Some error))
  ∧ calls (generate env (world c)).2 = CONVERSATION_ERROR_RETRY_MAX_TRIES
  ∧ generating (conv (generate env (world c)).2) = false.
Proof.
  intros Ha Hg Hfail Hlast.
  destruct (attempts_nth env c 9) as (w & Heq & Hconv & Hcalls & _);
    [unfold CONVERSATION_ERROR_RETRY_MAX_TRIES; lia|done|].
  change (CONVERSATION_ERROR_RETRY_MAX_TRIES - 9)%nat with 1%nat in Heq.
  rewrite attempts_unfold, Hcalls, Hlast in Heq.
  rewrite catch_block_exhausted in Heq by done.
  rewrite (generate_throw _ _ _ _ Ha Hg Heq). simpl.
  by rewrite Hcalls.
Qed.

(** C1, as the code has it. A failure that marks the session unusable,
    coming after failures that let the loop go on, makes [generate] throw
    a fresh [SessionUnusable] error at once on each of the attempts 1 to
    9. On the tenth attempt the test for exhausted retries comes first:
    the error itself is thrown again, unchanged. *)
Theorem session_unusable_precedence env c n error :
  active c = true → generating c = false →
  (n < CONVERSATION_ERROR_RETRY_MAX_TRIES)%nat →
  fails_first env n = true →
  transport env n = inl error →
  sessionUnusable error = true →
  calls (generate env (world c)).2 = S n
  ∧ (generate env (world c)).1
    = Throw (if (S n <? CONVERSATION_ERROR_RETRY_MAX_TRIES)%nat
             then GPTGenerationError SessionUnusable None
             else error).
Proof.
  intros Ha Hg Hn Hfail Hlast Hs.
  destruct (attempts_nth env c n) as (w & Heq & Hconv & Hcalls & _); [done|done|].
  destruct (CONVERSATION_ERROR_RETRY_MAX_TRIES - n)%nat as [|fuel] eqn:Hfuel; [lia|].
  rewrite attempts_unfold, Hcalls, Hlast in Heq.
  destruct (decide (S n = CONVERSATION_ERROR_RETRY_MAX_TRIES)) as [Hmax|Hmax].
  - rewrite catch_block_exhausted in Heq by done.
    rewrite (generate_throw _ _ _ _ Ha Hg Heq). simpl. rewrite Hcalls.
    split; [done|]. rewrite Hmax, Nat.ltb_irrefl.
    unfold recognised, sessionUnusable in *.
    by destruct (isGPTGenerationError error), (isGPTAPIError error).
  - rewrite catch_block_session in Heq by done.
    rewrite (generate_throw _ _ _ _ Ha Hg Heq). simpl. rewrite Hcalls.
    split; [done|].
    assert (S n < CONVERSATION_ERROR_RETRY_MAX_TRIES)%nat as Hlt by lia.
    apply Nat.ltb_lt in Hlt. by rewrite Hlt.
Qed.

(** C4. When the N-th attempt (N from 1 to 9) fails with a rate-limit
    class error, after failures that let the loop go on, the call logs a
    warning and a notice, waits (5 + 5 N) seconds, and only then makes
    attempt N + 1. *)
Theorem backoff_delay env c n error :
  active c = true → generating c = false →
  (S n < CONVERSATION_ERROR_RETRY_MAX_TRIES)%nat →
  fails_first env n = true →
  transport env n = inl error →
  rateLimited error = true →
  ∃ before after,
    event <$> log (generate env (world c)).2
    = before
      ++ [ETransport n; EWarn (S n) error; ENotice (S n);
          ESleep ((5 + 5 * Z.of_nat (S n)) * 1000);
          ETransport (S n)]
      ++ after.
Proof.
  intros Ha Hg Hn Hfail Hlast Hr.
  pose proof (rateLimited_not_sessionUnusable _ Hr) as Hs.
  destruct (attempts_nth env c n) as (w & Heq & Hconv & Hcalls & l & Hlog & _);
    [lia|done|].
  destruct (CONVERSATION_ERROR_RETRY_MAX_TRIES - n)%nat as [|[|fuel]] eqn:Hfuel; [lia|lia|].
  rewrite (attempts_continue _ _ _ _ error) in Heq;
    [|by rewrite Hcalls|by unfold continues; rewrite Hs, Hr|lia|by rewrite Hconv].
  rewrite Hr in Heq. set (w1 := logged (called w) _) in Heq.
  rewrite attempts_unfold in Heq.
  assert (∃ l', log (attempts env CONVERSATION_ERROR_RETRY_MAX_TRIES 0 (start c)).2
                = log (called w1) ++ l') as (l' & Hl').
  { rewrite Heq. destruct (transport env (calls w1)) as [e|d]; [|exists []; simpl; by rewrite app_nil_r].
    destruct (catch_block_extends (S n) e (called w1)) as (l1 & Hl1).
    destruct (catch_block (S n) e (called w1)) as [[t| |] w2]; simpl in Hl1;
      try (by (eexists; exact Hl1)).
    destruct (_ && _); [|by (eexists; exact Hl1)].
    destruct (attempts_extends env fuel t w2) as (l2 & Hl2).
    rewrite Hl2, Hl1, <- app_assoc. by eexists. }
  assert (∃ l'', log (generate env (world c)).2 = log (called w1) ++ l'') as (l'' & Hl'').
  { rewrite generate_start by done.
    destruct (attempts env CONVERSATION_ERROR_RETRY_MAX_TRIES 0 (start c))
      as [[[t d]| |] w3]; simpl in Hl'; try (by eexists).
    destruct (after_loop_extends env t d w3) as (l3 & Hl3).
    rewrite Hl3, Hl', <- app_assoc. by eexists. }
  exists (event <$> log w), (event <$> l'').
  rewrite Hl''. subst w1. simpl. rewrite Hcalls.
  rewrite !fmap_app. simpl. rewrite <- !app_assoc. simpl.
  by replace ((Z.of_nat (S n) * 5 + 5) * 1000) with ((5 + 5 * Z.of_nat (S n)) * 1000) by lia.
Qed.

End RetryLoop.

Lemma retries_exhausted_witness :
  (generate (codec := plainCodec)
     (sample_env (fails_with 9 (Error "socket hang up") (Error "socket hang up")) plain_model)
     (world ready)).1
  = Throw (GPTGenerationError Other (Some (Error "socket hang up")))
  ∧ calls (generate (codec := plainCodec)
       (sample_env (fails_with 9 (Error "socket hang up") (Error "socket hang up")) plain_model)
       (world ready)).2 = 10%nat
  ∧ generating (conv (generate (codec := plainCodec)
       (sample_env (fails_with 9 (Error "socket hang up") (Error "socket hang up")) plain_model)
       (world ready)).2) = false.
Proof.
  apply (retries_exhausted (codec := plainCodec)
           (sample_env (fails_with 9 (Error "socket hang up") (Error "socket hang up")) plain_model)
           ready (Error "socket hang up")); reflexivity.
Defined.

(** On the third attempt, out of credit: the session is given up. *)
Lemma session_unusable_precedence_witness :
  calls (generate (codec := plainCodec)
           (sample_env (fails_with 2 rate_limit insufficient_quota) plain_model)
           (world ready)).2 = 3%nat
  ∧ (generate (codec := plainCodec)
       (sample_env (fails_with 2 rate_limit insufficient_quota) plain_model)
       (world ready)).1
    = Throw (GPTGenerationError SessionUnusable None).
Proof.
  apply (session_unusable_precedence (codec := plainCodec)
           (sample_env (fails_with 2 rate_limit insufficient_quota) plain_model)
           ready 2 insufficient_quota); try reflexivity.
  unfold CONVERSATION_ERROR_RETRY_MAX_TRIES; lia.
Defined.

(** C1 as the specification words it fails on the tenth attempt: nine
    plain failures and then an out-of-credit API error make [generate]
    throw that API error, not a [SessionUnusable] generation error. *)
Lemma session_unusable_last_attempt :
  fails_first (sample_env (fails_with 9 (Error "socket hang up") insufficient_quota) plain_model) 9 = true
  ∧ transport (sample_env (fails_with 9 (Error "socket hang up") insufficient_quota) plain_model) 9
    = inl insufficient_quota
  ∧ sessionUnusable insufficient_quota = true
  ∧ (generate (codec := plainCodec)
       (sample_env (fails_with 9 (Error "socket hang up") insufficient_quota) plain_model)
       (world ready)).1
    = Throw insufficient_quota
  ∧ (generate (codec := plainCodec)
       (sample_env (fails_with 9 (Error "socket hang up") insufficient_quota) plain_model)
       (world ready)).1
    ≠ Throw (GPTGenerationError SessionUnusable None).
Proof.
  repeat split; try reflexivity. vm_compute. discriminate.
Qed.

(** Rate-limited on the second attempt: ten seconds more than the base. *)
Lemma backoff_delay_witness :
  ∃ before after,
    event <$> log (generate (codec := plainCodec)
                     (sample_env (succeeds_after 2 rate_limit) plain_model)
                     (world ready)).2
    = before
      ++ [ETransport 1; EWarn 2 rate_limit; ENotice 2; ESleep 15000; ETransport 2]
      ++ after.
Proof.
  apply (backoff_delay (codec := plainCodec)
           (sample_env (succeeds_after 2 rate_limit) plain_model)
           ready 1 rate_limit); try reflexivity.
  unfold CONVERSATION_ERROR_RETRY_MAX_TRIES; lia.
Defined.

(** ** Busy conversations *)

(** The lock is only ever held by an active conversation. *)
Lemma lock_implies_active c :
  reachable c → generating c = true → active c = true.
Proof.
  induction 1 as [user|c c' Hreach IH Hstep]; [done|].
  destruct Hstep; simpl; try done.
Qed.

(** [applyResetTimer] is a timer step. *)
Lemma same_but_timer_step c c' : same_but_timer c c' → step c c'.
Proof.
  intros (Hid & Ha & Hg & Hh & Hcd & Httl).
  replace c' with (set_timer (updatedAt c') (timer c') c); [apply step_timer|].
  destruct c, c'; simpl in *. by subst.
Qed.

(** C5. On a conversation whose [generating] flag is set (any
    conversation that the assignments of the class can lead to),
    [generate] throws [Busy] straight away: no call is made and the
    conversation, its history included, is left as it was. *)
Theorem busy_when_generating {codec : ImageCodec} env w :
  reachable (conv w) → generating (conv w) = true →
  generate env w = (Throw (GPTGenerationError Busy None), w)
  ∧ history (conv (generate env w).2) = history (conv w).
Proof.
  intros Hreach Hg.
  assert (generate env w = (Throw (GPTGenerationError Busy None), w)) as ->; [|done].
  pose proof (lock_implies_active _ Hreach Hg) as Ha.
  unfold generate, bind, this, throw. simpl. by rewrite Ha, Hg.
Qed.

Lemma in_flight_reachable : reachable in_flight.
Proof.
  apply reachable_step with (c := ready).
  - apply reachable_step with (c := new_Conversation "user-1").
    + apply reachable_new.
    + apply step_init.
  - by apply step_lock.
Defined.

Lemma busy_when_generating_witness :
  generate (codec := plainCodec) (sample_env (succeeds_after 0 rate_limit) plain_model)
    (world in_flight)
  = (Throw (GPTGenerationError Busy None), world in_flight)
  ∧ history (conv (generate (codec := plainCodec)
                     (sample_env (succeeds_after 0 rate_limit) plain_model)
                     (world in_flight)).2)
    = history (conv (world in_flight)).
Proof.
  apply (busy_when_generating (codec := plainCodec)
           (sample_env (succeeds_after 0 rate_limit) plain_model) (world in_flight)).
  - exact in_flight_reachable.
  - reflexivity.
Defined.

(** ** The lock during a call *)

(** What [applyResetTimer] comes to. *)
Lemma applyResetTimer_eq (env : Env) (w : World) :
  applyResetTimer env w
  = (Return tt,
     {| conv := rearmed env (conv w);
        log := log w ++ rearm_log env (conv w);
        calls := calls w |}).
Proof.
  unfold rearmed, rearm_log.
  unfold applyResetTimer, bind, this, emit, modify, skip, ret, getResetTime, obs.
  destruct (timer (conv w)) eqn:Ht; unfold set_timer; simpl; rewrite ?Ht;
    replace (now env + ttl (conv w) - now env) with (ttl (conv w)) by lia;
    by rewrite <- ?app_assoc.
Qed.



Section Lock.
Context {codec : ImageCodec}.





End Lock.


(** The steps cover [generate]: from a reachable conversation, the
    conversation a call ends with is reachable, and so is the conversation
    as every collaborator called on the way has seen it. *)
Lemma generate_reachable {codec : ImageCodec} env c :
  reachable c →
  reachable (conv (generate env (world c)).2)
  ∧ Forall (λ o, reachable (seen o)) (log (generate env (world c)).2).
Proof.
  intros Hreach.
  destruct (active c) eqn:Ha.
  2:{ unfold generate, bind, this, throw. simpl. rewrite Ha. simpl. by split. }
  destruct (generating c) eqn:Hg.
  { unfold generate, bind, this, throw. simpl. rewrite Ha, Hg. simpl. by split. }
  assert (reachable (set_generating true c)) as Hlock
    by (by eapply reachable_step; [|apply step_lock]).
  assert (reachable (set_generating false c)) as Hunlock
    by (eapply reachable_step; [exact Hlock|]; apply (step_unlock (set_generating true c))).
  destruct (generate_shape env c Ha Hg) as (l_loop & Hloop & Hout).
  assert (Forall (λ o, reachable (seen o)) (log (start c) ++ l_loop)) as Hduring.
  { apply Forall_app. split.
    - unfold start. simpl. destruct (timer c); by repeat constructor.
    - eapply Forall_impl; [exact Hloop|]. by intros o [-> _]. }
  destruct Hout as [(_ & Hconv & Hlog)|[(_ & Hconv & Hlog & _)
                   |(c_t & l_timer & l & Hlog & Hframe & Htimer & tries & data & Hout)]].
  - by rewrite Hconv, Hlog.
  - by rewrite Hconv, Hlog.
  - assert (reachable c_t) as Ht
      by (eapply reachable_step; [exact Hunlock|]; by apply same_but_timer_step).
    assert (reachable (pushed env data c_t)) as Hp
      by (eapply reachable_step; [exact Ht|]; apply step_history).
    assert (Forall (λ o, reachable (seen o)) (completion_awaited env data c_t)) as Haw.
    { eapply Forall_impl; [apply completion_awaited_seen|]. by intros o ([->| ->] & _). }
    assert (Forall (λ o, reachable (seen o)) l_timer) as Htimer'.
    { eapply Forall_impl; [exact Htimer|]. intros o [Hf _].
      eapply reachable_step; [exact Hunlock|]. by apply same_but_timer_step. }
    rewrite Hlog, app_assoc.
    destruct (generate env (world c)) as [[res|e|] w]; simpl in *; [| |done].
    + destruct Hout as (-> & -> & Hconv & _). split.
      * rewrite Hconv. unfold completed. destruct (negb _); [|done].
        eapply reachable_step; [exact Hp|]. apply step_cooldown.
      * apply Forall_app; split; [done|]. apply Forall_app; split; [done|].
        unfold completion_log. apply Forall_app; split; [done|].
        destruct (negb _); by repeat constructor.
    + destruct Hout as ([rest Hrest] & Hconv). split.
      * by destruct Hconv as [->| ->].
      * rewrite Hrest in Haw. apply Forall_app in Haw as [Haw _].
        apply Forall_app; split; [done|]. by apply Forall_app.
Qed.


(** ** Persisting and cooling down *)

Section Completion.
Context {codec : ImageCodec}.

Lemma completion_log_prefix env data c :
  ∃ rest, completion_log env data c
          = [ obs c (EModeration (get "text" (result_output data)));
              obs (pushed env data c)
                (EBroadcast (user_id (pushed env data c))
                   (stripForBroadcast <$> history (pushed env data c)) (cluster_id env));
              obs (pushed env data c)
                (EUpdateConversation (historyUpdate (history (pushed env data c)))) ]
            ++ rest
          ∧ Forall (λ o, seen o = pushed env data c) rest.
Proof.
  unfold completion_log, completion_awaited. eexists.
  split; [by rewrite <- app_assoc|].
  apply Forall_app. split; destruct (negb _); by repeat constructor.
Qed.

(** No cool-down is armed inside the loop, by the timer, or by an awaited
    call. *)
Lemma loop_log_no_cooldown c l_loop :
  Forall (λ o, seen o = set_generating true c ∧ loop_event (event o) = true) l_loop →
  Forall (λ o, isCooldownUse (event o) = false) (log (start c) ++ l_loop).
Proof.
  intros Hloop. apply Forall_app. split.
  - unfold start. simpl. destruct (timer c); by repeat constructor.
  - eapply Forall_impl; [exact Hloop|]. intros o [_ Hev]. by destruct (event o).
Qed.

Lemma timer_log_no_cooldown c l_timer :
  Forall (λ o, same_but_timer c (seen o) ∧ timer_event (event o) = true) l_timer →
  Forall (λ o, isCooldownUse (event o) = false) l_timer.
Proof.
  intros Htimer. eapply Forall_impl; [exact Htimer|].
  intros o [_ Hev]. by destruct (event o).
Qed.

Lemma awaited_no_cooldown env data c :
  Forall (λ o, isCooldownUse (event o) = false) (completion_awaited env data c).
Proof.
  eapply Forall_impl; [apply completion_awaited_seen|]. by intros o (_ & _ & _ & Hev).
Qed.

(** C6. In every call of [generate] that returns, the new interaction is
    appended to the history in memory and the database update carrying
    the reduced history, old entries and new one, is then issued and
    resolves, before the cool-down is armed: no cool-down is armed before
    the update, the history was already extended when the update was
    issued, and after it come only the interaction row (outside
    development mode) and the cool-down (for a user who is not an
    owner). *)
Theorem persisted_before_cooldown env c res :
  (generate env (world c)).1 = Return res →
  ∃ data before write after,
    log (generate env (world c)).2 = before ++ write :: after
    ∧ Forall (λ o, isCooldownUse (event o) = false) before
    ∧ history (seen write) = history c ++ [interaction env data]
    ∧ event write
      = EUpdateConversation
          {[ "history" :=
               VArr (VObj <$> ((entryToDatabase <$> history c)
                               ++ [ {[ "id" := get "id" (result_output data);
                                       "input" := result_input data;
                                       "output" := responseMessageToDatabase
                                                     (result_output data) ]} ])) ]}
    ∧ rejects env (event write) = None
    ∧ event <$> after
      = (if dev env then []
         else [EUpdateInteraction (interactionRow env (interaction env data))])
        ++ (if isOwner env c then []
            else [ECooldownUse (cooldownTime (subscription env)
                                  (options_time (cooldown c)) (model env))])
    ∧ history (conv (generate env (world c)).2) = history c ++ [interaction env data].
Proof.
  intros Hret.
  destruct (active c) eqn:Ha; [destruct (generating c) eqn:Hg|].
  { destruct (generate_guarded env (world c)) as (e & He); [by right|].
    by rewrite He in Hret. }
  2:{ destruct (generate_guarded env (world c)) as (e & He); [by left|].
      by rewrite He in Hret. }

  destruct (generate_shape env c Ha Hg) as (l_loop & Hloop & Hout).
  pose proof (loop_log_no_cooldown c l_loop Hloop) as Hpre.
  destruct Hout as [([e He] & _)|[(He & _)
                   |(c_t & l_timer & l & Hlog & Hframe & Htimer & tries & data & Hout)]];
    [by rewrite He in Hret|by rewrite He in Hret|].
  rewrite Hret in Hout. destruct Hout as (_ & -> & Hconv & Hres).
  pose proof (timer_log_no_cooldown _ _ Htimer) as Ht.
  destruct Hframe as (Hid & _ & _ & Hh & Hcd & _). simpl in Hid, Hh, Hcd.
  assert (isOwner env (pushed env data c_t) = isOwner env c) as Hown
    by (unfold isOwner; simpl; by rewrite Hid).
  exists data,
    ((log (start c) ++ l_loop) ++ l_timer
     ++ [obs c_t (EModeration (get "text" (result_output data)));
         obs (pushed env data c_t)
           (EBroadcast (user_id (pushed env data c_t))
              (stripForBroadcast <$> history (pushed env data c_t)) (cluster_id env))]),
    (obs (pushed env data c_t)
       (EUpdateConversation (historyUpdate (history (pushed env data c_t))))),
    ((if negb (dev env)
      then [obs (pushed env data c_t)
              (EUpdateInteraction (interactionRow env (interaction env data)))]
      else [])
     ++ (if negb (isOwner env (pushed env data c_t))
         then [obs (pushed env data c_t)
                 (ECooldownUse (armed_duration env (pushed env data c_t)))]
         else [])).
  split; [|split; [|split; [|split; [|split; [|split]]]]].
  - rewrite Hlog. unfold completion_log, completion_awaited. simpl.
    by rewrite <- !app_assoc.
  - apply Forall_app. split; [done|]. apply Forall_app. split; [done|].
    by repeat constructor.
  - simpl. by rewrite Hh.
  - simpl. unfold historyUpdate. rewrite Hh, fmap_app. reflexivity.
  - rewrite Forall_lookup in Hres. apply (Hres 2%nat). reflexivity.
  - rewrite Hown. unfold armed_duration. simpl. rewrite Hcd.
    destruct (dev env), (isOwner env c); reflexivity.
  - rewrite Hconv. unfold completed, pushed. destruct (negb _); simpl; by rewrite Hh.
Qed.

(** The code's duration, by cases. *)
Lemma cooldownTime_cases subscription optionsTime model :
  cooldownTime subscription optionsTime model
  = Math_round
      (Number_mul
         match premium_time model with
         | Some t => Number_mul t (Number_of_Z 1)
         | None => Number_mul optionsTime (CONVERSATION_COOLDOWN_MODIFIER subscription)
         end
         (cooldown_multiplier model)).
Proof.
  unfold cooldownTime, premium_time, cooldown_multiplier, hasPremiumCooldown.
  destruct (model_cooldown model) as [[t m]|]; simpl; [|done].
  destruct (truthyNumber t && _) eqn:Hpremium; [|done].
  apply andb_true_iff in Hpremium as [Ht _].
  by destruct t as [t|].
Qed.

(** C8, as the code has it. A call that returns arms the cool-down once,
    as its last step, unless the user is on the owner list, in which case
    it does not arm it at all. The duration is [Math.round] of the
    binary64 product, taken from left to right, of a base, a modifier and
    the model's multiplier (1 when missing, zero or NaN): for a
    premium-only model with a duration of its own the base is that
    duration and the modifier is 1; for every other model the base is the
    conversation's configured duration and the modifier is that of the
    subscription tier. *)
Theorem cooldown_armed env c res :
  active c = true → generating c = false →
  (generate env (world c)).1 = Return res →
  let ms :=
    Math_round
      (Number_mul
         match premium_time (model env) with
         | Some t => Number_mul t (Number_of_Z 1)
         | None => Number_mul (options_time (cooldown c))
                     (CONVERSATION_COOLDOWN_MODIFIER (subscription env))
         end
         (cooldown_multiplier (model env))) in
  if isOwner env c
  then Forall (λ o, isCooldownUse (event o) = false) (log (generate env (world c)).2)
       ∧ state (cooldown (conv (generate env (world c)).2)) = state (cooldown c)
  else (∃ l o, log (generate env (world c)).2 = l ++ [o]
               ∧ Forall (λ o, isCooldownUse (event o) = false) l
               ∧ event o = ECooldownUse ms)
       ∧ state (cooldown (conv (generate env (world c)).2)) = Some (now env, ms).
Proof.
  intros Ha Hg Hret ms.
  destruct (generate_shape env c Ha Hg) as (l_loop & Hloop & Hout).
  pose proof (loop_log_no_cooldown c l_loop Hloop) as Hpre.
  destruct Hout as [([e He] & _)|[(He & _)
                   |(c_t & l_timer & l & Hlog & Hframe & Htimer & tries & data & Hout)]];
    [by rewrite He in Hret|by rewrite He in Hret|].
  rewrite Hret in Hout. destruct Hout as (_ & -> & Hconv & _).
  pose proof (timer_log_no_cooldown _ _ Htimer) as Ht.
  pose proof (awaited_no_cooldown env data c_t) as Haw.
  destruct Hframe as (Hid & _ & _ & _ & Hcd & _). simpl in Hid, Hcd.
  assert (isOwner env (pushed env data c_t) = isOwner env c) as Hown
    by (unfold isOwner; simpl; by rewrite Hid).
  assert (armed_duration env (pushed env data c_t) = ms) as Hms.
  { unfold armed_duration. simpl. rewrite Hcd. apply cooldownTime_cases. }
  rewrite Hconv, Hlog. unfold completed, completion_log. rewrite Hown, Hms.
  destruct (isOwner env c); simpl.
  - split; [|by rewrite Hcd].
    rewrite app_nil_r, app_assoc.
    apply Forall_app. split; [done|]. by apply Forall_app.
  - split; [|done].
    exists ((log (start c) ++ l_loop) ++ l_timer ++ completion_awaited env data c_t),
           (obs (pushed env data c_t) (ECooldownUse ms)).
    split; [by rewrite <- !app_assoc|]. split; [|done].
    apply Forall_app. split; [done|]. by apply Forall_app.
Qed.

End Completion.

Lemma persisted_before_cooldown_witness :
  ∃ data before write after,
    log (generate (codec := plainCodec)
           (sample_env (succeeds_after 0 rate_limit) plain_model) (world ready)).2
    = before ++ write :: after
    ∧ Forall (λ o, isCooldownUse (event o) = false) before
    ∧ history (seen write)
      = history ready
        ++ [interaction (sample_env (succeeds_after 0 rate_limit) plain_model) data]
    ∧ event write
      = EUpdateConversation
          {[ "history" :=
               VArr (VObj <$> ((entryToDatabase (codec := plainCodec) <$> history ready)
                               ++ [ {[ "id" := get "id" (result_output data);
                                       "input" := result_input data;
                                       "output" := responseMessageToDatabase
                                                     (codec := plainCodec)
                                                     (result_output data) ]} ])) ]}
    ∧ rejects (sample_env (succeeds_after 0 rate_limit) plain_model) (event write) = None
    ∧ event <$> after
      = (if dev (sample_env (succeeds_after 0 rate_limit) plain_model) then []
         else [EUpdateInteraction
                 (interactionRow (codec := plainCodec)
                    (sample_env (succeeds_after 0 rate_limit) plain_model)
                    (interaction (sample_env (succeeds_after 0 rate_limit) plain_model)
                       data))])
        ++ (if isOwner (sample_env (succeeds_after 0 rate_limit) plain_model) ready then []
            else [ECooldownUse
                    (cooldownTime
                       (subscription (sample_env (succeeds_after 0 rate_limit) plain_model))
                       (options_time (cooldown ready))
                       (model (sample_env (succeeds_after 0 rate_limit) plain_model)))])
    ∧ history (conv (generate (codec := plainCodec)
                       (sample_env (succeeds_after 0 rate_limit) plain_model)
                       (world ready)).2)
      = history ready
        ++ [interaction (sample_env (succeeds_after 0 rate_limit) plain_model) data].
Proof.
  apply (persisted_before_cooldown (codec := plainCodec)
           (sample_env (succeeds_after 0 rate_limit) plain_model) ready
           (<["tries" := VNum 0]>
              (interaction (sample_env (succeeds_after 0 rate_limit) plain_model)
                 sample_data))).
  reflexivity.
Defined.

(** A voter on the plain model: half of 110 s. *)
Lemma cooldown_armed_witness :
  (∃ l o, log (generate (codec := plainCodec)
                 (sample_env (succeeds_after 0 rate_limit) plain_model) (world ready)).2
          = l ++ [o]
          ∧ Forall (λ o, isCooldownUse (event o) = false) l
          ∧ event o = ECooldownUse (Number_of_Z 55000))
  ∧ state (cooldown (conv (generate (codec := plainCodec)
                             (sample_env (succeeds_after 0 rate_limit) plain_model)
                             (world ready)).2))
    = Some (1700000000000, Number_of_Z 55000).
Proof.
  exact (cooldown_armed (codec := plainCodec)
           (sample_env (succeeds_after 0 rate_limit) plain_model) ready
           (<["tries" := VNum 0]>
              (interaction (sample_env (succeeds_after 0 rate_limit) plain_model) sample_data))
           eq_refl eq_refl eq_refl).
Defined.

(** C8 as the specification words it fails on a premium-only model that
    has both a duration of its own (30 s) and a multiplier (2): the
    cool-down armed is 60 s, not the model's 30 s. *)
Lemma premium_cooldown_is_multiplied :
  model_cooldown premium_model ≫= time = Some (Number_of_Z 30000)
  ∧ spec_cooldownTime Voter (options_time (cooldown ready)) premium_model
    = Number_of_Z 30000
  ∧ last (event <$> log (generate (codec := plainCodec)
                           (sample_env (succeeds_after 0 rate_limit) premium_model)
                           (world ready)).2)
    = Some (ECooldownUse (Number_of_Z 60000))
  ∧ last (event <$> log (generate (codec := plainCodec)
                           (sample_env (succeeds_after 0 rate_limit) premium_model)
                           (world ready)).2)
    ≠ Some (ECooldownUse
              (spec_cooldownTime Voter (options_time (cooldown ready)) premium_model)).
Proof.
  repeat split; try (vm_compute; reflexivity). vm_compute. discriminate.
Qed.

(** The product is the binary64 one: for a user with Premium of their own
    (0.09) on a model with the multiplier 0.205 the code computes
    110000 * 0.09 * 0.205 as a value just below 2029.5 and arms 2029 ms,
    where the exact product, 2029.5, would round to 2030. *)
Example cooldown_rounds_the_binary64_product :
  cooldownTime UserPremium CONVERSATION_DEFAULT_COOLDOWN_time scaled_model
  = Number_of_Z 2029.
Proof. vm_compute. reflexivity. Qed.

(** ** What is stored and what is broadcast *)

Section Storage.
Context {codec : ImageCodec} (Hrev : reversible codec).

Lemma image_roundtrip (i : JsValue) :
  isOutputImage i = true →
  VObj (<["data" :=
            dataLoad (get "data"
                        (VObj (<["data" := dataToString (get "data" i)]> (spread i))))]>
          (spread (VObj (<["data" := dataToString (get "data" i)]> (spread i)))))
  = i.
Proof.
  destruct i as [| | | | | | | |o]; try discriminate. simpl.
  destruct (o !! "data") as [[| | | | |b| | |]|] eqn:Hdata; try discriminate.
  intros _. unfold field. rewrite lookup_insert_eq, Hdata. simpl.
  rewrite Hrev, insert_insert_eq. f_equal. by apply insert_id.
Qed.

Lemma images_roundtrip (l : list JsValue) :
  forallb isOutputImage l = true →
  (λ i, VObj (<["data" := dataLoad (get "data" i)]> (spread i)))
    <$> ((λ i, VObj (<["data" := dataToString (get "data" i)]> (spread i))) <$> l)
  = l.
Proof.
  induction l as [|i l IH]; [done|]. simpl.
  intros [Hi Hl]%andb_true_iff. f_equal; [by apply image_roundtrip|by apply IH].
Qed.

Lemma field_insert (k : string) (v : JsValue) (o : JsObject) :
  field k (<[k := v]> o) = v.
Proof. unfold field. by rewrite lookup_insert_eq. Qed.

Lemma field_insert_ne (k k' : string) (v : JsValue) (o : JsObject) :
  k ≠ k' → field k' (<[k := v]> o) = field k' o.
Proof. intros Hk. unfold field. by rewrite lookup_insert_ne. Qed.

(** Overwriting [images] with [undefined] changes no reading of a message
    that had no images. *)
Lemma field_images_undefined (k : string) (o : JsObject) :
  field "images" o = VUndefined →
  field k (<["images" := VUndefined]> o) = field k o.
Proof.
  intros Himages. destruct (decide (k = "images")) as [->|Hk].
  - by rewrite field_insert.
  - by rewrite field_insert_ne.
Qed.

(** Reading any property of a message after a save and a load gives what
    the message had. *)
Lemma message_roundtrip (message : JsValue) (k : string) :
  isResponseMessage message = true →
  get k (databaseToResponseMessage (responseMessageToDatabase message)) = get k message.
Proof.
  destruct message as [| | | | | | | |o]; try discriminate.
  unfold isResponseMessage. intros Hty.
  unfold databaseToResponseMessage, responseMessageToDatabase.
  cbn [get spread]. rewrite field_insert, insert_insert_eq.
  destruct (o !! "images") as [images|] eqn:Himages.
  - assert (field "images" o = images) as -> by (unfold field; by rewrite Himages).
    destruct images as [| | | | | | |l|]; try discriminate.
    + by apply field_images_undefined; unfold field; rewrite Himages.
    + cbn [truthy elements_of]. rewrite images_roundtrip by done.
      by rewrite insert_id.
  - assert (field "images" o = VUndefined) as Hnone by (unfold field; by rewrite Himages).
    rewrite Hnone. by apply field_images_undefined.
Qed.

(** C7. An entry written to the store has the three properties [id],
    [input] and [output] and no other, so neither [trigger] nor [reply]
    nor [moderation]. Loading it back gives an interaction with the same
    [input], with an [output] that reads the same at every property
    (the images are buffers again), and with [trigger], [reply] and
    [moderation] set to null. *)
Theorem stored_entry_roundtrip (now : Z) (entry : JsObject) :
  isResponseMessage (field "output" entry) = true →
  dom (entryToDatabase entry) = {[ "id"; "input"; "output" ]}
  ∧ field "input" (entryFromDatabase now (entryToDatabase entry)) = field "input" entry
  ∧ (∀ k, get k (field "output" (entryFromDatabase now (entryToDatabase entry)))
          = get k (field "output" entry))
  ∧ field "trigger" (entryFromDatabase now (entryToDatabase entry)) = VNull
  ∧ field "reply" (entryFromDatabase now (entryToDatabase entry)) = VNull
  ∧ field "moderation" (entryFromDatabase now (entryToDatabase entry)) = VNull.
Proof.
  intros Hout. split; [|split; [|split]].
  - unfold entryToDatabase. rewrite !dom_insert_L, dom_singleton_L. set_solver.
  - reflexivity.
  - intros k.
    change (field "output" (entryFromDatabase now (entryToDatabase entry)))
      with (databaseToResponseMessage (responseMessageToDatabase (field "output" entry))).
    by apply message_roundtrip.
  - done.
Qed.

(** [loadFromDatabase] puts the loaded form of every stored entry at the
    end of the history, in order. *)
Lemma loadFromDatabase_history env (entries : list JsObject) w :
  history (conv (loadFromDatabase env (Some entries) w).2)
  = history (conv w) ++ (entryFromDatabase (now env) <$> entries).
Proof.
  unfold loadFromDatabase, pushToHistory, await, bind, this, emit, modify, skip, ret, throw.
  simpl. by destruct (rejects env _).
Qed.

End Storage.

Lemma plainCodec_reversible : reversible plainCodec.
Proof. intros b. apply String.list_byte_of_string_of_list_byte. Qed.

Lemma stored_entry_roundtrip_witness :
  dom (entryToDatabase (codec := plainCodec)
         (interaction (sample_env (succeeds_after 0 rate_limit) plain_model) sample_data))
  = {[ "id"; "input"; "output" ]}
  ∧ field "input"
      (entryFromDatabase (codec := plainCodec) 0
         (entryToDatabase (codec := plainCodec)
            (interaction (sample_env (succeeds_after 0 rate_limit) plain_model) sample_data)))
    = result_input sample_data
  ∧ (∀ k, get k (field "output"
                   (entryFromDatabase (codec := plainCodec) 0
                      (entryToDatabase (codec := plainCodec)
                         (interaction (sample_env (succeeds_after 0 rate_limit) plain_model)
                            sample_data))))
          = get k sample_output)
  ∧ field "trigger"
      (entryFromDatabase (codec := plainCodec) 0
         (entryToDatabase (codec := plainCodec)
            (interaction (sample_env (succeeds_after 0 rate_limit) plain_model) sample_data)))
    = VNull
  ∧ field "reply"
      (entryFromDatabase (codec := plainCodec) 0
         (entryToDatabase (codec := plainCodec)
            (interaction (sample_env (succeeds_after 0 rate_limit) plain_model) sample_data)))
    = VNull
  ∧ field "moderation"
      (entryFromDatabase (codec := plainCodec) 0
         (entryToDatabase (codec := plainCodec)
            (interaction (sample_env (succeeds_after 0 rate_limit) plain_model) sample_data)))
    = VNull.
Proof.
  exact (stored_entry_roundtrip (codec := plainCodec) plainCodec_reversible 0
           (interaction (sample_env (succeeds_after 0 rate_limit) plain_model) sample_data)
           eq_refl).
Defined.

(** A stripped entry reads null at [trigger] and [reply], and as the
    entry itself everywhere else. *)
Lemma stripForBroadcast_lookup (h : list JsObject) (i : nat) (e : JsObject) :
  h !! i = Some e →
  ∃ p, (stripForBroadcast <$> h) !! i = Some p
       ∧ p !! "trigger" = Some VNull
       ∧ p !! "reply" = Some VNull
       ∧ ∀ k, k ≠ "trigger" → k ≠ "reply" → p !! k = e !! k.
Proof.
  intros Hi. exists (stripForBroadcast e).
  rewrite list_lookup_fmap, Hi. split; [done|].
  unfold stripForBroadcast.
  split; [by rewrite lookup_insert_ne, lookup_insert_eq|].
  split; [by rewrite lookup_insert_eq|].
  intros k Ht Hr. by rewrite !lookup_insert_ne.
Qed.

(** C10. The payload that [pushToHistory] broadcasts has one entry for
    each entry of the local history, in order: a copy in which [trigger]
    and [reply] are null and every other property, [moderation] and
    [time] among them, is as in the local entry. The local history is
    the one before the call, with the given entry at its end. *)
Theorem broadcast_payload (env : Env) (entry : option JsObject) (w : World) :
  ∃ payload,
    history (conv (pushToHistory env entry w).2)
    = history (conv w) ++ (if entry is Some e then [e] else [])
    ∧ log (pushToHistory env entry w).2
      = log w ++ [obs (conv (pushToHistory env entry w).2)
                    (EBroadcast (user_id (conv w)) payload (cluster_id env))]
    ∧ length payload = length (history (conv (pushToHistory env entry w).2))
    ∧ ∀ i e, history (conv (pushToHistory env entry w).2) !! i = Some e →
        ∃ p, payload !! i = Some p
             ∧ p !! "trigger" = Some VNull
             ∧ p !! "reply" = Some VNull
             ∧ ∀ k, k ≠ "trigger" → k ≠ "reply" → p !! k = e !! k.
Proof.
  exists (stripForBroadcast <$> history (conv (pushToHistory env entry w).2)).
  split; [|split; [|split]].
  - unfold pushToHistory, await, bind, this, emit, modify, skip, ret, throw.
    destruct entry; simpl; destruct (rejects env _); simpl; by rewrite ?app_nil_r.
  - unfold pushToHistory, await, bind, this, emit, modify, skip, ret, throw.
    destruct entry; simpl; by destruct (rejects env _).
  - by rewrite length_fmap.
  - intros i e Hi. by apply stripForBroadcast_lookup.
Qed.

(** ** The summarizer prompt *)

Section SummarizerProperties.
Context (countChatMessageTokens : list OpenAIChatMessage → Z) (systemContent : string).

#[local] Abbreviation build := (buildSummarizerPrompt countChatMessageTokens systemContent).
#[local] Abbreviation over subtitles :=
  (4000 <? countChatMessageTokens (summarizerMessages systemContent subtitles)).

(** The builder, branch by branch as the source has it. *)
Lemma buildSummarizerPrompt_branches (subtitles : list YouTubeSubtitle) :
  build subtitles
  = if over subtitles && bool_decide (length subtitles = 0%nat)
    then inl (GPTGenerationError Length None)
    else if over subtitles
    then build (removelast subtitles)
    else inr {| messages := summarizerMessages systemContent subtitles;
                tokens := countChatMessageTokens
                            (summarizerMessages systemContent subtitles) |}.
Proof.
  simp buildSummarizerPrompt.
  destruct (over subtitles) eqn:Hover, subtitles as [|s rest]; simpl;
    simp buildSummarizerPrompt; reflexivity.
Qed.

Lemma take_removelast {A} (l : list A) (m : nat) :
  (m < length l)%nat → take m (removelast l) = take m l.
Proof.
  revert m. induction l as [|x l IH]; intros m Hm; [done|].
  destruct l as [|y l]; simpl in *.
  - by replace m with 0%nat by lia.
  - destruct m as [|m]; [done|]. simpl. f_equal. apply (IH m). lia.
Qed.

Lemma length_removelast {A} (l : list A) :
  length (removelast l) = (length l - 1)%nat.
Proof.
  induction l as [|x l IH]; [done|].
  destruct l as [|y l]; [done|]. simpl in *. lia.
Qed.

(** C9, as the code has it. While the prompt is over the budget of 4000
    tokens the builder drops the last subtitle (the latest chunk, not the
    oldest) and counts again. It answers the prompt of the longest
    leading run of subtitles that it finds within the budget, every
    longer run being over it; when even the empty run is over the budget
    it throws a [Length] generation error. It always terminates. *)
Theorem summarizer_truncation (subtitles : list YouTubeSubtitle) :
  match build subtitles with
  | inr prompt =>
      ∃ n, (n ≤ length subtitles)%nat
           ∧ messages prompt = summarizerMessages systemContent (take n subtitles)
           ∧ tokens prompt = countChatMessageTokens (messages prompt)
           ∧ tokens prompt ≤ 4000
           ∧ ∀ m, (n < m ≤ length subtitles)%nat → over (take m subtitles) = true
  | inl error =>
      error = GPTGenerationError Length None
      ∧ ∀ m, (m ≤ length subtitles)%nat → over (take m subtitles) = true
  end.
Proof.
  remember (length subtitles) as len eqn:Hlen.
  revert subtitles Hlen.
  induction len as [len IH] using lt_wf_ind. intros subtitles Hlen.
  rewrite buildSummarizerPrompt_branches.
  destruct (over subtitles) eqn:Hover; simpl.
  - case_bool_decide as Hnil.
    + split; [done|]. intros m Hm.
      replace m with 0%nat by lia.
      apply nil_length_inv in Hnil. by subst subtitles.
    + assert (length (removelast subtitles) < len)%nat as Hlt
        by (rewrite length_removelast; lia).
      specialize (IH _ Hlt (removelast subtitles) eq_refl).
      destruct (build (removelast subtitles)) as [error|prompt].
      * destruct IH as [-> Hall]. rewrite length_removelast in Hall.
        split; [done|].
        intros m Hm. destruct (decide (m = length subtitles)) as [->|Hne].
        -- by rewrite firstn_all.
        -- rewrite <- take_removelast by lia. apply Hall. lia.
      * destruct IH as (n & Hn & Hmsg & Htok & Hfit & Hall).
        rewrite length_removelast in Hn, Hall.
        exists n. split; [lia|].
        split; [by rewrite Hmsg, take_removelast by lia|].
        split; [done|]. split; [done|].
        intros m Hm. destruct (decide (m = length subtitles)) as [->|Hne].
        -- by rewrite firstn_all.
        -- rewrite <- take_removelast by lia. apply Hall. lia.
  - exists (length subtitles). rewrite firstn_all. simpl.
    split; [lia|]. split; [done|]. split; [done|].
    split; [by apply Z.ltb_ge in Hover|]. intros m Hm. lia.
Qed.

End SummarizerProperties.

(** C9 as the specification words it fails on two subtitles that are over
    the budget together and within it alone: the code keeps the early
    one and drops the late one; dropping the oldest would keep the late
    one. *)
Lemma latest_chunk_is_dropped :
  buildSummarizerPrompt sample_counter sample_system [early_subtitle; late_subtitle]
  = inr {| messages := summarizerMessages sample_system [early_subtitle]; tokens := 4000 |}
  ∧ spec_buildSummarizerPrompt sample_counter sample_system [early_subtitle; late_subtitle]
    = inr {| messages := summarizerMessages sample_system [late_subtitle]; tokens := 3000 |}
  ∧ buildSummarizerPrompt sample_counter sample_system [early_subtitle; late_subtitle]
    ≠ spec_buildSummarizerPrompt sample_counter sample_system [early_subtitle; late_subtitle].
Proof.
  assert (buildSummarizerPrompt sample_counter sample_system [early_subtitle; late_subtitle]
          = inr {| messages := summarizerMessages sample_system [early_subtitle]; tokens := 4000 |})
    as Hcode by (by vm_compute).
  assert (spec_buildSummarizerPrompt sample_counter sample_system [early_subtitle; late_subtitle]
          = inr {| messages := summarizerMessages sample_system [late_subtitle]; tokens := 3000 |})
    as Hspec by (by vm_compute).
  split; [done|]. split; [done|]. rewrite Hcode, Hspec. discriminate.
Qed.

(** ** The other operations stay within the steps *)

Lemma applyResetTimer_reachable env w :
  reachable (conv w) → reachable (conv (applyResetTimer env w).2).
Proof.
  intros Hreach.
  destruct (applyResetTimer_run env w) as (c' & l & -> & Hframe & _). simpl.
  eapply reachable_step; [exact Hreach|]. by apply same_but_timer_step.
Qed.

Lemma init_reachable env c :
  reachable c → reachable (conv (init env (world c)).2).
Proof.
  intros Hreach. unfold init, bind at 1, this at 1. simpl.
  assert (∀ w, reachable (conv w) →
               reachable (conv ((applyResetTimer env;; modify (set_active true)) w).2))
    as Hrest.
  { intros w Hw. unfold bind.
    pose proof (applyResetTimer_reachable env w Hw) as Ht.
    destruct (applyResetTimer env w) as [[[]| |] w']; simpl in *; try done.
    eapply reachable_step; [exact Ht|]. apply step_init. }
  unfold bind at 1, await, bind at 1, emit at 1. simpl.
  destruct (rejects env (EFetchUser _)); simpl; [done|].
  unfold bind at 1, this at 1. simpl.
  case_bool_decide.
  - unfold bind at 1, await, bind at 1, emit at 1. simpl.
    destruct (rejects env _); simpl; [done|]. by apply Hrest.
  - unfold bind at 1, skip, ret. by apply Hrest.
Qed.

Lemma reset_reachable env remove c :
  reachable c → reachable (conv (reset env remove (world c)).2).
Proof.
  intros Hreach. unfold reset, bind at 1.
  pose proof (applyResetTimer_reachable env (world c) Hreach) as Ht.
  destruct (applyResetTimer env (world c)) as [[[]| |] w]; simpl in *; try done.
  assert (reachable (set_history [] (conv w))) as Hh
    by (eapply reachable_step; [exact Ht|]; apply step_history).
  unfold bind, modify, this, await, emit, ret, throw. simpl.
  destruct remove; simpl; destruct (rejects env _); simpl; try done.
  - eapply reachable_step; [exact Hh|]. apply (step_reset _ true).
  - eapply reachable_step; [exact Hh|]. apply (step_reset _ false).
Qed.

(** [generate] always settles: the fuel of the loop is never used up. *)
Lemma generate_settles {codec : ImageCodec} env c :
  (generate env (world c)).1 ≠ OutOfFuel.
Proof.
  destruct (active c) eqn:Ha.
  2:{ unfold generate, bind, this, throw. simpl. by rewrite Ha. }
  destruct (generating c) eqn:Hg.
  { unfold generate, bind, this, throw. simpl. by rewrite Ha, Hg. }
  destruct (generate_shape env c Ha Hg) as (l_loop & _ & Hout).
  destruct Hout as [([e He] & _)|[(He & _)|(c_t & l_t & l & _ & _ & _ & tries & data & Hout)]];
    [by rewrite He|by rewrite He|].
  by destruct (generate env (world c)).1.
Qed.

(** ** The scenarios of the specification *)

(** An empty history and a transport that answers at once: one history
    entry, a cool-down of tier modifier × base, no retries. *)
Example first_attempt_succeeds :
  length (history (conv (generate (codec := plainCodec)
                           (sample_env (succeeds_after 0 rate_limit) plain_model)
                           (world ready)).2)) = 1%nat
  ∧ state (cooldown (conv (generate (codec := plainCodec)
                             (sample_env (succeeds_after 0 rate_limit) plain_model)
                             (world ready)).2)) = Some (1700000000000, Number_of_Z 55000)
  ∧ (generate (codec := plainCodec)
       (sample_env (succeeds_after 0 rate_limit) plain_model) (world ready)).1
    = Return (<["tries" := VNum 0]>
                (interaction (sample_env (succeeds_after 0 rate_limit) plain_model)
                   sample_data)).
Proof. repeat split; vm_compute; reflexivity. Qed.

(** Rate-limited three times, then an answer: three waits, three tries. *)
Example succeeds_on_fourth_attempt :
  omap (λ o, match event o with ESleep ms => Some ms | _ => None end)
    (log (generate (codec := plainCodec)
            (sample_env (succeeds_after 3 rate_limit) plain_model) (world ready)).2)
  = [10000; 15000; 20000]
  ∧ (generate (codec := plainCodec)
       (sample_env (succeeds_after 3 rate_limit) plain_model) (world ready)).1
    = Return (<["tries" := VNum 3]>
                (interaction (sample_env (succeeds_after 3 rate_limit) plain_model)
                   sample_data)).
Proof. repeat split; reflexivity. Qed.

(** An out-of-credit error on the first attempt leaves the lock set. *)
Example session_unusable_keeps_lock :
  (generate (codec := plainCodec)
     (sample_env (fails_with 0 rate_limit insufficient_quota) plain_model) (world ready))
  = (Throw (GPTGenerationError SessionUnusable None),
     {| conv := in_flight;
        log := [obs in_flight (ETransport 0);
                obs in_flight (EWarn 1 insufficient_quota);
                obs in_flight (ENotice 1)];
        calls := 1 |}).
Proof. repeat split; reflexivity. Qed.

(** [reset(true)] deletes the row, empties the history and deactivates. *)
Example reset_removes :
  event <$> log (reset (sample_env (succeeds_after 0 rate_limit) plain_model) true
                   (world in_flight)).2
  = [ESetTimeout 1800000; EDeleteConversation "user-1"]
  ∧ history (conv (reset (sample_env (succeeds_after 0 rate_limit) plain_model) true
                     (world in_flight)).2) = []
  ∧ active (conv (reset (sample_env (succeeds_after 0 rate_limit) plain_model) true
                    (world in_flight)).2) = false
  ∧ generating (conv (reset (sample_env (succeeds_after 0 rate_limit) plain_model) true
                        (world in_flight)).2) = false.
Proof. repeat split; reflexivity. Qed.

(** The cool-down of each tier on the default 110 s. *)
Example cooldown_by_tier :
  (λ t, cooldownTime t CONVERSATION_DEFAULT_COOLDOWN_time plain_model)
    <$> [Free; Voter; GuildPremium; UserPremium]
  = Number_of_Z <$> [110000; 55000; 16500; 9900].
Proof. vm_compute. reflexivity. Qed.

(** * Further properties *)

(** ** Accounting for a call of [generate] *)

Lemma slept_app l l' : slept (l ++ l') = slept l + slept l'.
Proof.
  induction l as [|o l IH]; simpl; [done|].
  destruct (event o); rewrite ?IH; lia.
Qed.

Lemma slept_no_loop l :
  Forall (λ o, loop_event (event o) = false) l → slept l = 0.
Proof.
  induction 1 as [|o l Ho _ IH]; simpl; [done|].
  by destruct (event o).
Qed.

Lemma transports_app l l' :
  length (filter (λ o, isTransport (event o) = true) (l ++ l'))
  = (length (filter (λ o, isTransport (event o) = true) l)
     + length (filter (λ o, isTransport (event o) = true) l'))%nat.
Proof. by rewrite filter_app, length_app. Qed.

Lemma transports_none l :
  Forall (λ o, isTransport (event o) = false) l →
  filter (λ o, isTransport (event o) = true) l = [].
Proof.
  induction 1 as [|o l Ho _ IH]; [done|].
  rewrite filter_cons_False; [done|]. by rewrite Ho.
Qed.

Lemma transports_no_loop l :
  Forall (λ o, loop_event (event o) = false) l →
  filter (λ o, isTransport (event o) = true) l = [].
Proof.
  intros Hl. apply transports_none.
  eapply Forall_impl; [exact Hl|]. intros o; simpl. by destruct (event o).
Qed.

Lemma backoff_left_nonneg more : ∀ tries, 0 ≤ backoff_left more tries.
Proof.
  induction more as [|more IH]; intros tries; simpl; [lia|].
  specialize (IH (S tries)). lia.
Qed.

#[local] Arguments backoff_left : simpl never.
#[local] Arguments Nat.sub : simpl never.

(** The books of the loop: one log entry per transport call, every call
    but the last a failure that let the loop go on, and waits within what
    the remaining tries allow. *)
Lemma attempts_account env fuel : ∀ tries w,
  generating (conv w) = true →
  calls w = tries →
  (tries < CONVERSATION_ERROR_RETRY_MAX_TRIES)%nat →
  (CONVERSATION_ERROR_RETRY_MAX_TRIES - tries ≤ fuel)%nat →
  ∃ l, log (attempts env fuel tries w).2 = log w ++ l
       ∧ (tries < calls (attempts env fuel tries w).2
          ≤ CONVERSATION_ERROR_RETRY_MAX_TRIES)%nat
       ∧ length (filter (λ o, isTransport (event o) = true) l)
         = (calls (attempts env fuel tries w).2 - tries)%nat
       ∧ 0 ≤ slept l
         ≤ backoff_left (CONVERSATION_ERROR_RETRY_MAX_TRIES - 1 - tries) tries
       ∧ (∀ k, (tries ≤ k)%nat → (S k < calls (attempts env fuel tries w).2)%nat →
            ∃ error, transport env k = inl error ∧ continues error = true)
       ∧ match (attempts env fuel tries w).1 with
         | Return (t, d) =>
             S t = calls (attempts env fuel tries w).2
             ∧ ∃ data, d = Some data ∧ transport env t = inr data
         | Throw _ =>
             ∃ error, transport env (calls (attempts env fuel tries w).2 - 1) = inl error
         | OutOfFuel => False
         end.
Proof.
  induction fuel as [|fuel IH]; intros tries w Hg Hcalls Hlt Hfuel; [lia|].
  pose proof (backoff_left_nonneg (CONVERSATION_ERROR_RETRY_MAX_TRIES - 1 - tries) tries) as Hnn.
  rewrite attempts_unfold.
  destruct (transport env (calls w)) as [error|data] eqn:Ht.
  2:{ exists [obs (conv w) (ETransport (calls w))]. simpl.
      split; [done|]. split; [lia|]. split; [by replace (S (calls w) - tries)%nat with 1%nat by lia|].
      split; [lia|]. split; [intros k ??; lia|]. split; [lia|].
      exists data. by rewrite <- Hcalls. }
  assert (∀ (l : list Observation) w',
            calls w' = S (calls w) →
            Forall (λ o, isTransport (event o) = false) l →
            slept l = 0 →
            (∃ l', log w' = log (called w) ++ l ∧ l' = l) →
            ∃ l0, log w' = log w ++ l0
                  ∧ (tries < calls w' ≤ CONVERSATION_ERROR_RETRY_MAX_TRIES)%nat
                  ∧ length (filter (λ o, isTransport (event o) = true) l0)
                    = (calls w' - tries)%nat
                  ∧ 0 ≤ slept l0
                    ≤ backoff_left (CONVERSATION_ERROR_RETRY_MAX_TRIES - 1 - tries) tries
                  ∧ (∀ k, (tries ≤ k)%nat → (S k < calls w')%nat →
                       ∃ error, transport env k = inl error ∧ continues error = true)
                  ∧ ∃ error, transport env (calls w' - 1) = inl error) as Hstop.
  { intros l w' Hc Hl Hs (l' & Hlog & _).
    exists (obs (conv w) (ETransport (calls w)) :: l).
    split; [by rewrite Hlog; simpl; rewrite <- app_assoc|].
    split; [lia|]. split.
    { rewrite filter_cons_True by done. simpl.
      rewrite transports_none by done. simpl. lia. }
    split; [simpl; lia|]. split; [intros k ??; lia|].
    exists error. by replace (calls w' - 1)%nat with (calls w) by lia. }
  destruct (decide (S tries = CONVERSATION_ERROR_RETRY_MAX_TRIES)) as [Hmax|Hmax].
  { rewrite catch_block_exhausted by done. simpl.
    destruct (Hstop [] (unlocked (called w))) as (l0 & ?); simpl; try done;
      [by exists []; rewrite app_nil_r|].
    by exists l0. }
  destruct (error_cases error) as [Hs|[Hc|(Hs & Hr & Hf)]].
  - rewrite catch_block_session by done.
    destruct (Hstop (obs (conv w) <$> [EWarn (S tries) error; ENotice (S tries)])
                (logged (called w) [EWarn (S tries) error; ENotice (S tries)]))
      as (l0 & ?); simpl; try done; [by repeat constructor|by eexists|].
    by exists l0.
  - rewrite catch_block_continues by done.
    set (es := [EWarn (S tries) error; ENotice (S tries)] ++ _).
    set (w1 := logged (called w) es).
    assert (S tries < CONVERSATION_ERROR_RETRY_MAX_TRIES)%nat as Hlt' by lia.
    apply Nat.ltb_lt in Hlt' as Hb. rewrite Hb.
    change (generating (conv w1)) with (generating (conv w)). rewrite Hg.
    cbn [andb].
    destruct (IH (S tries) w1) as (l & Hlog & Hcnt & Htr & Hsl & Hfail & Hout);
      [done|subst w1; simpl; lia|done|lia|].
    exists (obs (conv w) (ETransport (calls w)) :: (obs (conv w) <$> es) ++ l).
    split; [rewrite Hlog; subst w1; simpl; by rewrite <- !app_assoc|].
    split; [lia|]. split.
    { rewrite filter_cons_True by done. cbn [length].
      rewrite filter_app, length_app, Htr.
      rewrite transports_none; [simpl; lia|].
      subst es. apply Forall_fmap, Forall_app. split; [by repeat constructor|].
      destruct (rateLimited error); by repeat constructor. }
    split.
    { change (slept (?o :: ?l)) with (slept ([o] ++ l)). rewrite !slept_app.
      change (slept [obs (conv w) (ETransport (calls w))]) with 0.
      replace (CONVERSATION_ERROR_RETRY_MAX_TRIES - 1 - tries)%nat
        with (S (CONVERSATION_ERROR_RETRY_MAX_TRIES - 1 - S tries)) by lia.
      change (backoff_left (S ?n) tries)
        with ((Z.of_nat (S tries) * 5 + 5) * 1000 + backoff_left n (S tries)).
      assert (0 ≤ slept (obs (conv w) <$> es) ≤ (Z.of_nat (S tries) * 5 + 5) * 1000) as Hes.
      { subst es. destruct (rateLimited error); simpl; lia. }
      lia. }
    split.
    { intros k Hk1 Hk2. destruct (decide (k = tries)) as [->|Hne].
      - exists error. by rewrite <- Hcalls.
      - apply Hfail; lia. }
    done.
  - rewrite catch_block_fatal by done.
    destruct (Hstop (obs (conv w) <$> [EWarn (S tries) error; ENotice (S tries)])
                (unlocked (logged (called w) [EWarn (S tries) error; ENotice (S tries)])))
      as (l0 & ?); simpl; try done; [by repeat constructor|by eexists|].
    by exists l0.
Qed.

Section Accounting.
Context {codec : ImageCodec}.

(** What follows the loop makes no transport call. *)
Lemma after_loop_calls env tries data w :
  calls (after_loop env tries data w).2 = calls w.
Proof.
  unfold after_loop, bind at 1, modify at 1. unfold bind at 1.
  destruct (applyResetTimer_run env
              {| conv := set_generating false (conv w); log := log w; calls := calls w |})
    as (c_t & l_t & -> & _).
  destruct data as [d|]; [|done].
  unfold complete, pushToHistory, cooldown_use, await, bind, this, emit, modify, skip,
    ret, throw. simpl.
  repeat first
    [ done
    | match goal with
      | |- context [rejects env ?e] => destruct (rejects env e)
      | |- context [dev env] => destruct (dev env)
      | |- context [existsb ?f (owner env)] => destruct (existsb f (owner env))
      end; simpl ].
Qed.

(** What follows the loop logs no loop call. *)
Lemma after_loop_log env tries d w :
  ∃ l, log (after_loop env tries (Some d) w).2 = log w ++ l
       ∧ Forall (λ o, loop_event (event o) = false) l.
Proof.
  destruct (after_loop_cases env tries d w) as (c_t & l_t & l & Hlog & _ & Ht & Hout).
  exists (l_t ++ l). split; [done|].
  apply Forall_app. split.
  { eapply Forall_impl; [exact Ht|]. intros o [_ Ho]; simpl. by destruct (event o). }
  assert (Forall (λ o, loop_event (event o) = false) (completion_awaited env d c_t)) as Haw.
  { eapply Forall_impl; [apply completion_awaited_seen|]. by intros o (_ & Ho & _). }
  destruct (after_loop env tries (Some d) w).1 as [res|e|]; [| |done].
  - destruct Hout as (_ & -> & _). unfold completion_log.
    apply Forall_app. split; [done|]. destruct (negb _); by repeat constructor.
  - destruct Hout as ([rest Hrest] & _). rewrite Hrest in Haw.
    by apply Forall_app in Haw as [Haw _].
Qed.

(** A call that passes the guards: the loop's books, then calls that are
    neither transport calls nor waits. *)
Lemma generate_account env c :
  active c = true → generating c = false →
  ∃ l_loop l_post n,
    log (generate env (world c)).2 = log (start c) ++ l_loop ++ l_post
    ∧ Forall (λ o, loop_event (event o) = false) l_post
    ∧ (0 < n ≤ CONVERSATION_ERROR_RETRY_MAX_TRIES)%nat
    ∧ length (filter (λ o, isTransport (event o) = true) l_loop) = n
    ∧ 0 ≤ slept l_loop ≤ backoff_left (CONVERSATION_ERROR_RETRY_MAX_TRIES - 1) 0
    ∧ (∀ k, (S k < n)%nat → ∃ error, transport env k = inl error ∧ continues error = true)
    ∧ match (generate env (world c)).1 with
      | Return res =>
          ∃ data, transport env (n - 1) = inr data
                  ∧ res = <["tries" := VNum (Z.of_nat (n - 1))]> (interaction env data)
      | Throw _ => True
      | OutOfFuel => False
      end.
Proof.
  intros Ha Hg. rewrite generate_start by done.
  destruct (attempts_account env CONVERSATION_ERROR_RETRY_MAX_TRIES 0 (start c))
    as (l & Hlog & Hn & Htr & Hsl & Hfail & Hout);
    [done|done|unfold CONVERSATION_ERROR_RETRY_MAX_TRIES; lia|lia|].
  rewrite Nat.sub_0_r in Htr, Hsl.
  destruct (attempts _ _ _ _) as [[[t d]| |] w]; simpl in *; [| |done].
  - destruct Hout as (Ht & data & -> & Hdata).
    destruct (after_loop_log env t data w) as (l_post & Hpost & Hnl).
    exists l, l_post, (calls w).
    split; [by rewrite Hpost, Hlog, <- app_assoc|]. split; [done|].
    split; [lia|]. split; [done|]. split; [done|].
    split; [intros k Hk; apply Hfail; lia|].
    destruct (after_loop_cases env t data w) as (c_t & l_t & l' & _ & _ & _ & Hres).
    destruct (after_loop env t (Some data) w).1 as [res|e|]; [|done|done].
    destruct Hres as (-> & _). exists data.
    by replace (calls w - 1)%nat with t by lia.
  - exists l, [], (calls w). rewrite app_nil_r.
    split; [done|]. split; [done|]. split; [lia|]. split; [done|]. split; [done|].
    split; [intros k Hk; apply Hfail; lia|done].
Qed.

(** X1. Retry budget: whatever the transport does, one call of [generate]
    that passes the two entry guards makes at least one and at most ten
    transport calls; a call that one of the guards stops, on an inactive
    conversation or on one with a call in flight, makes none. *)
Theorem at_most_ten_attempts env c :
  if active c && negb (generating c)
  then (0 < length (filter (λ o, isTransport (event o) = true)
                      (log (generate env (world c)).2))
        ≤ CONVERSATION_ERROR_RETRY_MAX_TRIES)%nat
  else filter (λ o, isTransport (event o) = true) (log (generate env (world c)).2) = [].
Proof.
  destruct (active c) eqn:Ha; [destruct (generating c) eqn:Hg|]; simpl.
  - by destruct (generate_guarded env (world c)) as (e & ->); [by right|].
  - destruct (generate_account env c Ha Hg)
      as (l_loop & l_post & n & -> & Hpost & Hn & Htr & _).
    rewrite !filter_app, !length_app, Htr, (transports_no_loop l_post) by done.
    unfold start. simpl. destruct (timer c); simpl; lia.
  - by destruct (generate_guarded env (world c)) as (e & ->); [by left|].
Qed.

(** X2. Backoff budget: whatever the transport does, the waits of one
    call of [generate] add up to at most 270 seconds. *)
Theorem backoff_at_most_270_seconds env c :
  0 ≤ slept (log (generate env (world c)).2) ≤ 270 * 1000.
Proof.
  destruct (active c) eqn:Ha; [destruct (generating c) eqn:Hg|].
  - destruct (generate_guarded env (world c)) as (e & ->); [by right|simpl; lia].
  - destruct (generate_account env c Ha Hg)
      as (l_loop & l_post & n & -> & Hpost & _ & _ & Hsl & _).
    rewrite !slept_app, (slept_no_loop l_post) by done.
    change (backoff_left (CONVERSATION_ERROR_RETRY_MAX_TRIES - 1) 0) with 270000 in Hsl.
    unfold start. simpl. destruct (timer c); simpl; lia.
  - destruct (generate_guarded env (world c)) as (e & ->); [by left|simpl; lia].
Qed.

(** X3. The [tries] of a returned interaction count the failed attempts:
    when a call returns with [tries] = t, the transport failed t times
    (t < 10), each time with an error that lets the loop go on, and the
    interaction is built from what attempt t + 1 answered. *)
Theorem tries_count_failures env c res :
  (generate env (world c)).1 = Return res →
  ∃ t data,
    res = <["tries" := VNum (Z.of_nat t)]> (interaction env data)
    ∧ (t < CONVERSATION_ERROR_RETRY_MAX_TRIES)%nat
    ∧ transport env t = inr data
    ∧ (∀ k, (k < t)%nat → ∃ error, transport env k = inl error ∧ continues error = true)
    ∧ length (filter (λ o, isTransport (event o) = true) (log (generate env (world c)).2))
      = S t.
Proof.
  intros Hret.
  destruct (active c) eqn:Ha; [destruct (generating c) eqn:Hg|].
  - destruct (generate_guarded env (world c)) as (e & He); [by right|]. by rewrite He in Hret.
  - destruct (generate_account env c Ha Hg)
      as (l_loop & l_post & n & Hlog & Hpost & Hn & Htr & _ & Hfail & Hout).
    rewrite Hret in Hout. destruct Hout as (data & Hdata & ->).
    exists (n - 1)%nat, data. split; [done|]. split; [lia|]. split; [done|].
    split; [intros k Hk; apply Hfail; lia|].
    rewrite Hlog, !filter_app, !length_app, Htr, (transports_no_loop l_post) by done.
    unfold start. simpl. destruct (timer c); simpl; lia.
  - destruct (generate_guarded env (world c)) as (e & He); [by left|]. by rewrite He in Hret.
Qed.

End Accounting.

Lemma tries_count_failures_witness :
  ∃ t data,
    <["tries" := VNum 3]>
      (interaction (sample_env (succeeds_after 3 rate_limit) plain_model) sample_data)
    = <["tries" := VNum (Z.of_nat t)]>
        (interaction (sample_env (succeeds_after 3 rate_limit) plain_model) data)
    ∧ (t < CONVERSATION_ERROR_RETRY_MAX_TRIES)%nat
    ∧ transport (sample_env (succeeds_after 3 rate_limit) plain_model) t = inr data
    ∧ (∀ k, (k < t)%nat →
         ∃ error, transport (sample_env (succeeds_after 3 rate_limit) plain_model) k = inl error
                  ∧ continues error = true)
    ∧ length (filter (λ o, isTransport (event o) = true)
                (log (generate (codec := plainCodec)
                        (sample_env (succeeds_after 3 rate_limit) plain_model)
                        (world ready)).2))
      = S t.
Proof.
  apply (tries_count_failures (codec := plainCodec)
           (sample_env (succeeds_after 3 rate_limit) plain_model) ready). reflexivity.
Defined.

(** ** What a call of [generate] leaves alone *)

Section Frame.
Context {codec : ImageCodec}.

Lemma previous_snoc (c : Conversation) (h : list JsObject) (i : JsObject) :
  history c = h ++ [i] → previous c = Some i.
Proof.
  intros Hh. unfold previous. rewrite Hh, length_app. simpl.
  rewrite bool_decide_eq_false_2 by lia.
  rewrite lookup_app_r by lia.
  by replace (length h + 1 - 1 - length h)%nat with 0%nat by lia.
Qed.

Lemma interaction_tries env data (t : JsValue) :
  delete "tries" (<["tries" := t]> (interaction env data)) = interaction env data.
Proof. by rewrite delete_insert_eq, delete_id. Qed.

(** X4. A call that returns has appended exactly one interaction to the
    history: the returned value without its [tries]. It is what
    [previous] answers afterwards, its [trigger] is the one of the
    options and its [reply] is null. *)
Theorem returned_interaction_is_previous env c res :
  (generate env (world c)).1 = Return res →
  history (conv (generate env (world c)).2) = history c ++ [delete "tries" res]
  ∧ previous (conv (generate env (world c)).2) = Some (delete "tries" res)
  ∧ field "trigger" res = options_trigger env
  ∧ field "reply" res = VNull.
Proof.
  intros Hret.
  destruct (active c) eqn:Ha; [destruct (generating c) eqn:Hg|].
  - destruct (generate_guarded env (world c)) as (e & He); [by right|]. by rewrite He in Hret.
  - destruct (generate_shape env c Ha Hg) as (l_loop & _ & Hout).
    destruct Hout as [([e He] & _)|[(He & _)
                     |(c_t & l_t & l & _ & Hframe & _ & tries & data & Hout)]];
      [by rewrite He in Hret|by rewrite He in Hret|].
    rewrite Hret in Hout. destruct Hout as (-> & _ & Hconv & _).
    destruct Hframe as (_ & _ & _ & Hh & _). simpl in Hh.
    assert (history (conv (generate env (world c)).2)
            = history c ++ [interaction env data]) as Hhist.
    { rewrite Hconv. unfold completed, pushed. destruct (negb _); simpl; by rewrite Hh. }
    rewrite interaction_tries.
    split; [done|]. split; [by apply previous_snoc with (h := history c)|].
    by split.
  - destruct (generate_guarded env (world c)) as (e & He); [by left|]. by rewrite He in Hret.
Qed.

(** X5. A call that throws never arms the cool-down, and leaves the
    history as it was or, when the throw came after the push, with the
    one new interaction at its end. *)
Theorem throw_arms_no_cooldown env c :
  match (generate env (world c)).1 with
  | Throw _ =>
      Forall (λ o, isCooldownUse (event o) = false) (log (generate env (world c)).2)
      ∧ cooldown (conv (generate env (world c)).2) = cooldown c
      ∧ (history (conv (generate env (world c)).2) = history c
         ∨ ∃ data, history (conv (generate env (world c)).2)
                   = history c ++ [interaction env data])
  | _ => True
  end.
Proof.
  destruct (active c) eqn:Ha; [destruct (generating c) eqn:Hg|].
  - destruct (generate_guarded env (world c)) as (e & ->); [by right|].
    simpl. split; [done|]. split; [done|]. by left.
  - destruct (generate_shape env c Ha Hg) as (l_loop & Hloop & Hout).
    pose proof (loop_log_no_cooldown c l_loop Hloop) as Hpre.
    destruct Hout as [([e He] & Hconv & Hlog)|[(He & Hconv & Hlog & _)
                     |(c_t & l_t & l & Hlog & Hframe & Htimer & tries & data & Hout)]].
    + rewrite He, Hconv, Hlog. split; [done|]. split; [done|]. by left.
    + rewrite He, Hconv, Hlog. split; [done|]. split; [done|]. by left.
    + destruct (generate env (world c)).1 as [res|e|]; [done| |done].
      destruct Hout as ([rest Hrest] & Hconv).
      destruct Hframe as (_ & _ & _ & Hh & Hcd & _). simpl in Hh, Hcd.
      split; [|split].
      * rewrite Hlog, app_assoc. apply Forall_app. split; [done|].
        apply Forall_app. split; [by eapply timer_log_no_cooldown|].
        pose proof (awaited_no_cooldown env data c_t) as Haw.
        rewrite Hrest in Haw. by apply Forall_app in Haw as [Haw _].
      * by destruct Hconv as [->| ->].
      * destruct Hconv as [->| ->]; [by left|right].
        exists data. simpl. by rewrite Hh.
  - destruct (generate_guarded env (world c)) as (e & ->); [by left|].
    simpl. split; [done|]. split; [done|]. by left.
Qed.

(** X6. No call of [generate], however it settles, changes the user, the
    [active] flag, the time to live or the configured cool-down time of
    the conversation. *)
Theorem generate_keeps_identity env c :
  user_id (conv (generate env (world c)).2) = user_id c
  ∧ active (conv (generate env (world c)).2) = active c
  ∧ ttl (conv (generate env (world c)).2) = ttl c
  ∧ options_time (cooldown (conv (generate env (world c)).2)) = options_time (cooldown c).
Proof.
  destruct (active c) eqn:Ha; [destruct (generating c) eqn:Hg|].
  - destruct (generate_guarded env (world c)) as (e & ->); [by right|]. by simpl.
  - destruct (generate_shape env c Ha Hg) as (l_loop & _ & Hout).
    destruct Hout as [(_ & -> & _)|[(_ & -> & _)
                     |(c_t & l_t & l & _ & Hframe & _ & tries & data & Hout)]];
      [by simpl|by simpl|].
    destruct Hframe as (Hid & Hact & _ & _ & Hcd & Httl). simpl in *.
    destruct (generate env (world c)) as [[res|e|] w]; simpl in *; [| |done].
    + destruct Hout as (_ & _ & -> & _). unfold completed, pushed.
      destruct (negb _); simpl; by rewrite Hid, Hact, Httl, Hcd, ?Ha.
    + destruct Hout as (_ & [->| ->]); simpl; by rewrite Hid, Hact, Httl, Hcd, ?Ha.
  - destruct (generate_guarded env (world c)) as (e & ->); [by left|]. by simpl.
Qed.

End Frame.

Lemma returned_interaction_is_previous_witness :
  history (conv (generate (codec := plainCodec)
                   (sample_env (succeeds_after 3 rate_limit) plain_model) (world ready)).2)
  = history ready
    ++ [delete "tries"
          (<["tries" := VNum 3]>
             (interaction (sample_env (succeeds_after 3 rate_limit) plain_model) sample_data))]
  ∧ previous (conv (generate (codec := plainCodec)
                      (sample_env (succeeds_after 3 rate_limit) plain_model) (world ready)).2)
    = Some (delete "tries"
              (<["tries" := VNum 3]>
                 (interaction (sample_env (succeeds_after 3 rate_limit) plain_model)
                    sample_data)))
  ∧ field "trigger"
      (<["tries" := VNum 3]>
         (interaction (sample_env (succeeds_after 3 rate_limit) plain_model) sample_data))
    = options_trigger (sample_env (succeeds_after 3 rate_limit) plain_model)
  ∧ field "reply"
      (<["tries" := VNum 3]>
         (interaction (sample_env (succeeds_after 3 rate_limit) plain_model) sample_data))
    = VNull.
Proof.
  apply (returned_interaction_is_previous (codec := plainCodec)
           (sample_env (succeeds_after 3 rate_limit) plain_model) ready). reflexivity.
Defined.

(** ** Timers *)

Section Lifecycle.
Context {codec : ImageCodec}.

(** The loop starts with a transport call. *)
Lemma attempts_first_call env fuel tries w :
  ∃ l, log (attempts env (S fuel) tries w).2
       = log w ++ obs (conv w) (ETransport (calls w)) :: l.
Proof.
  rewrite attempts_unfold.
  destruct (transport env (calls w)) as [error|data]; [|by eexists].
  destruct (catch_block_extends tries error (called w)) as (l & Hl).
  destruct (catch_block tries error (called w)) as [[t| |] w']; simpl in Hl.
  - destruct (_ && _).
    + destruct (attempts_extends env fuel t w') as (l' & ->). rewrite Hl. simpl.
      rewrite <- !app_assoc. by eexists.
    + simpl. rewrite Hl. simpl. rewrite <- app_assoc. by eexists.
  - simpl. rewrite Hl. simpl. rewrite <- app_assoc. by eexists.
  - simpl. rewrite Hl. simpl. rewrite <- app_assoc. by eexists.
Qed.

(** A call that passes the guards calls the transport, having cancelled
    the idle timeout if there is one. *)
Lemma generate_first_call env c :
  active c = true → generating c = false →
  ∃ l, log (generate env (world c)).2
       = log (start c) ++ obs (set_generating true c) (ETransport 0) :: l.
Proof.
  intros Ha Hg. rewrite generate_start by done.
  destruct (attempts_first_call env 9 0 (start c)) as (l & Hl).
  change (S 9) with CONVERSATION_ERROR_RETRY_MAX_TRIES in Hl.
  destruct (attempts env _ 0 (start c)) as [[[t d]| |] w]; simpl in *.
  - destruct (after_loop_extends env t d w) as (l' & ->). rewrite Hl.
    rewrite <- app_assoc. by eexists.
  - by eexists.
  - by eexists.
Qed.

(** When no awaited call rejects, [complete] returns. *)
Lemma complete_resolves env tries data w :
  all_resolve env → ∃ res, (complete env tries data w).1 = Return res.
Proof.
  intros Hall.
  unfold complete, pushToHistory, cooldown_use, await, bind, this, emit, modify, skip,
    ret, throw. simpl. rewrite !Hall. simpl.
  destruct (dev env); simpl; rewrite ?Hall; simpl;
    destruct (existsb _ (owner env)); simpl; by eexists.
Qed.

Lemma after_loop_resolves env tries d w :
  all_resolve env → ∃ res, (after_loop env tries (Some d) w).1 = Return res.
Proof.
  intros Hall. destruct (after_loop_timer env tries d w) as (c' & l' & -> & _).
  by apply complete_resolves.
Qed.

(** X7. When [generate] throws out of the retry loop (no collaborator
    having rejected), the idle timeout it cancelled on entry is not set
    again: the log of the call has no [setTimeout], and it starts with
    the [clearTimeout] if the conversation referred to a timeout. *)
Theorem throw_leaves_timer_cancelled env c e :
  all_resolve env →
  active c = true → generating c = false →
  (generate env (world c)).1 = Throw e →
  Forall (λ o, isSetTimeout (event o) = false) (log (generate env (world c)).2)
  ∧ (is_Some (timer c) →
     ∃ l, log (generate env (world c)).2 = obs (set_generating true c) EClearTimeout :: l)
  ∧ timer (conv (generate env (world c)).2) = timer c.
Proof.
  intros Hall Ha Hg He.
  destruct (attempts_inv env CONVERSATION_ERROR_RETRY_MAX_TRIES 0 (start c))
    as (l & Hlog & Hl & Hout);
    [done|done|unfold CONVERSATION_ERROR_RETRY_MAX_TRIES; lia|lia|].
  rewrite generate_start in He |- * by done.
  destruct (attempts env _ 0 (start c)) as [[[t d]| |] w]; simpl in *; [| |done].
  - destruct Hout as [_ [d' ->]].
    destruct (after_loop_resolves env t d' w Hall) as (res & Hres).
    by rewrite Hres in He.
  - rewrite Hlog. split; [|split].
    + apply Forall_app. split.
      * destruct (timer c); by repeat constructor.
      * eapply Forall_impl; [exact Hl|]. intros o [_ Hev]; simpl. by destruct (event o).
    + intros [tm Ht]. rewrite Ht. by eexists.
    + by destruct Hout as [->|(-> & _)].
Qed.

End Lifecycle.

Lemma throw_leaves_timer_cancelled_witness :
  Forall (λ o, isSetTimeout (event o) = false)
    (log (generate (codec := plainCodec)
            (sample_env (fails_with 0 rate_limit insufficient_quota) plain_model)
            (world ready_timed)).2)
  ∧ (is_Some (timer ready_timed) →
     ∃ l, log (generate (codec := plainCodec)
                 (sample_env (fails_with 0 rate_limit insufficient_quota) plain_model)
                 (world ready_timed)).2
          = obs (set_generating true ready_timed) EClearTimeout :: l)
  ∧ timer (conv (generate (codec := plainCodec)
                   (sample_env (fails_with 0 rate_limit insufficient_quota) plain_model)
                   (world ready_timed)).2)
    = timer ready_timed.
Proof.
  apply (throw_leaves_timer_cancelled (codec := plainCodec)
           (sample_env (fails_with 0 rate_limit insufficient_quota) plain_model)
           ready_timed (GPTGenerationError SessionUnusable None)).
  - intros e. reflexivity.
  - reflexivity.
  - reflexivity.
  - reflexivity.
Defined.

(** ** Reset and initialisation *)

(** What [reset] comes to. *)
Lemma reset_eq (env : Env) (remove : bool) (w : World) :
  reset env remove w
  = match rejects env (reset_call remove (conv w)) with
    | None =>
        (Return tt,
         {| conv := set_generating false
                      (set_active (negb remove) (set_history [] (rearmed env (conv w))));
            log := log w ++ rearm_log env (conv w)
                   ++ [obs (set_history [] (rearmed env (conv w)))
                         (reset_call remove (conv w))];
            calls := calls w |})
    | Some error =>
        (Throw error,
         {| conv := set_history [] (rearmed env (conv w));
            log := log w ++ rearm_log env (conv w)
                   ++ [obs (set_history [] (rearmed env (conv w)))
                         (reset_call remove (conv w))];
            calls := calls w |})
    end.
Proof.
  unfold reset, bind. rewrite applyResetTimer_eq.
  unfold reset_call, modify, this, await, bind, emit, ret, throw, obs. simpl.
  destruct remove; simpl; destruct (rejects env _); simpl;
    by rewrite <- ?app_assoc.
Qed.

(** What [init] comes to. *)
Lemma init_eq (env : Env) (w : World) :
  init env w
  = match rejects env (fetch_call (conv w)) with
    | Some error => (Throw error, logged w [fetch_call (conv w)])
    | None =>
        if bool_decide (history (conv w) = [])
        then match rejects env (init_call env (conv w)) with
             | None =>
                 (Return tt,
                  {| conv := set_active true (rearmed env (conv w));
                     log := log w ++ obs (conv w) (fetch_call (conv w))
                                     :: obs (conv w) (init_call env (conv w))
                                     :: rearm_log env (conv w);
                     calls := calls w |})
             | Some error =>
                 (Throw error, logged w [fetch_call (conv w); init_call env (conv w)])
             end
        else (Return tt,
              {| conv := set_active true (rearmed env (conv w));
                 log := log w ++ obs (conv w) (fetch_call (conv w))
                                 :: rearm_log env (conv w);
                 calls := calls w |})
    end.
Proof.
  unfold init, fetch_call. unfold bind at 1, this at 1. simpl.
  unfold bind at 1, await at 1, bind at 1, emit at 1. simpl.
  destruct (rejects env (EFetchUser _)) eqn:Hfetch; simpl; [done|].
  unfold bind at 1, this at 1. simpl.
  destruct (history (conv w)) as [|i h] eqn:Hh; simpl.
  - unfold bind at 1, await, bind at 1, emit, throw, ret, init_call, logged. simpl.
    destruct (rejects env (EUpdateConversation _)) eqn:Hr; simpl;
      [by rewrite <- app_assoc|].
    unfold bind. rewrite applyResetTimer_eq. unfold modify. simpl.
    by rewrite <- !app_assoc.
  - unfold bind, skip, ret. rewrite applyResetTimer_eq. unfold modify. simpl.
    by rewrite <- !app_assoc.
Qed.

(** X8. [reset] empties the history in memory, having re-armed the idle
    timeout, before it awaits the database. If that call resolves, the
    conversation ends unlocked, whatever was in flight, and is active
    exactly when the row was kept; if it rejects, [reset] throws with the
    history already gone and the [active] and [generating] flags as they
    were. *)
Theorem reset_outcome (env : Env) (remove : bool) (c : Conversation) :
  (∃ l, log (reset env remove (world c)).2 = l ++ [obs (set_history [] (rearmed env c))
                                                     (reset_call remove c)])
  ∧ history (conv (reset env remove (world c)).2) = []
  ∧ match (reset env remove (world c)).1 with
    | Return _ =>
        rejects env (reset_call remove c) = None
        ∧ generating (conv (reset env remove (world c)).2) = false
        ∧ active (conv (reset env remove (world c)).2) = negb remove
    | Throw error =>
        rejects env (reset_call remove c) = Some error
        ∧ generating (conv (reset env remove (world c)).2) = generating c
        ∧ active (conv (reset env remove (world c)).2) = active c
    | OutOfFuel => False
    end.
Proof.
  rewrite reset_eq. simpl.
  destruct (rejects env _); simpl; (split; [by eexists|done]).
Qed.

Section Reset.
Context {codec : ImageCodec}.

(** X9. After a [reset] that removed the row, every [generate] is
    refused as inactive and touches nothing; after a [reset] that kept
    the row, [generate] passes both guards, whatever was in flight
    before: it cancels the timeout [reset] has set and calls the
    transport. *)
Theorem reset_then_generate env env' remove c :
  (reset env remove (world c)).1 = Return tt →
  if remove
  then generate env' (world (conv (reset env remove (world c)).2))
       = (Throw (Error "Conversation is inactive"),
          world (conv (reset env remove (world c)).2))
  else ∃ l,
       log (generate env' (world (conv (reset env remove (world c)).2))).2
       = obs (set_generating true (conv (reset env remove (world c)).2)) EClearTimeout
         :: obs (set_generating true (conv (reset env remove (world c)).2)) (ETransport 0)
         :: l.
Proof.
  rewrite reset_eq. simpl.
  destruct (rejects env _); [done|]. intros _. destruct remove; simpl.
  - reflexivity.
  - destruct (generate_first_call env'
                (set_generating false
                   (set_active true (set_history [] (rearmed env c)))))
      as (l & ->); [done|done|].
    by eexists.
Qed.

End Reset.

Lemma reset_then_generate_witness :
  ∃ l,
    log (generate (codec := plainCodec)
           (sample_env (succeeds_after 0 rate_limit) plain_model)
           (world (conv (reset (sample_env (succeeds_after 0 rate_limit) plain_model)
                           false (world in_flight)).2))).2
    = obs (set_generating true
             (conv (reset (sample_env (succeeds_after 0 rate_limit) plain_model)
                      false (world in_flight)).2)) EClearTimeout
      :: obs (set_generating true
                (conv (reset (sample_env (succeeds_after 0 rate_limit) plain_model)
                         false (world in_flight)).2)) (ETransport 0)
      :: l.
Proof.
  apply (reset_then_generate (codec := plainCodec)
           (sample_env (succeeds_after 0 rate_limit) plain_model)
           (sample_env (succeeds_after 0 rate_limit) plain_model) false in_flight).
  reflexivity.
Defined.

(** X10. [init] first awaits [fetchUser] for the user of the
    conversation; when that resolves and the history in memory is empty
    it writes the row of the conversation, and only then re-arms the idle
    timeout and activates the conversation. It returns exactly when every
    call it awaited resolved: its calls are then [fetchUser], the write
    when the history was empty, and those of the timeout, and the
    conversation is active with its timeout set a full time to live
    ahead. It throws the error of [fetchUser] when that rejects, having
    called nothing else, and otherwise the error of the write when that
    rejects; either way the conversation is as it was: not activated, no
    timeout set. *)
Theorem init_outcome (env : Env) (c : Conversation) :
  match (init env (world c)).1 with
  | Return _ =>
      rejects env (fetch_call c) = None
      ∧ (history c = [] → rejects env (init_call env c) = None)
      ∧ event <$> log (init env (world c)).2
        = fetch_call c
          :: (if bool_decide (history c = []) then [init_call env c] else [])
          ++ (event <$> rearm_log env c)
      ∧ conv (init env (world c)).2 = set_active true (rearmed env c)
  | Throw error =>
      (rejects env (fetch_call c) = Some error
       ∧ (init env (world c)).2 = logged (world c) [fetch_call c])
      ∨ (rejects env (fetch_call c) = None
         ∧ history c = []
         ∧ rejects env (init_call env c) = Some error
         ∧ (init env (world c)).2 = logged (world c) [fetch_call c; init_call env c])
  | OutOfFuel => False
  end.
Proof.
  rewrite init_eq. simpl.
  destruct (rejects env (fetch_call c)) eqn:Hfetch; simpl; [by left|].
  case_bool_decide as Hh.
  - destruct (rejects env (init_call env c)) eqn:Hr; simpl; [by right|done].
  - done.
Qed.

(** ** Loading *)

Section Load.
Context {codec : ImageCodec}.

Lemma init_returns_active env w :
  (init env w).1 = Return tt → active (conv (init env w).2) = true.
Proof.
  rewrite init_eq. destruct (rejects env (fetch_call _)); [done|].
  case_bool_decide; [|done]. by destruct (rejects env _).
Qed.

(** What [loadFromDatabase] comes to. *)
Lemma loadFromDatabase_eq env stored w :
  loadFromDatabase env stored w
  = match stored with
    | None => (Return tt, w)
    | Some entries =>
        let c := set_history (history (conv w) ++ (entryFromDatabase (now env) <$> entries))
                   (conv w) in
        let call := EBroadcast (user_id c) (stripForBroadcast <$> history c)
                      (cluster_id env) in
        (match rejects env call with Some error => Throw error | None => Return tt end,
         {| conv := c; log := log w ++ [obs c call]; calls := calls w |})
    end.
Proof.
  destruct stored as [entries|]; [|done].
  unfold loadFromDatabase, pushToHistory, await, bind, this, emit, modify, skip, ret, throw.
  simpl. by destruct (rejects env _).
Qed.

Lemma loadIfNotActive_inactive env stored w :
  active (conv w) = false →
  loadIfNotActive env (Some stored) w = (loadFromDatabase env stored;; init env) w.
Proof.
  intros Ha. unfold loadIfNotActive, bind at 1, this. simpl. by rewrite Ha.
Qed.

(** X11. [loadIfNotActive] loads once: after a call that returned, on an
    active conversation or with the row found, the conversation is active
    and any further call returns without a call or a change. *)
Theorem loadIfNotActive_once env env' cached cached' w :
  (loadIfNotActive env cached w).1 = Return tt →
  active (conv w) = true ∨ is_Some cached →
  loadIfNotActive env' cached' (loadIfNotActive env cached w).2
  = (Return tt, (loadIfNotActive env cached w).2).
Proof.
  intros Hret Hfound.
  assert (active (conv (loadIfNotActive env cached w).2) = true) as Hactive.
  { revert Hret. unfold loadIfNotActive at 1 2, bind at 1 3, this at 1 2. simpl.
    destruct (active (conv w)) eqn:Ha; [done|].
    destruct Hfound as [?|[stored ->]]; [done|].
    unfold bind. destruct (loadFromDatabase env stored w) as [[[]| |] w']; [|done|done].
    apply init_returns_active. }
  unfold loadIfNotActive at 1, bind, this. simpl. by rewrite Hactive.
Qed.

(** X12. Loading a row puts the stored entries after the history in
    memory, each with the clock as its time. When every awaited call
    resolves, the conversation ends active and the calls before the
    timeout is armed are, in this order: the history sent to the other
    clusters, exactly when the row had a history array; [fetchUser] for
    the user; and the row written again, as a new one, exactly when
    nothing was loaded into an empty history. *)
Theorem loadIfNotActive_found env stored c :
  all_resolve env →
  active c = false →
  (loadIfNotActive env (Some stored) (world c)).1 = Return tt
  ∧ active (conv (loadIfNotActive env (Some stored) (world c)).2) = true
  ∧ history (conv (loadIfNotActive env (Some stored) (world c)).2)
    = history c ++ (entryFromDatabase (now env) <$> default [] stored)
  ∧ event <$> log (loadIfNotActive env (Some stored) (world c)).2
    = (if stored is Some _
       then [EBroadcast (user_id c)
               (stripForBroadcast
                  <$> (history c ++ (entryFromDatabase (now env) <$> default [] stored)))
               (cluster_id env)]
       else [])
      ++ [EFetchUser (user_id c)]
      ++ (if bool_decide (history c ++ default [] stored = [])
          then [EUpdateConversation
                  {[ "created" := VNum (now env); "id" := VStr (user_id c);
                     "active" := VBool true; "history" := VNull ]}]
          else [])
      ++ (if timer c is Some _ then [EClearTimeout] else [])
      ++ [ESetTimeout (Z.max (ttl c) 0)].
Proof.
  intros Hall Ha.
  rewrite loadIfNotActive_inactive by done.
  unfold bind. rewrite loadFromDatabase_eq.
  destruct stored as [entries|]; simpl.
  - rewrite Hall, init_eq, Hall. simpl.
    destruct (history c) as [|i h] eqn:Hh; simpl.
    + destruct entries as [|e entries]; simpl.
      * rewrite Hall. simpl. unfold rearm_log. simpl.
        repeat split; try done. destruct (timer c); by simpl.
      * unfold rearm_log. simpl.
        repeat split; try done. destruct (timer c); by simpl.
    + unfold rearm_log. simpl.
      repeat split; try done. destruct (timer c); by simpl.
  - rewrite init_eq, Hall. simpl. rewrite app_nil_r.
    destruct (history c) as [|i h] eqn:Hh; simpl.
    + rewrite Hall. unfold rearm_log. simpl.
      repeat split; try done. destruct (timer c); by simpl.
    + unfold rearm_log. simpl.
      repeat split; try done. destruct (timer c); by simpl.
Qed.

End Load.

Lemma loadIfNotActive_once_witness :
  loadIfNotActive (codec := plainCodec)
    (sample_env (succeeds_after 0 rate_limit) plain_model) None
    (loadIfNotActive (codec := plainCodec)
       (sample_env (succeeds_after 0 rate_limit) plain_model) (Some sample_row)
       (world fresh)).2
  = (Return tt,
     (loadIfNotActive (codec := plainCodec)
        (sample_env (succeeds_after 0 rate_limit) plain_model) (Some sample_row)
        (world fresh)).2).
Proof.
  apply (loadIfNotActive_once (codec := plainCodec)
           (sample_env (succeeds_after 0 rate_limit) plain_model)
           (sample_env (succeeds_after 0 rate_limit) plain_model)
           (Some sample_row) None (world fresh)).
  - reflexivity.
  - right. by eexists.
Defined.

Lemma loadIfNotActive_found_witness :
  (loadIfNotActive (codec := plainCodec)
     (sample_env (succeeds_after 0 rate_limit) plain_model) (Some sample_row)
     (world fresh)).1 = Return tt
  ∧ active (conv (loadIfNotActive (codec := plainCodec)
                    (sample_env (succeeds_after 0 rate_limit) plain_model)
                    (Some sample_row) (world fresh)).2) = true
  ∧ history (conv (loadIfNotActive (codec := plainCodec)
                     (sample_env (succeeds_after 0 rate_limit) plain_model)
                     (Some sample_row) (world fresh)).2)
    = history fresh
      ++ (entryFromDatabase (codec := plainCodec)
            (now (sample_env (succeeds_after 0 rate_limit) plain_model))
            <$> default [] sample_row)
  ∧ event <$> log (loadIfNotActive (codec := plainCodec)
                     (sample_env (succeeds_after 0 rate_limit) plain_model)
                     (Some sample_row) (world fresh)).2
    = (if sample_row is Some _
       then [EBroadcast (user_id fresh)
               (stripForBroadcast
                  <$> (history fresh
                       ++ (entryFromDatabase (codec := plainCodec)
                             (now (sample_env (succeeds_after 0 rate_limit) plain_model))
                             <$> default [] sample_row)))
               (cluster_id (sample_env (succeeds_after 0 rate_limit) plain_model))]
       else [])
      ++ [EFetchUser (user_id fresh)]
      ++ (if bool_decide (history fresh ++ default [] sample_row = [])
          then [EUpdateConversation
                  {[ "created" :=
                       VNum (now (sample_env (succeeds_after 0 rate_limit) plain_model));
                     "id" := VStr (user_id fresh);
                     "active" := VBool true; "history" := VNull ]}]
          else [])
      ++ (if timer fresh is Some _ then [EClearTimeout] else [])
      ++ [ESetTimeout (Z.max (ttl fresh) 0)].
Proof.
  apply (loadIfNotActive_found (codec := plainCodec)
           (sample_env (succeeds_after 0 rate_limit) plain_model) sample_row fresh).
  - intros e. reflexivity.
  - reflexivity.
Defined.

Section Resave.
Context {codec : ImageCodec} (Hrev : reversible codec).

(** A message that was stored and loaded is stored again as it was. *)
Lemma message_resave (message : JsValue) :
  isResponseMessage message = true →
  responseMessageToDatabase (databaseToResponseMessage (responseMessageToDatabase message))
  = responseMessageToDatabase message.
Proof.
  destruct message as [| | | | | | | |o]; try discriminate.
  unfold isResponseMessage. intros Hty.
  unfold databaseToResponseMessage, responseMessageToDatabase.
  cbn [get spread]. rewrite !field_insert, !insert_insert_eq.
  destruct (o !! "images") as [images|] eqn:Himages.
  - assert (field "images" o = images) as -> by (unfold field; by rewrite Himages).
    destruct images as [| | | | | | |l|]; try discriminate; [done|].
    cbn [truthy elements_of]. by rewrite (images_roundtrip Hrev).
  - assert (field "images" o = VUndefined) as -> by (unfold field; by rewrite Himages).
    done.
Qed.

(** X13. Storage is stable: an entry that was stored and loaded back is
    stored again exactly as it was the first time, [id] included, so a
    history survives any number of restarts unchanged. *)
Theorem stored_entry_stable (now : Z) (entry : JsObject) :
  isResponseMessage (field "output" entry) = true →
  entryToDatabase (entryFromDatabase now (entryToDatabase entry)) = entryToDatabase entry.
Proof.
  intros Hout. unfold entryToDatabase at 1.
  change (field "output" (entryFromDatabase now (entryToDatabase entry)))
    with (databaseToResponseMessage (responseMessageToDatabase (field "output" entry))).
  change (field "input" (entryFromDatabase now (entryToDatabase entry)))
    with (field "input" entry).
  rewrite (message_roundtrip Hrev) by done.
  by rewrite message_resave.
Qed.

End Resave.

Lemma stored_entry_stable_witness :
  entryToDatabase (codec := plainCodec)
    (entryFromDatabase (codec := plainCodec) 0
       (entryToDatabase (codec := plainCodec)
          (interaction (sample_env (succeeds_after 0 rate_limit) plain_model) sample_data)))
  = entryToDatabase (codec := plainCodec)
      (interaction (sample_env (succeeds_after 0 rate_limit) plain_model) sample_data).
Proof.
  apply (stored_entry_stable plainCodec_reversible). reflexivity.
Defined.

(** ** The cool-down notice *)


(** A window armed at the clock of the examples for 55 seconds: the
    notice names the second after its end. *)
Example cooldown_notice_second :
  embed_description
    <$> head (cooldownMessage Voter "shop" "bot" S754_nan (λ _, "?")
                (set_cooldown_state (Some (1700000000000, Number_of_Z 55000)) ready))
  = Some (slowDownNotice "1700000056").
Proof. vm_compute. reflexivity. Qed.

Section Notice.
Context {codec : ImageCodec}.

(** What a call that returned has armed. *)
Lemma generate_arms env c res :
  (generate env (world c)).1 = Return res →
  cooldown (conv (generate env (world c)).2)
  = if isOwner env c then cooldown c
    else {| options_time := options_time (cooldown c);
            state := Some (now env, armed_duration env c) |}.
Proof.
  intros Hret.
  destruct (active c) eqn:Ha; [destruct (generating c) eqn:Hg|].
  - destruct (generate_guarded env (world c)) as (e & He); [by right|]. by rewrite He in Hret.
  - destruct (generate_shape env c Ha Hg) as (l_loop & _ & Hout).
    destruct Hout as [([e He] & _)|[(He & _)
                     |(c_t & l_t & l & _ & Hframe & _ & tries & data & Hout)]];
      [by rewrite He in Hret|by rewrite He in Hret|].
    rewrite Hret in Hout. destruct Hout as (_ & _ & -> & _).
    destruct Hframe as (Hid & _ & _ & _ & Hcd & _). simpl in Hid, Hcd.
    unfold completed, isOwner, armed_duration, pushed in *. simpl.
    rewrite Hid. destruct (existsb _ (owner env)); simpl; by rewrite Hcd.
  - destruct (generate_guarded env (world c)) as (e & He); [by left|]. by rewrite He in Hret.
Qed.

(** X15. After a call of [generate] that returned, the notice names the
    second computed from the clock of that call and the duration
    [cooldownTime] gave: their sum plus 1000, divided by 1000 and
    floored. For an owner, whose cool-down the call does not arm, the
    notice is the one of before the call. *)
Theorem notice_after_generate env c res (subscriptionType : SubscriptionType)
    (shopURL botId : string) (unarmed : JsNumber) (other : JsNumber → string) :
  (generate env (world c)).1 = Return res →
  if isOwner env c
  then cooldownMessage subscriptionType shopURL botId unarmed other
         (conv (generate env (world c)).2)
       = cooldownMessage subscriptionType shopURL botId unarmed other c
  else cooldownMessage subscriptionType shopURL botId unarmed other
         (conv (generate env (world c)).2)
       = {| embed_title := Some "Whoa-whoa... slow down ⌛";
            embed_description :=
              slowDownNotice
                (Number_toString other
                   (Math_floor
                      (Number_div
                         (Number_add
                            (Number_add (Number_of_Z (now env))
                               (cooldownTime (subscription env) (options_time (cooldown c))
                                  (model env)))
                            (Number_of_Z 1000))
                         (Number_of_Z 1000))));
            embed_color := "Yellow" |}
         :: additionalEmbeds subscriptionType shopURL botId.
Proof.
  intros Hret. unfold cooldownMessage, windowEnd.
  rewrite (generate_arms env c res Hret).
  by destruct (isOwner env c).
Qed.

End Notice.

Lemma notice_after_generate_witness :
  cooldownMessage Voter "shop" "bot" S754_nan (λ _, "?")
    (conv (generate (codec := plainCodec)
             (sample_env (succeeds_after 0 rate_limit) plain_model) (world ready)).2)
  = {| embed_title := Some "Whoa-whoa... slow down ⌛";
       embed_description :=
         slowDownNotice
           (Number_toString (λ _, "?")
              (Math_floor
                 (Number_div
                    (Number_add
                       (Number_add
                          (Number_of_Z
                             (now (sample_env (succeeds_after 0 rate_limit) plain_model)))
                          (cooldownTime
                             (subscription
                                (sample_env (succeeds_after 0 rate_limit) plain_model))
                             (options_time (cooldown ready))
                             (model (sample_env (succeeds_after 0 rate_limit) plain_model))))
                       (Number_of_Z 1000))
                    (Number_of_Z 1000))));
       embed_color := "Yellow" |}
    :: additionalEmbeds Voter "shop" "bot".
Proof.
  apply (notice_after_generate (codec := plainCodec)
           (sample_env (succeeds_after 0 rate_limit) plain_model) ready
           (<["tries" := VNum 0]>
              (interaction (sample_env (succeeds_after 0 rate_limit) plain_model)
                 sample_data))
           Voter "shop" "bot" S754_nan (λ _, "?")).
  reflexivity.
Defined.

(** ** Settings of a conversation *)

(** X16. [setting] answers the first element of the array with the
    stored identifier; when no element has it (an identifier that is no
    longer offered, say) it falls back on the first element of the
    array, and only for an empty array does it answer nothing. What it
    answers is always an element of the array. *)
Theorem setting_first_match_or_default {T : Type} (id_of : T → string)
    (arr : list T) (id : string) :
  match setting id_of arr id with
  | Some model =>
      (∃ before after,
         arr = before ++ model :: after
         ∧ id_of model = id
         ∧ Forall (λ m, id_of m ≠ id) before)
      ∨ (head arr = Some model ∧ Forall (λ m, id_of m ≠ id) arr)
  | None => arr = []
  end.
Proof.
  unfold setting.
  assert (∀ l, match List.find (λ m, String.eqb (id_of m) id) l with
               | Some model => ∃ before after,
                   l = before ++ model :: after ∧ id_of model = id
                   ∧ Forall (λ m, id_of m ≠ id) before
               | None => Forall (λ m, id_of m ≠ id) l
               end) as Hfind.
  { induction l as [|m l IH]; simpl; [done|].
    destruct (String.eqb (id_of m) id) eqn:Hm.
    - apply String.eqb_eq in Hm. by exists [], l.
    - apply String.eqb_neq in Hm.
      destruct (List.find _ l) as [model|].
      + destruct IH as (before & after & -> & Hid & Hbefore).
        exists (m :: before), after. repeat split; [done|]. by constructor.
      + by constructor. }
  specialize (Hfind arr).
  destruct (List.find _ arr) as [model|]; [by left|].
  destruct arr as [|first rest]; simpl; [done|]. by right.
Qed.

(** X17. Changing the model or the tone wipes the conversation: the row
    is deleted and the history in memory emptied before the setting is
    stored. When [changeSetting] returns, the conversation is inactive
    and every [generate] is refused until it is initialised again; when
    storing the setting rejects, the conversation has been wiped all the
    same. *)
Theorem changeSetting_wipes {codec : ImageCodec} (env env' : Env)
    (apply : option JsError) (c : Conversation) :
  history (conv (changeSetting env apply (world c)).2) = []
  ∧ match (changeSetting env apply (world c)).1 with
    | Return _ =>
        apply = None
        ∧ rejects env (EDeleteConversation (user_id c)) = None
        ∧ generate env' (world (conv (changeSetting env apply (world c)).2))
          = (Throw (Error "Conversation is inactive"),
             world (conv (changeSetting env apply (world c)).2))
    | Throw error =>
        rejects env (EDeleteConversation (user_id c)) = Some error
        ∨ (rejects env (EDeleteConversation (user_id c)) = None
           ∧ apply = Some error
           ∧ active (conv (changeSetting env apply (world c)).2) = false)
    | OutOfFuel => False
    end
  ∧ ∃ l, event <$> log (changeSetting env apply (world c)).2
         = l ++ [EDeleteConversation (user_id c)].
Proof.
  unfold changeSetting, bind. rewrite reset_eq. unfold reset_call. simpl.
  destruct (rejects env _) as [error|]; simpl.
  - split; [done|]. split; [by left|].
    rewrite fmap_app. simpl. by eexists.
  - destruct apply as [error|]; simpl.
    + split; [done|]. split; [by right|]. rewrite fmap_app. simpl. by eexists.
    + split; [done|]. split; [done|]. rewrite fmap_app. simpl. by eexists.
Qed.

(** * The commands *)

(** ** The summarize command *)

Section SummarizerFits.
Context (countChatMessageTokens : list OpenAIChatMessage → Z) (systemContent : string).

(** A prompt the builder answers is within the budget and made of a
    leading run of the subtitles. *)
Lemma buildSummarizerPrompt_fits (subtitles : list YouTubeSubtitle) (prompt : SummaryPrompt) :
  buildSummarizerPrompt countChatMessageTokens systemContent subtitles = inr prompt →
  tokens prompt ≤ 4000
  ∧ tokens prompt = countChatMessageTokens (messages prompt)
  ∧ ∃ n, messages prompt = summarizerMessages systemContent (take n subtitles).
Proof.
  remember (length subtitles) as len eqn:Hlen.
  revert subtitles Hlen.
  induction len as [len IH] using lt_wf_ind. intros subtitles Hlen.
  rewrite buildSummarizerPrompt_branches.
  destruct (4000 <? _) eqn:Hover; simpl.
  - case_bool_decide as Hnil; [done|]. intros Hbuild.
    assert (length (removelast subtitles) < len)%nat as Hlt
      by (rewrite length_removelast; lia).
    destruct (IH _ Hlt (removelast subtitles) eq_refl Hbuild) as (Hfit & Htok & n & Hn).
    split; [done|]. split; [done|].
    destruct (decide (n < length subtitles)%nat) as [Hlt'|Hge].
    + exists n. by rewrite <- take_removelast.
    + exists (length subtitles - 1)%nat. rewrite Hn.
      rewrite <- (take_removelast subtitles (length subtitles - 1)) by lia.
      rewrite !take_ge; [done| |]; rewrite length_removelast; lia.
  - intros [= <-]. simpl. split; [by apply Z.ltb_ge in Hover|]. split; [done|].
    exists (length subtitles). by rewrite firstn_all.
Qed.

End SummarizerFits.

(** What the menu offers is short and comes from the search. *)
Lemma menu_short (found : list SummarizeCommand.YouTubeVideo) :
  Forall (λ video, SummarizeCommand.duration_seconds video ≤ 900)
    (SummarizeCommand.searchResults found)
  ∧ sublist (SummarizeCommand.searchResults found) found.
Proof.
  unfold SummarizeCommand.searchResults, SummarizeCommand.SUMMARIZE_MAX_VIDEO_DURATION.
  split.
  - apply Forall_take. induction found as [|v found IH]; [done|].
    rewrite filter_cons. case_decide; [constructor; [lia|done]|done].
  - etrans; [apply sublist_take|apply sublist_filter].
Qed.

(** X18. The menu offers at most 25 videos, none longer than fifteen
    minutes, in the order of the search: the first 25 of the search
    results that are short enough. It is empty only when every video
    found is too long. *)
Theorem menu_offers_short_videos (found : list SummarizeCommand.YouTubeVideo) :
  (length (SummarizeCommand.searchResults found) ≤ 25)%nat
  ∧ Forall (λ video, SummarizeCommand.duration_seconds video ≤ 900)
      (SummarizeCommand.searchResults found)
  ∧ sublist (SummarizeCommand.searchResults found) found
  ∧ (SummarizeCommand.searchResults found = []
     ↔ Forall (λ video, 900 < SummarizeCommand.duration_seconds video) found).
Proof.
  split; [unfold SummarizeCommand.searchResults; rewrite length_take; lia|].
  split; [apply menu_short|]. split; [apply menu_short|].
  unfold SummarizeCommand.searchResults, SummarizeCommand.SUMMARIZE_MAX_VIDEO_DURATION.
  induction found as [|v found IH]; [done|].
  rewrite filter_cons. case_decide as Hv; simpl.
  - split; [done|]. intros Hall. apply Forall_cons in Hall as [Hlong _]. lia.
  - rewrite Forall_cons. split.
    + intros Hnil. split; [lia|]. by apply IH.
    + intros [_ Hall]. by apply IH in Hall.
Qed.

(** The inner [try] of [run] answers a summary only at the end of its
    body. *)
Lemma summarize_final bot results type id calls video text fields :
  SummarizeCommand.summarize bot results type id
  = (calls, inr (Some (SummarizeCommand.FinalResponse video text fields))) →
  ∃ subs prompt summary_type,
    List.find (λ v, String.eqb (SummarizeCommand.videoId v) id) results = Some video
    ∧ type = Some summary_type
    ∧ SummarizeCommand.subtitles bot id = inr subs ∧ subs ≠ []
    ∧ buildSummarizerPrompt (SummarizeCommand.countChatMessageTokens bot)
        (SummarizeCommand.systemContent bot video summary_type) subs = inr prompt
    ∧ SummarizeCommand.openAI bot (messages prompt) = inr text
    ∧ SummarizeCommand.expenseForSummary bot = inr tt
    ∧ calls = [SummarizeCommand.Subtitles id; SummarizeCommand.StatusUpdate;
               SummarizeCommand.OpenAI (messages prompt);
               SummarizeCommand.ExpenseForSummary (Some video) prompt
                 (SummarizeCommand.getPromptLength bot text)]
    ∧ fields = if bool_decide (SummarizeCommand.name summary_type = "Long")
               then [] else [("Summarized in", SummarizeCommand.name summary_type)].
Proof.
  unfold SummarizeCommand.summarize.
  destruct (List.find _ results) as [v|] eqn:Hfind.
  - destruct (SummarizeCommand.subtitles bot id) as [error|subs] eqn:Hsubs; simpl.
    { destruct (SummarizeCommand.isLength error); [done|].
      destruct (SummarizeCommand.isTranscriptError bot error); [done|].
      simpl. by destruct (SummarizeCommand.handle bot error). }
    case_bool_decide as Hlen; [done|].
    destruct type as [t|]; simpl.
    + destruct (buildSummarizerPrompt _ _ subs) as [error|prompt] eqn:Hbuild; simpl.
      { destruct (generationTypeIs error Length); [done|].
        destruct (includes _ _); [done|].
        simpl. by destruct (SummarizeCommand.handle bot _). }
      destruct (SummarizeCommand.openAI bot (messages prompt)) as [error|summary] eqn:Hai;
        simpl.
      { destruct (SummarizeCommand.isLength error); [done|].
        destruct (SummarizeCommand.isTranscriptError bot error); [done|].
        simpl. by destruct (SummarizeCommand.handle bot error). }
      destruct (SummarizeCommand.expenseForSummary bot) as [error|[]] eqn:Hexp; simpl.
      { destruct (SummarizeCommand.isLength error); [done|].
        destruct (SummarizeCommand.isTranscriptError bot error); [done|].
        simpl. by destruct (SummarizeCommand.handle bot error). }
      intros [= <- <- <- <-].
      exists subs, prompt, t. repeat split; try done.
      * intros ->. by apply Hlen.
      * repeat case_bool_decide; congruence.
    + destruct (includes _ _); [done|].
      simpl. by destruct (SummarizeCommand.handle bot _).
  - destruct (SummarizeCommand.subtitles bot id) as [error|subs] eqn:Hsubs; simpl.
    { destruct (SummarizeCommand.isLength error); [done|].
      destruct (SummarizeCommand.isTranscriptError bot error); [done|].
      simpl. by destruct (SummarizeCommand.handle bot error). }
    case_bool_decide as Hlen; simpl.
    + destruct (includes _ _); [done|].
      simpl. by destruct (SummarizeCommand.handle bot _).
    + destruct (includes _ _); [done|].
      simpl. by destruct (SummarizeCommand.handle bot _).
Qed.

(** How [run] comes to the menu, and what it does from there. *)
Lemma run_cases bot query summaryName :
  (String.length query = 0%nat
   ∧ SummarizeCommand.run bot query summaryName
     = ([], inr (Some (SummarizeCommand.ErrorResponse
                         "You specified an invalid YouTube query"))))
  ∨ (∃ error, SummarizeCommand.check bot = inl error
       ∧ SummarizeCommand.run bot query summaryName
         = ([SummarizeCommand.Check query], inl error))
  ∨ (SummarizeCommand.check bot = inr true
       ∧ SummarizeCommand.run bot query summaryName
         = ([SummarizeCommand.Check query; SummarizeCommand.Message],
            match SummarizeCommand.message bot with
            | inl error => inl error
            | inr _ => inr (Some SummarizeCommand.ModerationMessage)
            end))
  ∨ (String.length query ≠ 0%nat
     ∧ SummarizeCommand.check bot = inr false
     ∧ ((∃ error, SummarizeCommand.search bot = inl error
           ∧ SummarizeCommand.run bot query summaryName
             = ([SummarizeCommand.Check query; SummarizeCommand.DeferReply;
                 SummarizeCommand.Search query], inl error))
        ∨ ∃ found, SummarizeCommand.search bot = inr found
            ∧ ((SummarizeCommand.searchResults found = []
                ∧ SummarizeCommand.run bot query summaryName
                  = ([SummarizeCommand.Check query; SummarizeCommand.DeferReply;
                      SummarizeCommand.Search query],
                     inr (Some (SummarizeCommand.ErrorResponse
                       "There are no search results for the specified query"))))
               ∨ (SummarizeCommand.searchResults found ≠ []
                  ∧ ∃ rest,
                      SummarizeCommand.run bot query summaryName
                      = ([SummarizeCommand.Check query; SummarizeCommand.DeferReply;
                          SummarizeCommand.Search query;
                          SummarizeCommand.Send
                            (SummarizeCommand.videoId
                               <$> SummarizeCommand.searchResults found)] ++ rest.1,
                         rest.2)
                      ∧ ((∃ error, SummarizeCommand.send bot = inl error
                                   ∧ rest = ([], inl error))
                         ∨ rest = ([], inr None)
                         ∨ (SummarizeCommand.send bot = inr true
                            ∧ ((rest.1 = [SummarizeCommand.AwaitMessageComponent]
                                ∧ rest.2 = inr None)
                               ∨ ∃ id inner,
                                   SummarizeCommand.summarize bot
                                     (SummarizeCommand.searchResults found)
                                     (SummarizeCommand.summaryType summaryName) id
                                   = inner
                                   ∧ rest.1 = SummarizeCommand.AwaitMessageComponent
                                              :: inner.1
                                   ∧ ((∃ r, inner.2 = inr r ∧ rest.2 = inr r)
                                      ∨ (rest.2 = inr None
                                         ∧ ∃ error, inner.2 = inl error))))))))).
Proof.
  unfold SummarizeCommand.run.
  case_bool_decide as Hq; [by left|]. right.
  destruct (SummarizeCommand.check bot) as [error|[]] eqn:Hcheck; simpl.
  { left. by exists error. }
  { right. left. split; [done|]. by destruct (SummarizeCommand.message bot). }
  right. right. split; [done|]. split; [done|].
  destruct (SummarizeCommand.search bot) as [error|found] eqn:Hsearch; simpl.
  { left. by exists error. }
  right. exists found. split; [done|].
  case_bool_decide as Hres; simpl.
  { left. split; [by apply nil_length_inv|done]. }
  right. split; [by intros Hnil; rewrite Hnil in Hres|].
  destruct (SummarizeCommand.send bot) as [error|[]] eqn:Hsend; simpl.
  - exists ([], inl error). split; [done|]. left. by exists error.
  - destruct (SummarizeCommand.awaitMessageComponent bot _) as [error|id]; simpl.
    + eexists (_, _). split; [reflexivity|]. right. right. split; [done|]. by left.
    + destruct (SummarizeCommand.summarize bot _ _ id) as [l [error|r]] eqn:Hinner; simpl.
      * eexists (_, _). split; [reflexivity|]. right. right. split; [done|]. right.
        exists id, (l, inl error). simpl. rewrite app_nil_r.
        split; [done|]. split; [done|]. right. split; [done|]. by exists error.
      * eexists (_, _). split; [reflexivity|]. right. right. split; [done|]. right.
        exists id, (l, inr r). simpl. split; [done|]. split; [done|]. left. by exists r.
  - exists ([], inr None). split; [done|]. right. by left.
Qed.

(** X19. A summary is shown only for a video of the search that is at
    most fifteen minutes long and has subtitles, from a prompt that is
    within 4000 tokens and made of a leading run of those subtitles, and
    only once it has been charged: the charge is the last call of the run.
    The field [Summarized in] is there unless the type is the first one. *)
Theorem summary_shown_is_charged bot query summaryName calls video text fields :
  SummarizeCommand.run bot query summaryName
  = (calls, inr (Some (SummarizeCommand.FinalResponse video text fields))) →
  ∃ found subs prompt type n,
    SummarizeCommand.search bot = inr found
    ∧ video ∈ found
    ∧ SummarizeCommand.duration_seconds video ≤ 900
    ∧ SummarizeCommand.subtitles bot (SummarizeCommand.videoId video) = inr subs
    ∧ subs ≠ []
    ∧ SummarizeCommand.summaryType summaryName = Some type
    ∧ messages prompt
      = summarizerMessages (SummarizeCommand.systemContent bot video type) (take n subs)
    ∧ tokens prompt ≤ 4000
    ∧ SummarizeCommand.openAI bot (messages prompt) = inr text
    ∧ SummarizeCommand.expenseForSummary bot = inr tt
    ∧ (∃ before,
         calls = before
                 ++ [SummarizeCommand.ExpenseForSummary (Some video) prompt
                       (SummarizeCommand.getPromptLength bot text)])
    ∧ fields = if bool_decide (SummarizeCommand.name type = "Long")
               then [] else [("Summarized in", SummarizeCommand.name type)].
Proof.
  intros Hrun.
  destruct (run_cases bot query summaryName)
    as [Hnil|[(error & _ & He)|[(_ & He)|(_ & _ & [(error & _ & He)|(found & Hfound & Hres)])]]].
  { destruct Hnil as [_ He]. by rewrite He in Hrun. }
  { by rewrite He in Hrun. }
  { rewrite He in Hrun. by destruct (SummarizeCommand.message bot). }
  { by rewrite He in Hrun. }
  destruct Hres as [(_ & He)|(Hne & rest & He & Hrest)]; [by rewrite He in Hrun|].
  rewrite He in Hrun.
  destruct Hrest as [(error & _ & ->)|[->|(_ & [(_ & Hr)|(id & inner & Hinner & Hl & Hr)])]];
    [done|done|by inversion Hrun; congruence|].
  destruct Hr as [(r & Hr & Hr')|(Hr & _)]; [|by inversion Hrun; congruence].
  assert (inner = (inner.1, inr (Some (SummarizeCommand.FinalResponse video text fields))))
    as Hfinal.
  { destruct inner as [l r']. simpl in *. inversion Hrun. congruence. }
  rewrite Hfinal in Hinner.
  apply summarize_final
    in Hinner as (subs & prompt & type & Hfind & Htype & Hsubs & Hnil & Hbuild & Hai
                  & Hexp & Hcalls & Hfields).
  apply find_some in Hfind as [Hin Hid]. apply String.eqb_eq in Hid. subst id.
  apply buildSummarizerPrompt_fits in Hbuild as (Hfit & _ & n & Hn).
  destruct (menu_short found) as (Hshort & Hsub).
  exists found, subs, prompt, type, n.
  split; [done|]. split.
  { apply (elem_of_sublist _ _ _ (proj2 (list_elem_of_In _ _) Hin) Hsub). }
  split.
  { rewrite Forall_forall in Hshort. apply Hshort. by apply list_elem_of_In. }
  repeat (split; [done|]). split; [|done].
  rewrite Hl, Hcalls in Hrun. injection Hrun as <- _.
  by eexists [_; _; _; _; _; _; _; _].
Qed.

Lemma summary_shown_is_charged_witness :
  ∃ found subs prompt type n,
    SummarizeCommand.search sample_bot = inr found
    ∧ short_video ∈ found
    ∧ SummarizeCommand.duration_seconds short_video ≤ 900
    ∧ SummarizeCommand.subtitles sample_bot (SummarizeCommand.videoId short_video) = inr subs
    ∧ subs ≠ []
    ∧ SummarizeCommand.summaryType (Some "Short") = Some type
    ∧ messages prompt
      = summarizerMessages (SummarizeCommand.systemContent sample_bot short_video type)
          (take n subs)
    ∧ tokens prompt ≤ 4000
    ∧ SummarizeCommand.openAI sample_bot (messages prompt) = inr "A summary."
    ∧ SummarizeCommand.expenseForSummary sample_bot = inr tt
    ∧ (∃ before,
         (SummarizeCommand.run sample_bot "a talk" (Some "Short")).1
         = before
           ++ [SummarizeCommand.ExpenseForSummary (Some short_video) prompt
                 (SummarizeCommand.getPromptLength sample_bot "A summary.")])
    ∧ [("Summarized in", "Short")]
      = if bool_decide (SummarizeCommand.name type = "Long")
        then [] else [("Summarized in", SummarizeCommand.name type)].
Proof.
  apply (summary_shown_is_charged sample_bot "a talk" (Some "Short")). reflexivity.
Defined.

(** X20. Once the menu has been sent, [run] never rejects: whatever is
    thrown while the choice is awaited, the subtitles are fetched, the
    summary is made and charged, or by the error handler itself, ends in
    a response or in none. A run rejects only with what the moderation
    check, the moderation notice, the search or the sending of the menu
    rejected with. *)
Theorem run_rejects_only_before_menu bot query summaryName error :
  (SummarizeCommand.run bot query summaryName).2 = inl error →
  SummarizeCommand.check bot = inl error
  ∨ SummarizeCommand.message bot = inl error
  ∨ SummarizeCommand.search bot = inl error
  ∨ SummarizeCommand.send bot = inl error.
Proof.
  intros Hrun.
  destruct (run_cases bot query summaryName)
    as [(_ & He)|[(e & Hc & He)|[(_ & He)|(_ & _ & [(e & Hs & He)|(found & Hfound & Hres)])]]].
  - by rewrite He in Hrun.
  - rewrite He in Hrun. left. simpl in Hrun. congruence.
  - rewrite He in Hrun. simpl in Hrun. right. left.
    by destruct (SummarizeCommand.message bot) as [e|]; [congruence|].
  - rewrite He in Hrun. simpl in Hrun. right. right. left. congruence.
  - destruct Hres as [(_ & He)|(Hne & rest & He & Hrest)]; [by rewrite He in Hrun|].
    rewrite He in Hrun. simpl in Hrun.
    destruct Hrest
      as [(e & Hsend & ->)|[->|(_ & [(_ & Hr)|(id & inner & Hinner & Hl & Hr)])]].
    + right. right. right. simpl in Hrun. congruence.
    + done.
    + congruence.
    + destruct Hr as [(r & _ & Hr)|(Hr & _)]; congruence.
Qed.

Lemma run_rejects_only_before_menu_witness :
  SummarizeCommand.check (search_down (JsThrown (Error "offline")))
  = inl (JsThrown (Error "offline"))
  ∨ SummarizeCommand.message (search_down (JsThrown (Error "offline")))
    = inl (JsThrown (Error "offline"))
  ∨ SummarizeCommand.search (search_down (JsThrown (Error "offline")))
    = inl (JsThrown (Error "offline"))
  ∨ SummarizeCommand.send (search_down (JsThrown (Error "offline")))
    = inl (JsThrown (Error "offline")).
Proof.
  apply (run_rejects_only_before_menu (search_down (JsThrown (Error "offline")))
           "a talk" None (JsThrown (Error "offline"))).
  reflexivity.
Defined.

(** X21. Nothing is searched, sent or charged for a query that is empty
    or that the moderation check has not cleared: every call of a run
    other than the check, the moderation notice and the deferral comes
    after a check that answered not blocked, for a query that is not
    empty. *)
Theorem nothing_searched_unless_cleared bot query summaryName c :
  c ∈ (SummarizeCommand.run bot query summaryName).1 →
  SummarizeCommand.beforeSearch c = false →
  String.length query ≠ 0%nat ∧ SummarizeCommand.check bot = inr false.
Proof.
  intros Hc Hnot.
  destruct (run_cases bot query summaryName)
    as [(_ & He)|[(e & _ & He)|[(_ & He)|(Hq & Hcheck & _)]]].
  - rewrite He in Hc. by apply elem_of_nil in Hc.
  - rewrite He in Hc. simpl in Hc. apply list_elem_of_singleton in Hc. by subst c.
  - rewrite He in Hc. simpl in Hc. rewrite !elem_of_cons in Hc.
    destruct Hc as [->|[->|Hc]]; [done|done|]. by apply elem_of_nil in Hc.
  - done.
Qed.

Lemma nothing_searched_unless_cleared_witness :
  String.length "a talk" ≠ 0%nat ∧ SummarizeCommand.check sample_bot = inr false.
Proof.
  apply (nothing_searched_unless_cleared sample_bot "a talk" None
           (SummarizeCommand.Search "a talk")).
  - right. right. left.
  - reflexivity.
Defined.

(** ** The settings command *)

(** One turn of the loop: it stops exactly on a value that is not
    allowed, and otherwise records the value if it differs from the
    stored one. *)
Lemma visit_cases given changes opt :
  match SettingsCommand.param given (SettingsCommand.key opt) with
  | Some value =>
      if SettingsCommand.isNullish value
      then SettingsCommand.visit given changes opt = inr changes
      else if SettingsCommand.allowed given opt value
      then SettingsCommand.visit given changes opt
           = inr (if SettingsCommand.looseNe given
                       (SettingsCommand.stored given (SettingsCommand.settingsString opt))
                       value
                  then <[SettingsCommand.settingsString opt := value]> changes
                  else changes)
      else ∃ response, SettingsCommand.visit given changes opt = inl response
                       ∧ if response is SettingsCommand.Settings _ then False else True
  | None => SettingsCommand.visit given changes opt = inr changes
  end.
Proof.
  unfold SettingsCommand.visit, SettingsCommand.allowed.
  destruct (SettingsCommand.param given _) as [value|]; [|done].
  destruct (SettingsCommand.isNullish value); [done|].
  destruct (SettingsCommand.class opt) as [choices|valid|].
  - destruct (List.find _ choices) as [chosen|]; [|by eexists].
    destruct (SettingsCommand.choice_premium chosen), (SettingsCommand.premium given);
      simpl; try (by eexists); by destruct (SettingsCommand.looseNe _ _ _).
  - destruct (valid value); simpl; [|by eexists].
    by destruct (SettingsCommand.looseNe _ _ _).
  - by destruct (SettingsCommand.looseNe _ _ _).
Qed.

(** The loop, when it runs to its end. *)
Lemma visitAll_changes given options : ∀ before changes,
  SettingsCommand.visitAll given before options = inr changes →
  (∀ k v, changes !! k = Some v →
     before !! k = Some v
     ∨ ∃ opt, opt ∈ options ∧ SettingsCommand.settingsString opt = k
              ∧ SettingsCommand.param given (SettingsCommand.key opt) = Some v
              ∧ SettingsCommand.isNullish v = false
              ∧ SettingsCommand.looseNe given (SettingsCommand.stored given k) v = true)
  ∧ (∀ k, is_Some (before !! k) → is_Some (changes !! k))
  ∧ (∀ opt v, opt ∈ options →
       SettingsCommand.param given (SettingsCommand.key opt) = Some v →
       SettingsCommand.isNullish v = false →
       SettingsCommand.allowed given opt v = true
       ∧ (SettingsCommand.looseNe given
            (SettingsCommand.stored given (SettingsCommand.settingsString opt)) v = true →
          is_Some (changes !! SettingsCommand.settingsString opt))).
Proof.
  induction options as [|opt options IH]; intros before changes; simpl.
  { intros [= <-]. split; [by left|]. split; [done|].
    intros opt v Hin. by apply elem_of_nil in Hin. }
  pose proof (visit_cases given before opt) as Hvisit.
  destruct (SettingsCommand.visit given before opt) as [response|next] eqn:Hnext; [done|].
  intros Hrest. destruct (IH _ _ Hrest) as (Hsound & Hkeep & Hall).
  assert (∀ k, is_Some (before !! k) → is_Some (next !! k)) as Hgrow.
  { intros k Hk. destruct (SettingsCommand.param given _) as [value|]; [|congruence].
    destruct (SettingsCommand.isNullish value); [congruence|].
    destruct (SettingsCommand.allowed given opt value); [|by destruct Hvisit as (? & ? & ?)].
    injection Hvisit as ->. destruct (SettingsCommand.looseNe _ _ _); [|done].
    destruct (decide (SettingsCommand.settingsString opt = k)) as [->|Hne].
    - by rewrite lookup_insert_eq.
    - by rewrite lookup_insert_ne. }
  split; [|split].
  - intros k v Hk. destruct (Hsound k v Hk) as [Hn|(o & Ho & Hrest')].
    + destruct (SettingsCommand.param given _) as [value|] eqn:Hparam;
        [|left; congruence].
      destruct (SettingsCommand.isNullish value) eqn:Hnull; [left; congruence|].
      destruct (SettingsCommand.allowed given opt value); [|by destruct Hvisit as (? & ? & ?)].
      injection Hvisit as ->.
      destruct (SettingsCommand.looseNe _ _ _) eqn:Hne; [|by left].
      destruct (decide (SettingsCommand.settingsString opt = k)) as [<-|Hk'].
      * rewrite lookup_insert_eq in Hn. injection Hn as <-. right.
        exists opt. split; [left|]. done.
      * rewrite lookup_insert_ne in Hn by done. by left.
    + right. exists o. split; [by right|done].
  - intros k Hk. by apply Hkeep, Hgrow.
  - intros o v Hin Hparam Hnull. apply elem_of_cons in Hin as [->|Hin].
    + rewrite Hparam, Hnull in Hvisit.
      destruct (SettingsCommand.allowed given opt v); [|by destruct Hvisit as (? & ? & ?)].
      split; [done|]. intros Hne. rewrite Hne in Hvisit. injection Hvisit as ->.
      apply Hkeep. by rewrite lookup_insert_eq.
    + by apply Hall.
Qed.

(** The loop, when it stops early: on a value that is not allowed. *)
Lemma visitAll_stops given options : ∀ before response,
  SettingsCommand.visitAll given before options = inl response →
  (if response is SettingsCommand.Settings _ then False else True)
  ∧ ∃ opt v, opt ∈ options
           ∧ SettingsCommand.param given (SettingsCommand.key opt) = Some v
           ∧ SettingsCommand.isNullish v = false
           ∧ SettingsCommand.allowed given opt v = false.
Proof.
  induction options as [|opt options IH]; intros before response; simpl; [done|].
  pose proof (visit_cases given before opt) as Hvisit.
  destruct (SettingsCommand.visit given before opt) as [r|next] eqn:Hnext.
  - intros [= <-]. destruct (SettingsCommand.param given _) as [value|] eqn:Hparam; [|done].
    destruct (SettingsCommand.isNullish value) eqn:Hnull; [done|].
    destruct (SettingsCommand.allowed given opt value) eqn:Hallowed; [done|].
    destruct Hvisit as (r' & [= <-] & Hr). split; [done|].
    exists opt, value. split; [left|]. done.
  - intros Hrest. destruct (IH _ _ Hrest) as (Hr & o & v & Hin & Hrest').
    split; [done|]. exists o, v. split; [by right|done].
Qed.

(** X22. Settings are changed all together or not at all. Either one of
    the values given is not allowed (not a choice of its option, not
    valid, or a choice restricted to Premium for a user without it):
    then [run] answers an error response and has called nothing, so
    nothing is stored, not even the values that came before it. Or every
    value given is allowed: then the changes are values that were given
    and differ from the stored ones, every such value of an option is
    among them under the option's setting, [settings.apply] is called
    once with all of them, or not at all when there are none, and [run]
    answers the settings, unless that one call rejects, in which case
    [run] rejects with its error. *)
Theorem settings_all_or_nothing (given : SettingsCommand.Given) :
  ((∃ opt v, SettingsCommand.specified given opt v
             ∧ SettingsCommand.allowed given opt v = false)
   ∧ (SettingsCommand.run given).1 = []
   ∧ ∃ response, (SettingsCommand.run given).2 = inr response
                 ∧ if response is SettingsCommand.Settings _ then False else True)
  ∨ (∃ changes,
       (∀ opt v, SettingsCommand.specified given opt v →
          SettingsCommand.allowed given opt v = true)
       ∧ (∀ k v, changes !! k = Some v →
            ∃ opt, SettingsCommand.specified given opt v
                   ∧ SettingsCommand.settingsString opt = k
                   ∧ SettingsCommand.looseNe given (SettingsCommand.stored given k) v
                     = true)
       ∧ (∀ opt v, SettingsCommand.specified given opt v →
            SettingsCommand.looseNe given
              (SettingsCommand.stored given (SettingsCommand.settingsString opt)) v = true →
            is_Some (changes !! SettingsCommand.settingsString opt))
       ∧ (SettingsCommand.run given).1
         = (if bool_decide (changes = ∅) then [] else [SettingsCommand.Apply changes])
       ∧ (SettingsCommand.run given).2
         = match SettingsCommand.apply given with
           | Some error =>
               if bool_decide (changes = ∅)
               then inr (SettingsCommand.Settings (SettingsCommand.format given changes))
               else inl error
           | None => inr (SettingsCommand.Settings (SettingsCommand.format given changes))
           end).
Proof.
  unfold SettingsCommand.run.
  destruct (SettingsCommand.visitAll given ∅ (SettingsCommand.options given))
    as [response|changes] eqn:Hloop.
  - left. apply visitAll_stops in Hloop as (Hr & opt & v & Hin & Hparam & Hnull & Hallowed).
    split; [by exists opt, v|]. split; [done|]. by exists response.
  - right. apply visitAll_changes in Hloop as (Hsound & _ & Hall).
    exists changes. split; [|split; [|split]].
    + intros opt v (Hin & Hparam & Hnull). by apply (Hall opt v).
    + intros k v Hk. destruct (Hsound k v Hk) as [Hempty|(opt & Hin & Hrest)].
      { by rewrite lookup_empty in Hempty. }
      exists opt. destruct Hrest as (Hkey & Hparam & Hnull & Hne). by repeat split.
    + intros opt v (Hin & Hparam & Hnull). by apply (Hall opt v).
    + case_bool_decide as Hsize; simpl.
      * rewrite bool_decide_eq_false_2
          by (intros ->; rewrite map_size_empty in Hsize; lia).
        by destruct (SettingsCommand.apply given).
      * rewrite bool_decide_eq_true_2 by (apply map_size_empty_iff; lia).
        by destruct (SettingsCommand.apply given).
Qed.

(** A run that answers the settings has run the loop to its end. *)
Lemma run_settings given embed :
  (SettingsCommand.run given).2 = inr (SettingsCommand.Settings embed) →
  ∃ changes,
    SettingsCommand.visitAll given ∅ (SettingsCommand.options given) = inr changes
    ∧ embed = SettingsCommand.format given changes
    ∧ (SettingsCommand.run given).1
      = if bool_decide (0 < size changes)%nat then [SettingsCommand.Apply changes] else [].
Proof.
  unfold SettingsCommand.run.
  destruct (SettingsCommand.visitAll given ∅ (SettingsCommand.options given))
    as [response|changes] eqn:Hloop.
  - apply visitAll_stops in Hloop as (Hr & _). simpl. intros [= ->]. done.
  - case_bool_decide as Hsize; simpl.
    + destruct (SettingsCommand.apply given); simpl; [done|].
      intros [= <-]. exists changes. by rewrite bool_decide_eq_true_2.
    + intros [= <-]. exists changes. by rewrite bool_decide_eq_false_2.
Qed.

(** X23. The settings shown after a run have one field for each option of
    the category, in order. The fields of the options that were changed,
    and no others, show the new value between asterisks; the others show
    the stored value. The embed is orange without a footer exactly when
    changes were stored, and else has the colour of the bot and the
    footer. *)
Theorem changed_settings_are_shown given embed :
  (SettingsCommand.run given).2 = inr (SettingsCommand.Settings embed) →
  ∃ changes,
    (SettingsCommand.fields embed
     = (λ opt,
          (SettingsCommand.fieldName given opt,
           match changes !! SettingsCommand.settingsString opt with
           | Some value => "*" +:+ SettingsCommand.display given opt value +:+ "*"
           | None =>
               SettingsCommand.display given opt
                 (SettingsCommand.stored given (SettingsCommand.settingsString opt))
           end)) <$> SettingsCommand.options given)
    ∧ (((SettingsCommand.run given).1 = [SettingsCommand.Apply changes]
        ∧ SettingsCommand.color embed = "Orange"
        ∧ SettingsCommand.footer embed = None)
       ∨ ((SettingsCommand.run given).1 = []
          ∧ changes = ∅
          ∧ SettingsCommand.color embed = SettingsCommand.branding_color given
          ∧ is_Some (SettingsCommand.footer embed))).
Proof.
  intros Hrun. apply run_settings in Hrun as (changes & Hloop & -> & Hcalls).
  apply visitAll_changes in Hloop as (Hsound & _).
  exists changes. split.
  - unfold SettingsCommand.format. simpl. apply list_fmap_ext. intros i opt _.
    f_equal. destruct (changes !! SettingsCommand.settingsString opt) as [v|] eqn:Hv;
      simpl; [|done].
    destruct (Hsound _ _ Hv) as [Hempty|(o & _ & _ & _ & Hnull & _)].
    + by rewrite lookup_empty in Hempty.
    + by rewrite Hnull.
  - rewrite Hcalls. unfold SettingsCommand.format. simpl.
    case_bool_decide as Hsize.
    + left. split; [done|]. split; [done|].
      rewrite bool_decide_eq_false_2 by lia. done.
    + right. split; [done|]. split; [apply map_size_empty_iff; lia|]. split; [done|].
      rewrite bool_decide_eq_true_2 by lia. done.
Qed.

Lemma changed_settings_are_shown_witness :
  ∃ changes,
    (SettingsCommand.fields
       (SettingsCommand.format (sample_given language_only)
          {[ "general:language" := VStr "fr" ]})
     = (λ opt,
          (SettingsCommand.fieldName (sample_given language_only) opt,
           match changes !! SettingsCommand.settingsString opt with
           | Some value =>
               "*" +:+ SettingsCommand.display (sample_given language_only) opt value +:+ "*"
           | None =>
               SettingsCommand.display (sample_given language_only) opt
                 (SettingsCommand.stored (sample_given language_only)
                    (SettingsCommand.settingsString opt))
           end)) <$> SettingsCommand.options (sample_given language_only))
    ∧ (((SettingsCommand.run (sample_given language_only)).1
        = [SettingsCommand.Apply changes]
        ∧ SettingsCommand.color
            (SettingsCommand.format (sample_given language_only)
               {[ "general:language" := VStr "fr" ]}) = "Orange"
        ∧ SettingsCommand.footer
            (SettingsCommand.format (sample_given language_only)
               {[ "general:language" := VStr "fr" ]}) = None)
       ∨ ((SettingsCommand.run (sample_given language_only)).1 = []
          ∧ changes = ∅
          ∧ SettingsCommand.color
              (SettingsCommand.format (sample_given language_only)
                 {[ "general:language" := VStr "fr" ]})
            = SettingsCommand.branding_color (sample_given language_only)
          ∧ is_Some (SettingsCommand.footer
                       (SettingsCommand.format (sample_given language_only)
                          {[ "general:language" := VStr "fr" ]})))).
Proof.
  apply (changed_settings_are_shown (sample_given language_only)). reflexivity.
Defined.

(** ** The dall-e command *)

(** The [try] block makes its four calls in order and stops at the first
    that rejects. *)
Lemma deliver_cases bot prompt n :
  (∃ result,
     DallECommand.generateImages bot = inr result
     ∧ DallECommand.incrementInteractions bot = inr tt
     ∧ DallECommand.changeImageMetric bot = inr tt
     ∧ DallECommand.expenseForDallEImage bot = inr tt
     ∧ DallECommand.deliver bot prompt n
       = (DallECommand.deliverCalls prompt n,
          inr (DallECommand.Images prompt (DallECommand.duration result)
                 (DallECommand.attachments result))))
  ∨ (∃ error k,
       DallECommand.deliver bot prompt n
       = (take (S k) (DallECommand.deliverCalls prompt n), inl error)
       ∧ (k < 4)%nat
       ∧ (DallECommand.expenseForDallEImage bot = inr tt → k < 3)%nat).
Proof.
  unfold DallECommand.deliver, DallECommand.deliverCalls.
  destruct (DallECommand.generateImages bot) as [error|result]; simpl.
  { right. exists error, 0%nat. split; [done|]. lia. }
  destruct (DallECommand.incrementInteractions bot) as [error|[]]; simpl.
  { right. exists error, 1%nat. split; [done|]. lia. }
  destruct (DallECommand.changeImageMetric bot) as [error|[]]; simpl.
  { right. exists error, 2%nat. split; [done|]. lia. }
  destruct (DallECommand.expenseForDallEImage bot) as [error|[]]; simpl.
  { right. exists error, 3%nat. split; [done|]. split; [lia|done]. }
  left. by exists result.
Qed.

(** How [run] comes to its [try] block. *)
Lemma dalle_run_cases bot prompt count :
  (∃ error, DallECommand.run bot prompt count = ([DallECommand.Create], inl error)
            ∧ DallECommand.create bot = inl error)
  ∨ (∃ error, DallECommand.run bot prompt count
              = ([DallECommand.Create; DallECommand.DeferReply;
                  DallECommand.CheckImagePrompt prompt], inl error)
              ∧ DallECommand.checkImagePrompt bot = inl error)
  ∨ (DallECommand.checkImagePrompt bot = inr true
     ∧ DallECommand.run bot prompt count
       = ([DallECommand.Create; DallECommand.DeferReply;
           DallECommand.CheckImagePrompt prompt; DallECommand.Message],
          match DallECommand.message bot with
          | inl error => inl error
          | inr _ => inr DallECommand.ModerationMessage
          end))
  ∨ (DallECommand.create bot = inr tt
     ∧ DallECommand.checkImagePrompt bot = inr false
     ∧ DallECommand.run bot prompt count
       = ([DallECommand.Create; DallECommand.DeferReply;
           DallECommand.CheckImagePrompt prompt]
          ++ (tryCatch (DallECommand.deliver bot prompt (default 1 count))
                (DallECommand.report bot)).1,
          (tryCatch (DallECommand.deliver bot prompt (default 1 count))
             (DallECommand.report bot)).2)).
Proof.
  unfold DallECommand.run.
  destruct (DallECommand.create bot) as [error|[]]; simpl.
  { left. by exists error. }
  destruct (DallECommand.checkImagePrompt bot) as [error|[]]; simpl.
  { right. left. by exists error. }
  { right. right. left. split; [done|]. by destruct (DallECommand.message bot). }
  right. right. right. split; [done|]. split; [done|].
  by destruct (tryCatch _ _).
Qed.

(** What the [try] block and its [catch] come to together. *)
Lemma dalle_try_cases bot prompt n :
  (∃ result,
     DallECommand.generateImages bot = inr result
     ∧ DallECommand.expenseForDallEImage bot = inr tt
     ∧ tryCatch (DallECommand.deliver bot prompt n) (DallECommand.report bot)
       = (DallECommand.deliverCalls prompt n,
          inr (DallECommand.Images prompt (DallECommand.duration result)
                 (DallECommand.attachments result))))
  ∨ (∃ error k,
       DallECommand.rejected bot error
       ∧ (k < 4)%nat
       ∧ (DallECommand.expenseForDallEImage bot = inr tt → k < 3)%nat
       ∧ tryCatch (DallECommand.deliver bot prompt n) (DallECommand.report bot)
         = if DallECommand.isBadRequest bot error
           then (take (S k) (DallECommand.deliverCalls prompt n),
                 inr DallECommand.BlockedByOpenAI)
           else (take (S k) (DallECommand.deliverCalls prompt n)
                 ++ [DallECommand.Handle error],
                 match DallECommand.handle bot error with
                 | inl failure => inl failure
                 | inr _ => inr (DallECommand.Handled error)
                 end)).
Proof.
  unfold DallECommand.deliver, DallECommand.deliverCalls, DallECommand.rejected,
    DallECommand.report.
  destruct (DallECommand.generateImages bot) as [error|result]; simpl.
  { right. exists error, 0%nat. split; [by left|]. split; [lia|]. split; [lia|].
    destruct (DallECommand.isBadRequest bot error); simpl; [done|].
    by destruct (DallECommand.handle bot error). }
  destruct (DallECommand.incrementInteractions bot) as [error|[]]; simpl.
  { right. exists error, 1%nat. split; [by right; left|]. split; [lia|]. split; [lia|].
    destruct (DallECommand.isBadRequest bot error); simpl; [done|].
    by destruct (DallECommand.handle bot error). }
  destruct (DallECommand.changeImageMetric bot) as [error|[]]; simpl.
  { right. exists error, 2%nat. split; [by right; right; left|].
    split; [lia|]. split; [lia|].
    destruct (DallECommand.isBadRequest bot error); simpl; [done|].
    by destruct (DallECommand.handle bot error). }
  destruct (DallECommand.expenseForDallEImage bot) as [error|[]]; simpl.
  { right. exists error, 3%nat. split; [by right; right; right|].
    split; [lia|]. split; [done|].
    destruct (DallECommand.isBadRequest bot error); simpl; [done|].
    by destruct (DallECommand.handle bot error). }
  left. by exists result.
Qed.

(** X24. Nothing is generated, counted or charged for a prompt that the
    moderation check has not cleared: the calls that generate the images,
    increment the usage, change the metric and charge the plan are made
    only after the check answered not blocked. *)
Theorem no_cost_unless_cleared bot prompt count c :
  c ∈ (DallECommand.run bot prompt count).1 →
  DallECommand.costs c = true →
  DallECommand.create bot = inr tt ∧ DallECommand.checkImagePrompt bot = inr false.
Proof.
  intros Hc Hcost.
  destruct (dalle_run_cases bot prompt count)
    as [(e & He & _)|[(e & He & _)|[(_ & He)|(Hcreate & Hcheck & _)]]]; [| | |done].
  all: rewrite He in Hc; simpl in Hc; rewrite ?elem_of_cons in Hc.
  - destruct Hc as [->|Hc]; [done|]. by apply elem_of_nil in Hc.
  - destruct Hc as [->|[->|[->|Hc]]]; [done|done|done|]. by apply elem_of_nil in Hc.
  - destruct Hc as [->|[->|[->|[->|Hc]]]]; [done|done|done|done|].
    by apply elem_of_nil in Hc.
Qed.

Lemma no_cost_unless_cleared_witness :
  DallECommand.create sample_painter = inr tt
  ∧ DallECommand.checkImagePrompt sample_painter = inr false.
Proof.
  apply (no_cost_unless_cleared sample_painter "a cat" (Some 2)
           (DallECommand.ExpenseForDallEImage 2)).
  - do 6 right. left.
  - reflexivity.
Defined.

(** The [catch] block neither charges nor answers images. *)
Lemma report_cases bot error :
  (∀ l, filter (λ c, DallECommand.isExpense c = true)
          (l ++ (DallECommand.report bot error).1)
        = filter (λ c, DallECommand.isExpense c = true) l)
  ∧ (∀ l n, DallECommand.ExpenseForDallEImage n ∈ l ++ (DallECommand.report bot error).1 →
            DallECommand.ExpenseForDallEImage n ∈ l)
  ∧ ∀ p d a, (DallECommand.report bot error).2 ≠ inr (DallECommand.Images p d a).
Proof.
  unfold DallECommand.report.
  destruct (DallECommand.isBadRequest bot error); simpl.
  { split; [by intros l; rewrite app_nil_r|]. split; [|done].
    intros l n. by rewrite app_nil_r. }
  destruct (DallECommand.handle bot error) as [failure|[]]; simpl.
  - split; [intros l; by rewrite filter_app, app_nil_r|]. split; [|done].
    intros l n [Hn|Hn]%elem_of_app; [done|].
    apply elem_of_cons in Hn as [?|Hn]; [done|]. by apply elem_of_nil in Hn.
  - split; [intros l; by rewrite filter_app, app_nil_r|]. split; [|done].
    intros l n [Hn|Hn]%elem_of_app; [done|].
    apply elem_of_cons in Hn as [?|Hn]; [done|]. by apply elem_of_nil in Hn.
Qed.

(** X25. The images are delivered exactly when the plan has been charged.
    The charge is called exactly when the conversation was created, the
    moderation check cleared the prompt, the images were generated and
    both database calls before the charge, [incrementInteractions] and
    [changeImageMetric], resolved; it is called at most once in any run,
    and for the number of images asked for (1 when none was given). The
    run answers the images exactly when the charge was called and
    resolved, that is, when all of these calls resolved, and the charge
    is then its last call: when the charge, or one of the two database
    calls before it, rejects, the images that were generated are not
    delivered. *)
Theorem images_delivered_iff_charged bot prompt count :
  ((∃ n, DallECommand.ExpenseForDallEImage n ∈ (DallECommand.run bot prompt count).1)
   ↔ DallECommand.create bot = inr tt
     ∧ DallECommand.checkImagePrompt bot = inr false
     ∧ (∃ result, DallECommand.generateImages bot = inr result)
     ∧ DallECommand.incrementInteractions bot = inr tt
     ∧ DallECommand.changeImageMetric bot = inr tt)
  ∧ (filter (λ c, DallECommand.isExpense c = true) (DallECommand.run bot prompt count).1 = []
     ∨ filter (λ c, DallECommand.isExpense c = true) (DallECommand.run bot prompt count).1
       = [DallECommand.ExpenseForDallEImage (default 1 count)])
  ∧ ((∃ p d a, (DallECommand.run bot prompt count).2 = inr (DallECommand.Images p d a))
     ↔ (∃ n, DallECommand.ExpenseForDallEImage n ∈ (DallECommand.run bot prompt count).1)
       ∧ DallECommand.expenseForDallEImage bot = inr tt)
  ∧ ((∃ p d a, (DallECommand.run bot prompt count).2 = inr (DallECommand.Images p d a))
     ↔ DallECommand.create bot = inr tt
       ∧ DallECommand.checkImagePrompt bot = inr false
       ∧ (∃ result, DallECommand.generateImages bot = inr result)
       ∧ DallECommand.incrementInteractions bot = inr tt
       ∧ DallECommand.changeImageMetric bot = inr tt
       ∧ DallECommand.expenseForDallEImage bot = inr tt)
  ∧ match (DallECommand.run bot prompt count).2 with
    | inr (DallECommand.Images p d a) =>
        ∃ result,
          DallECommand.generateImages bot = inr result
          ∧ p = prompt ∧ d = DallECommand.duration result
          ∧ a = DallECommand.attachments result
          ∧ (DallECommand.run bot prompt count).1
            = [DallECommand.Create; DallECommand.DeferReply;
               DallECommand.CheckImagePrompt prompt;
               DallECommand.GenerateImages prompt (default 1 count);
               DallECommand.IncrementInteractions;
               DallECommand.ChangeImageMetric (default 1 count);
               DallECommand.ExpenseForDallEImage (default 1 count)]
    | _ => True
    end.
Proof.
  assert (∀ l, Forall (λ c, DallECommand.isExpense c = false) l →
               ∀ n, DallECommand.ExpenseForDallEImage n ∉ l) as Hnone.
  { intros l Hl n Hn. rewrite Forall_forall in Hl. by apply Hl in Hn. }
  unfold DallECommand.run, DallECommand.deliver, tryCatch, andThen, call, answer.
  destruct (DallECommand.create bot) as [e|[]]; simpl.
  { split; [|split; [by left|split; [|split; [|done]]]].
    - split; [|by intros (? & _)]. intros [n Hn].
      by apply (Hnone [DallECommand.Create]) in Hn; [|repeat constructor].
    - split; [by intros (? & ? & ? & ?)|]. intros [[n Hn] _].
      by apply (Hnone [DallECommand.Create]) in Hn; [|repeat constructor].
    - split; [by intros (? & ? & ? & ?)|by intros (? & _)]. }
  destruct (DallECommand.checkImagePrompt bot) as [e|[]]; simpl.
  { split; [|split; [by left|split; [|split; [|done]]]].
    - split; [|by intros (_ & ? & _)]. intros [n Hn].
      by apply Hnone in Hn; [|repeat constructor].
    - split; [by intros (? & ? & ? & ?)|]. intros [[n Hn] _].
      by apply Hnone in Hn; [|repeat constructor].
    - split; [by intros (? & ? & ? & ?)|by intros (_ & ? & _)]. }
  { destruct (DallECommand.message bot) as [e|[]]; simpl.
    - split; [|split; [by left|split; [|split; [|done]]]].
      + split; [|by intros (_ & ? & _)]. intros [n Hn].
        by apply Hnone in Hn; [|repeat constructor].
      + split; [by intros (? & ? & ? & ?)|]. intros [[n Hn] _].
        by apply Hnone in Hn; [|repeat constructor].
      + split; [by intros (? & ? & ? & ?)|by intros (_ & ? & _)].
    - split; [|split; [by left|split; [|split; [|done]]]].
      + split; [|by intros (_ & ? & _)]. intros [n Hn].
        by apply Hnone in Hn; [|repeat constructor].
      + split; [by intros (? & ? & ? & ?)|]. intros [[n Hn] _].
        by apply Hnone in Hn; [|repeat constructor].
      + split; [by intros (? & ? & ? & ?)|by intros (_ & ? & _)]. }
  destruct (DallECommand.generateImages bot) as [e|result]; simpl.
  { destruct (report_cases bot e) as (Hfilter & Hin & Hr).
    destruct (DallECommand.report bot e) as [l r]; simpl in *.
    split; [|split; [|split; [|split]]].
    - split; [|by intros (_ & _ & [] & _)]. intros [n Hn].
      apply (Hin [_; _; _; _]) in Hn. by apply Hnone in Hn; [|repeat constructor].
    - left.
      pose proof
        (Hfilter
               [DallECommand.Create;
                DallECommand.DeferReply;
                DallECommand.CheckImagePrompt prompt;
                DallECommand.GenerateImages prompt (default 1 count)]) as Hf.
      cbn [app] in Hf. by rewrite Hf.
    - split; [by intros (? & ? & ? & ?%Hr)|]. intros [[n Hn] _].
      apply (Hin [_; _; _; _]) in Hn. by apply Hnone in Hn; [|repeat constructor].
    - split; [by intros (? & ? & ? & ?%Hr)|by intros (_ & _ & [] & _)].
    - destruct r as [failure|[|p d a| |failure]]; try done. by destruct (Hr p d a). }
  destruct (DallECommand.incrementInteractions bot) as [e|[]]; simpl.
  { destruct (report_cases bot e) as (Hfilter & Hin & Hr).
    destruct (DallECommand.report bot e) as [l r]; simpl in *.
    split; [|split; [|split; [|split]]].
    - split; [|by intros (_ & _ & _ & ? & _)]. intros [n Hn].
      apply (Hin [_; _; _; _; _]) in Hn. by apply Hnone in Hn; [|repeat constructor].
    - left.
      pose proof
        (Hfilter
               [DallECommand.Create;
                DallECommand.DeferReply;
                DallECommand.CheckImagePrompt prompt;
                DallECommand.GenerateImages prompt (default 1 count);
                DallECommand.IncrementInteractions]) as Hf.
      cbn [app] in Hf. by rewrite Hf.
    - split; [by intros (? & ? & ? & ?%Hr)|]. intros [[n Hn] _].
      apply (Hin [_; _; _; _; _]) in Hn. by apply Hnone in Hn; [|repeat constructor].
    - split; [by intros (? & ? & ? & ?%Hr)|by intros (_ & _ & _ & ? & _)].
    - destruct r as [failure|[|p d a| |failure]]; try done. by destruct (Hr p d a). }
  destruct (DallECommand.changeImageMetric bot) as [e|[]]; simpl.
  { destruct (report_cases bot e) as (Hfilter & Hin & Hr).
    destruct (DallECommand.report bot e) as [l r]; simpl in *.
    split; [|split; [|split; [|split]]].
    - split; [|by intros (_ & _ & _ & _ & ?)]. intros [n Hn].
      apply (Hin [_; _; _; _; _; _]) in Hn. by apply Hnone in Hn; [|repeat constructor].
    - left.
      pose proof
        (Hfilter
               [DallECommand.Create;
                DallECommand.DeferReply;
                DallECommand.CheckImagePrompt prompt;
                DallECommand.GenerateImages prompt (default 1 count);
                DallECommand.IncrementInteractions;
                DallECommand.ChangeImageMetric (default 1 count)]) as Hf.
      cbn [app] in Hf. by rewrite Hf.
    - split; [by intros (? & ? & ? & ?%Hr)|]. intros [[n Hn] _].
      apply (Hin [_; _; _; _; _; _]) in Hn. by apply Hnone in Hn; [|repeat constructor].
    - split; [by intros (? & ? & ? & ?%Hr)|by intros (_ & _ & _ & _ & ? & _)].
    - destruct r as [failure|[|p d a| |failure]]; try done. by destruct (Hr p d a). }
  assert (∀ l, ∃ n, DallECommand.ExpenseForDallEImage n
                    ∈ DallECommand.Create :: DallECommand.DeferReply
                      :: DallECommand.CheckImagePrompt prompt
                      :: DallECommand.GenerateImages prompt (default 1 count)
                      :: DallECommand.IncrementInteractions
                      :: DallECommand.ChangeImageMetric (default 1 count)
                      :: DallECommand.ExpenseForDallEImage (default 1 count) :: l)
    as Hcharged.
  { intros l. exists (default 1 count). do 6 right. left. }
  destruct (DallECommand.expenseForDallEImage bot) as [e|[]]; simpl.
  { destruct (report_cases bot e) as (Hfilter & Hin & Hr).
    destruct (DallECommand.report bot e) as [l r]; simpl in *.
    split; [|split; [|split; [|split]]].
    - split; [|intros _; apply Hcharged].
      intros _. split; [done|]. split; [done|]. split; [by eexists|]. by split.
    - right.
      pose proof
        (Hfilter
               [DallECommand.Create;
                DallECommand.DeferReply;
                DallECommand.CheckImagePrompt prompt;
                DallECommand.GenerateImages prompt (default 1 count);
                DallECommand.IncrementInteractions;
                DallECommand.ChangeImageMetric (default 1 count);
                DallECommand.ExpenseForDallEImage (default 1 count)]) as Hf.
      cbn [app] in Hf. by rewrite Hf.
    - split; [by intros (? & ? & ? & ?%Hr)|by intros [_ ?]].
    - split; [by intros (? & ? & ? & ?%Hr)|by intros (_ & _ & _ & _ & _ & ?)].
    - destruct r as [failure|[|p d a| |failure]]; try done. by destruct (Hr p d a). }
  split; [|split; [|split; [|split]]].
  - split; [|intros _; apply (Hcharged [])].
    intros _. split; [done|]. split; [done|]. split; [by eexists|]. by split.
  - by right.
  - split; [|by eexists _, _, _]. intros _. split; [apply (Hcharged [])|done].
  - split; [|by eexists _, _, _].
    intros _. split; [done|]. split; [done|]. split; [by eexists|]. by repeat split.
  - by exists result.
Qed.

Lemma length_append (s t : string) :
  String.length (s +:+ t) = (String.length s + String.length t)%nat.
Proof. induction s as [|a s IH]; simpl; [done|]. by rewrite IH. Qed.

Lemma append_inj_r (t : string) : ∀ s1 s2, s1 +:+ t = s2 +:+ t → s1 = s2.
Proof.
  induction s1 as [|a s1 IH]; intros [|b s2] Heq; simpl in *.
  - done.
  - apply (f_equal String.length) in Heq. rewrite !length_append in Heq.
    simpl in Heq. lia.
  - apply (f_equal String.length) in Heq. rewrite !length_append in Heq.
    simpl in Heq. lia.
  - injection Heq as -> Heq. f_equal. by apply IH.
Qed.

(** X26. The response has one attachment for each image that was
    generated, however many were asked for, in the order of the result;
    attachment [i] holds image [i] and is named [result-i.png], so no
    two attachments of a response share a name. *)
Theorem attachments_are_numbered (result : DallECommand.TuringImageResult) :
  length (DallECommand.attachments result) = length (DallECommand.images result)
  ∧ (∀ i, DallECommand.attachments result !! i
          = (λ image, ("result-" +:+ pretty.pretty i +:+ ".png", image))
              <$> DallECommand.images result !! i)
  ∧ NoDup (DallECommand.attachments result).*1.
Proof.
  unfold DallECommand.attachments. split; [by rewrite length_imap|].
  split; [intros i; by rewrite list_lookup_imap|].
  rewrite fmap_imap.
  rewrite (imap_ext _ (λ i _, "result-" +:+ pretty.pretty i +:+ ".png")) by done.
  rewrite (imap_seq_0 _ (λ i, "result-" +:+ pretty.pretty i +:+ ".png")).
  apply NoDup_fmap_2; [|apply NoDup_seq].
  intros i j Hij. apply String.app_inj in Hij. apply append_inj_r in Hij.
  by apply pretty.pretty_nat_inj in Hij.
Qed.

(** X27. How a run that does not deliver ends. It answers the notice
    about OpenAI's filters exactly for an API error with code 400, from
    whichever call of the [try] block, and then the error handler is not
    called; any other error of those four calls, the database calls
    after a generation that worked included, goes to the error handler
    and its answer is the response. A run rejects only with what the
    creation of the conversation, the moderation check, the moderation
    notice or the error handler rejected with. *)
Theorem failure_report bot prompt count :
  match (DallECommand.run bot prompt count).2 with
  | inr DallECommand.BlockedByOpenAI =>
      (∃ error, DallECommand.rejected bot error
                ∧ DallECommand.isBadRequest bot error = true)
      ∧ Forall (λ c, DallECommand.isHandle c = false) (DallECommand.run bot prompt count).1
  | inr (DallECommand.Handled error) =>
      DallECommand.rejected bot error
      ∧ DallECommand.isBadRequest bot error = false
      ∧ DallECommand.handle bot error = inr tt
      ∧ ∃ before, (DallECommand.run bot prompt count).1
                  = before ++ [DallECommand.Handle error]
  | inr _ => True
  | inl failure =>
      DallECommand.create bot = inl failure
      ∨ DallECommand.checkImagePrompt bot = inl failure
      ∨ DallECommand.message bot = inl failure
      ∨ ∃ error, DallECommand.rejected bot error
                 ∧ DallECommand.handle bot error = inl failure
  end.
Proof.
  destruct (dalle_run_cases bot prompt count)
    as [(e & He & Hcreate)|[(e & He & Hcheck)|[(_ & He)|(_ & _ & He)]]].
  1-3: rewrite He; simpl.
  - by left.
  - by right; left.
  - destruct (DallECommand.message bot) as [e|]; [|done]. by right; right; left.
  - rewrite He. simpl.
    destruct (dalle_try_cases bot prompt (default 1 count))
      as [(result & Hgen & Hexp & ->)|(error & k & Hrej & Hk & Hk' & ->)]; simpl; [done|].
    destruct (DallECommand.isBadRequest bot error) eqn:Hbad; simpl.
    + split; [by exists error|].
      repeat (apply Forall_cons; split; [done|]).
      unfold DallECommand.deliverCalls.
      destruct k as [|[|[|[|k]]]]; simpl; [| | | |lia]; by repeat constructor.
    + destruct (DallECommand.handle bot error) as [failure|[]] eqn:Hhandle.
      * right. right. right. by exists error.
      * split; [done|]. split; [done|]. split; [done|].
        by eexists (_ :: _ :: _ :: _ :: take k _).
Qed.

(** * The bot *)

(** One step of the setup: it throws exactly when the step fails, and
    has called [execute] exactly when the check of the step passes. *)
Lemma configure_cases dev total index step :
  ∃ calls,
    Bot.configure dev total index step
    = (calls, match Bot.fails step with Some error => inl error | None => inr tt end)
    ∧ Bot.executed calls = if Bot.passes step then [Bot.name step] else [].
Proof.
  unfold Bot.configure, Bot.fails, Bot.passes.
  destruct (Bot.check step) as [[error|[]]|]; simpl.
  - by eexists.
  - destruct (Bot.execute step) as [error|[]]; simpl; [by eexists|].
    destruct dev; by eexists.
  - destruct dev; by eexists.
  - destruct (Bot.execute step) as [error|[]]; simpl; [by eexists|].
    destruct dev; by eexists.
Qed.

Lemma executed_app (l1 l2 : list Bot.Call) :
  Bot.executed (l1 ++ l2) = Bot.executed l1 ++ Bot.executed l2.
Proof. unfold Bot.executed. by rewrite omap_app. Qed.

(** X28. The setup runs its steps in order and ends at the first that
    fails: the [execute] of a step is called when the step has no check
    or its check answers true; when a check or an [execute] throws, the
    failure is logged and the process exits with code 1, and no later
    step is looked at. When no step fails, every step whose check passes
    has been executed, in order, and the process has not exited. *)
Theorem setup_stops_at_first_failure dev total steps : ∀ index,
  match (Bot.configureAll dev total index steps).2 with
  | None =>
      Forall (λ step, Bot.fails step = None) steps
      ∧ Bot.executed (Bot.configureAll dev total index steps).1
        = Bot.name <$> filter (λ step, Bot.passes step = true) steps
  | Some code =>
      code = 1
      ∧ ∃ before step after error,
          steps = before ++ step :: after
          ∧ Forall (λ step, Bot.fails step = None) before
          ∧ Bot.fails step = Some error
          ∧ Bot.executed (Bot.configureAll dev total index steps).1
            = Bot.name <$> filter (λ step, Bot.passes step = true) (before ++ [step])
          ∧ ∃ calls, (Bot.configureAll dev total index steps).1
                     = calls ++ [Bot.Failed (Bot.name step) error; Bot.Stopping; Bot.Exit 1]
  end.
Proof.
  induction steps as [|step steps IH]; intros index; simpl; [done|].
  destruct (configure_cases dev total index step) as (calls & -> & Hexec).
  destruct (Bot.fails step) as [error|] eqn:Hfails; simpl.
  - split; [done|]. exists [], step, steps, error.
    split; [done|]. split; [done|]. split; [done|]. split.
    + rewrite executed_app, Hexec. simpl. rewrite app_nil_r.
      rewrite filter_cons. destruct (Bot.passes step); by simpl.
    + by exists calls.
  - specialize (IH (S index)).
    destruct (Bot.configureAll dev total (S index) steps) as [rest [code|]]; simpl in *.
    + destruct IH as (-> & before & failing & after & error & -> & Hbefore & Hfailing
                      & Hrest & tail & ->).
      split; [done|]. exists (step :: before), failing, after, error.
      split; [done|]. split; [by constructor|]. split; [done|]. split.
      * rewrite executed_app, Hexec, Hrest. simpl. rewrite filter_cons.
        destruct (Bot.passes step); by simpl.
      * exists (calls ++ tail). by rewrite <- app_assoc.
    + destruct IH as (Hall & Hrest). split; [by constructor|].
      rewrite executed_app, Hexec, Hrest, filter_cons.
      destruct (Bot.passes step); by simpl.
Qed.

(** The [execute] of a step is called exactly when its check passes and
    no step before it has failed. *)
Lemma executed_iff dev total steps (called : string) : ∀ index,
  called ∈ Bot.executed (Bot.configureAll dev total index steps).1
  ↔ ∃ before step after,
      steps = before ++ step :: after
      ∧ Bot.name step = called
      ∧ Bot.passes step = true
      ∧ Forall (λ step, Bot.fails step = None) before.
Proof.
  induction steps as [|step steps IH]; intros index; simpl.
  { split; [by intros Hin%elem_of_nil|]. by intros ([|??] & ? & ? & ? & _). }
  destruct (configure_cases dev total index step) as (calls & -> & Hexec).
  assert (called ∈ Bot.executed calls ↔ Bot.name step = called ∧ Bot.passes step = true)
    as Hfirst.
  { rewrite Hexec. destruct (Bot.passes step).
    - rewrite list_elem_of_singleton. split; [by intros ->|by intros [-> _]].
    - split; [by intros Hin%elem_of_nil|]. by intros [_ ?]. }
  destruct (Bot.fails step) as [error|] eqn:Hfails; simpl.
  - rewrite executed_app, elem_of_app, Hfirst. split.
    + intros [[Hname Hpass]|Hin]; [|by apply elem_of_nil in Hin].
      by exists [], step, steps.
    + intros ([|first before] & s & after & Hsteps & Hname & Hpass & Hbefore).
      * injection Hsteps as <- _. by left.
      * injection Hsteps as <- _. apply Forall_cons in Hbefore as [Hok _]. congruence.
  - rewrite executed_app, elem_of_app, Hfirst, (IH (S index)). split.
    + intros [[Hname Hpass]|(before & s & after & -> & Hname & Hpass & Hbefore)].
      * by exists [], step, steps.
      * exists (step :: before), s, after. split; [done|]. split; [done|].
        split; [done|]. by constructor.
    + intros ([|first before] & s & after & Hsteps & Hname & Hpass & Hbefore).
      * injection Hsteps as <- _. by left.
      * injection Hsteps as <- ->. right. apply Forall_cons in Hbefore as [_ Hbefore].
        by exists before, s, after.
Qed.

(** X29. The commands are registered with Discord by cluster 0 only, and
    only once the seven steps before the registration have gone through:
    the [execute] of the step "Register Discord commands" is called
    exactly when [data.id] is 0 and each of those steps resolves. *)
Theorem commands_registered_by_cluster_0 dev id executes :
  "Register Discord commands" ∈ Bot.executed (Bot.onReady dev id executes).1
  ↔ id = 0
    ∧ Forall (λ name, executes name = inr tt)
        ["Stable Horde"; "Replicate"; "Supabase database"; "Conversation sessions";
         "Scheduled tasks"; "Load Discord commands"; "Load Discord interactions"].
Proof.
  unfold Bot.onReady. rewrite executed_iff. unfold Bot.steps. split.
  - intros (before & step & after & Hsteps & Hname & Hpass & Hbefore).
    do 7 (destruct before as [|? before];
          [injection Hsteps as <-; discriminate Hname|
           injection Hsteps as <- Hsteps;
           apply Forall_cons in Hbefore as [? Hbefore]]).
    destruct before as [|? before].
    + injection Hsteps as <- _. unfold Bot.passes in Hpass. simpl in Hpass.
      apply bool_decide_eq_true in Hpass. split; [done|].
      unfold Bot.fails in *. simpl in *.
      repeat (apply Forall_cons; split;
              [by match goal with
                  | H : match executes ?n with _ => _ end = None |- executes ?n = _ =>
                      destruct (executes n) as [|[]]
                  end|]).
      done.
    + injection Hsteps as <- Hsteps.
      destruct before as [|? before]; [injection Hsteps as <-; discriminate Hname|].
      injection Hsteps as _ Hsteps. by destruct before.
  - intros [-> Hall]. rewrite !Forall_cons in Hall.
    destruct Hall as (H1 & H2 & H3 & H4 & H5 & H6 & H7 & _).
    eexists [_; _; _; _; _; _; _], _, [_]. split; [reflexivity|].
    split; [done|]. split; [done|].
    unfold Bot.fails. simpl. rewrite H1, H2, H3, H4, H5, H6, H7.
    by repeat constructor.
Qed.

(** A run of status changes keeps its calls. *)
Lemma changeStatuses_snoc bot_since requests request manager :
  Bot.changeStatuses bot_since (requests ++ [request]) manager
  = ((Bot.changeStatus bot_since request.1 request.2
        (Bot.changeStatuses bot_since requests manager).1).1,
     (Bot.changeStatuses bot_since requests manager).2
     ++ (Bot.changeStatus bot_since request.1 request.2
           (Bot.changeStatuses bot_since requests manager).1).2).
Proof. unfold Bot.changeStatuses. by rewrite foldl_app. Qed.

(** X30. [changeStatus] can never set the status back to operational.
    It compares the status asked for with what [status()] answers, which
    is always operational, and not with what the manager holds: a
    request for operational is ignored, and any other request is sent to
    the manager, also when the manager holds that status already. After
    any run of requests the manager holds the last status asked for that
    is not operational, or its first one if there was none. *)
Theorem operational_is_never_restored bot_since
    (requests : list (Z * (string * option string))) (manager : Bot.BotStatus) :
  Bot.type (Bot.changeStatuses bot_since requests manager).1
  = default (Bot.type manager)
      (last (filter (λ type, type ≠ "operational") ((λ r, r.2.1) <$> requests)))
  ∧ (Bot.changeStatuses bot_since requests manager).2
    = (λ r, Bot.EvalOnManager r.2.1 r.1)
        <$> filter (λ r, r.2.1 ≠ "operational") requests.
Proof.
  induction requests as [|request requests IH] using rev_ind; [done|].
  rewrite changeStatuses_snoc, fmap_app, !filter_app, fmap_app.
  destruct IH as [IHtype IHcalls]. rewrite IHcalls.
  unfold Bot.changeStatus, Bot.status. cbn [Bot.type fst snd].
  change ((λ r : Z * (string * option string), r.2.1) <$> [request])
    with [request.2.1].
  rewrite !filter_cons, !filter_nil.
  destruct (String.eqb_spec "operational" request.2.1) as [Heq|Hne].
  - rewrite !decide_False by (intros Hne; by apply Hne).
    cbn [fst snd fmap list_fmap]. by rewrite !app_nil_r.
  - rewrite !decide_True by (intros Heq; by apply Hne).
    cbn [fst snd fmap list_fmap Bot.type]. by rewrite last_snoc.
Qed.
